(** * RISC-V Specification Development Explorer: refresh and filter pipeline

    A shallow embedding of the dashboard's data pipeline
    (validation, status classification, search predicates, fetch fallback,
    the refresh cycle and the per-phase filter), followed by the properties
    proved about it.

    Conventions of the embedding.
    - Documents are JavaScript values as the YAML loader produces them:
      undefined, null, booleans, numbers (IEEE-754 binary64, as
      [spec_float]), strings, arrays and plain objects (finite maps from
      property names to values).
    - Strings are sequences of code units below 256, the Latin-1 range of
      UTF-16, on which case mapping, white space and URI encoding are those
      of the language.  Only [toUpperCase] leaves the range; its result is
      kept as a list of code units.
    - A YAML timestamp, which js-yaml loads as a [Date], is not among the
      values: documents carry their dates as strings.
    - Code that can throw returns in the [result] monad. *)

From Stdlib Require Import ZArith Ascii String SpecFloat HexString.
From stdpp Require Import gmap strings list fin_maps pretty.

Set Warnings "-register-all".

(** ** Values, errors *)

Inductive value :=
| VUndefined
| VNull
| VBool (b : bool)
| VNum (n : spec_float)
| VStr (s : string)
| VArr (l : list value)
| VObj (m : gmap string value).

(** A thrown error object: its constructor name and its [message]. *)
Record js_error := JsError { err_name : string; message : string }.

Definition TypeError (msg : string) : js_error := JsError "TypeError" msg.
Definition Error (msg : string) : js_error := JsError "Error" msg.

Inductive result (A : Type) :=
| Ok (a : A)
| Throw (e : js_error).
Arguments Ok {A} a.
Arguments Throw {A} e.

#[global] Instance result_ret : MRet result := @Ok.
#[global] Instance result_bind : MBind result :=
  λ A B f m, match m with Ok a => f a | Throw e => Throw e end.

(** Array traversals: the callbacks run left to right, and the first
    throw aborts the traversal. *)
Fixpoint mapR {A B} (f : A → result B) (l : list A) : result (list B) :=
  match l with
  | [] => Ok []
  | x :: l' => y ← f x; ys ← mapR f l'; Ok (y :: ys)
  end.

Fixpoint filterR {A} (f : A → result bool) (l : list A) : result (list A) :=
  match l with
  | [] => Ok []
  | x :: l' => b ← f x; ys ← filterR f l'; Ok (if b : bool then x :: ys else ys)
  end.

Fixpoint someR {A} (f : A → result bool) (l : list A) : result bool :=
  match l with
  | [] => Ok false
  | x :: l' => b ← f x; if b : bool then Ok true else someR f l'
  end.

Inductive js_type := TUndefined | TObject | TBoolean | TNumber | TString.

Definition js_type_eqb (a b : js_type) : bool :=
  match a, b with
  | TUndefined, TUndefined | TObject, TObject | TBoolean, TBoolean
  | TNumber, TNumber | TString, TString => true
  | _, _ => false
  end.

(** [typeof v] *)
Definition typeof (v : value) : js_type :=
  match v with
  | VUndefined => TUndefined
  | VNull | VArr _ | VObj _ => TObject
  | VBool _ => TBoolean
  | VNum _ => TNumber
  | VStr _ => TString
  end.

(** ToBoolean: the falsy values are undefined, null, false, ±0, NaN and
    the empty string. *)
Definition truthy (v : value) : bool :=
  match v with
  | VUndefined | VNull => false
  | VBool b => b
  | VNum (S754_zero _) | VNum S754_nan => false
  | VNum _ => true
  | VStr s => negb (bool_decide (s = ""))
  | VArr _ | VObj _ => true
  end.

(** [v == null] *)
Definition nullish (v : value) : bool :=
  match v with VUndefined | VNull => true | _ => false end.

(** [a || b] and [a ?? b] on already evaluated operands. *)
Definition js_or (a b : value) : value := if truthy a then a else b.
Definition js_coalesce (a b : value) : value := if nullish a then b else a.

(** Own data property [v.k] of a value that is not null or undefined.
    The property names read by the program are data names of the YAML
    document; none of them is a built-in of strings, numbers or arrays, so
    reading them off a primitive or an array yields undefined. *)
Definition prop (v : value) (k : string) : value :=
  match v with
  | VObj m => default VUndefined (m !! k)
  | _ => VUndefined
  end.

(** Property read [v.k]: throws on null and undefined. *)
Definition get (v : value) (k : string) : result value :=
  if nullish v
  then Throw (TypeError ("Cannot read properties of null or undefined (reading '" +:+ k +:+ "')"))
  else Ok (prop v k).

(** Optional chaining [v?.k] *)
Definition get_opt (v : value) (k : string) : value :=
  if nullish v then VUndefined else prop v k.

(** ** Strings *)

(** The letters [A-Z] and [a-z]. *)
Definition is_upper (c : ascii) : bool :=
  (65 <=? nat_of_ascii c)%nat && (nat_of_ascii c <=? 90)%nat.
Definition is_lower (c : ascii) : bool :=
  (97 <=? nat_of_ascii c)%nat && (nat_of_ascii c <=? 122)%nat.

(** [toLowerCase] on one code unit: the capital letters of the range are
    A to Z and U+00C0 to U+00DE without the multiplication sign U+00D7;
    each has its small letter 32 places further. *)
Definition lower_char (c : ascii) : ascii :=
  let n := nat_of_ascii c in
  if is_upper c || ((192 <=? n)%nat && (n <=? 222)%nat && negb (n =? 215)%nat)
  then ascii_of_nat (n + 32) else c.

(** [toUpperCase] on one code unit.  The small letters a to z and U+00E0
    to U+00FE without the division sign U+00F7 have their capital 32 places
    before; the capital of the micro sign U+00B5 is U+039C, that of U+00FF
    is U+0178, and the sharp s U+00DF becomes the two letters SS. *)
Definition upper_units (c : ascii) : list N :=
  let n := N_of_ascii c in
  if is_lower c then [n - 32]%N
  else if (n =? 181)%N then [924]%N
  else if (n =? 223)%N then [83; 83]%N
  else if (224 <=? n)%N && (n <=? 254)%N && negb (n =? 247)%N then [n - 32]%N
  else if (n =? 255)%N then [376]%N
  else [n].

(** White space of [trim], of the regular expression class [\s] and of
    [parseInt]: tab, line feed, vertical tab, form feed, carriage return,
    space and the no-break space U+00A0. *)
Definition is_space (c : ascii) : bool :=
  ((9 <=? nat_of_ascii c)%nat && (nat_of_ascii c <=? 13)%nat)
  || (nat_of_ascii c =? 32)%nat || (nat_of_ascii c =? 160)%nat.

Fixpoint string_map (f : ascii → ascii) (s : string) : string :=
  match s with
  | EmptyString => EmptyString
  | String c s' => String (f c) (string_map f s')
  end.

Definition toLowerCase : string → string := string_map lower_char.

(** The code units of a string, and those of [s.toUpperCase()]. *)
Definition code_units (s : string) : list N := N_of_ascii <$> list_ascii_of_string s.
Definition toUpperCase (s : string) : list N :=
  concat (upper_units <$> list_ascii_of_string s).

Fixpoint trimStart (s : string) : string :=
  match s with
  | String c s' => if is_space c then trimStart s' else s
  | EmptyString => EmptyString
  end.

Fixpoint trimEnd (s : string) : string :=
  match s with
  | String c s' =>
      let r := trimEnd s' in
      if is_space c && bool_decide (r = "") then "" else String c r
  | EmptyString => EmptyString
  end.

Definition trim (s : string) : string := trimEnd (trimStart s).

(** [s.includes(q)] *)
Fixpoint includes (s q : string) : bool :=
  String.prefix q s
  || match s with
     | String _ s' => includes s' q
     | EmptyString => false
     end.

(** ** config/constants.js *)

Definition APPROVAL_TYPES : list string := ["BoD Approval"; "Approval"; "ARC Review"].

Definition DEFAULT_SRC_LOCAL : string := "RVS_phase_rollup.yaml".
Definition DEFAULT_SRC_REMOTE : string :=
  "https://github.com/riscv-admin/riscv-sde/releases/latest/download/RVS_phase_rollup.yaml".

Definition DEFAULT_doneStatuses : list string :=
  ["done"; "approved"; "not required to freeze"; "ar review not require";
   "ar review not required"; "approval not required"; "arc review not required"].
Definition DEFAULT_notStartedStatuses : list string :=
  ["not started"; "to do"; "open"; "backlog"].

(** A status configuration object with the two arrays of strings. *)
Definition mkStatusConfig (doneStatuses notStartedStatuses : list string) : value :=
  VObj (<["doneStatuses" := VArr (VStr <$> doneStatuses)]>
        (<["notStartedStatuses" := VArr (VStr <$> notStartedStatuses)]> ∅)).

Definition DEFAULT_STATUS_CONFIG : value :=
  mkStatusConfig DEFAULT_doneStatuses DEFAULT_notStartedStatuses.

Definition PHASE_ORDER : list string :=
  ["Inception"; "Planning"; "Development"; "Stabilization"; "Freeze";
   "Ratification-Ready"; "Publication"; "Ratified"; "Cancelled"].

Definition PHASE_LOOKUP : gmap string string :=
  foldl (λ acc phase, <[toLowerCase phase := phase]> acc) ∅ PHASE_ORDER.

(** The alias table; [None] is an alias mapped to null. *)
Definition PHASE_ALIASES : gmap string (option string) :=
  <["plan" := Some "Planning"]>
  (<["ratification ready" := Some "Ratification-Ready"]>
  (<["ratification-ready" := Some "Ratification-Ready"]>
  (<["fast-track" := None]>
  (<["ecosystem" := None]> ∅)))).

(** ** utils/format.js: validateYamlShape *)

Record validation := { ok : bool; errors : list string }.

Definition validateYamlShape (data : value) : validation :=
  if negb (truthy data) || negb (js_type_eqb (typeof data) TObject) then
    {| ok := false; errors := ["YAML root must be an object."] |}
  else
    let errors := [] in
    let errors :=
      if nullish (prop data "schema_version")
      then errors ++ ["Missing schema_version."] else errors in
    let errors :=
      if negb (truthy (prop data "counts"))
         || negb (js_type_eqb (typeof (prop data "counts")) TObject)
      then errors ++ ["Missing counts object."] else errors in
    let errors :=
      if negb (truthy (prop data "phases"))
         || negb (js_type_eqb (typeof (prop data "phases")) TObject)
      then errors ++ ["Missing phases object."] else errors in
    {| ok := bool_decide (length errors = 0); errors := errors |}.

(** A non-null value whose [typeof] is "object": an object (a mapping of
    the YAML document) or an array (a sequence). *)
Definition is_object (v : value) : Prop :=
  (∃ m, v = VObj m) ∨ (∃ l, v = VArr l).

#[global] Instance is_object_dec (v : value) : Decision (is_object v).
Proof.
  refine (match v with
          | VObj m => left _
          | VArr l => left _
          | _ => right _
          end); unfold is_object;
    solve [ left; eexists; reflexivity | right; eexists; reflexivity
          | intros [[? ?] | [? ?]]; discriminate ].
Defined.

(** A field that is present and not null. *)
Definition has_value (v : value) (k : string) : Prop :=
  prop v k ≠ VUndefined ∧ prop v k ≠ VNull.

(** ** Numbers *)

(** The counters of [countByStatus] are integers far below 2^53, on which
    double arithmetic is exact; they are kept as [Z] and converted where
    the code divides.  The percentage is computed on binary64 values with
    the IEEE-754 operations of [SpecFloat]. *)
Definition prec : Z := 53.
Definition emax : Z := 1024.

Definition Z2SF (z : Z) : spec_float := binary_normalize prec emax z 0 false.
Definition js_div : spec_float → spec_float → spec_float := SFdiv prec emax.
Definition js_mul : spec_float → spec_float → spec_float := SFmul prec emax.

(** [Math.round(x)]: the integer nearest to [x], ties towards +infinity,
    that is floor(x + 1/2) computed exactly; a zero result keeps the sign of
    [x]; NaN, infinities and zeros are returned unchanged. *)
Definition Math_round (x : spec_float) : spec_float :=
  match x with
  | S754_finite s m e =>
      let n := match e with
               | Zneg k => (2 * cond_Zopp s (Zpos m) + 2 ^ Zpos k) / 2 ^ (Zpos k + 1)
               | _ => cond_Zopp s (Zpos m) * 2 ^ e
               end%Z in
      if (n =? 0)%Z then S754_zero s else Z2SF n
  | _ => x
  end.

(** ** The host *)

(** What the embedding takes from the JavaScript host and its libraries:
    Number-to-string conversion, [JSON.stringify], the js-yaml parser and
    the build-time [VITE_YAML_URL] setting (absent or a string). *)
Class Host := {
  number_to_string : spec_float → string;
  json_stringify : value → string;
  yamlLoad : string → result value;
  VITE_YAML_URL : option string
}.

(** The network as one refresh cycle sees it: the outcome of reading one
    candidate source, that is of resolving it against the page address,
    setting the cache-busting query parameter and issuing the no-store
    [fetch].  A rejected step is a [Throw]. *)
Record response := { resp_ok : bool; resp_status : spec_float; resp_text : result string }.

Definition network := string → result response.

Section WithHost.
Context {host : Host}.

(** [String(v)], and the conversion of a template literal, of [join] and
    of a regular expression applied to [v].  An array is converted by
    joining its elements.  An object is converted by the [toString] it
    inherits, unless it has a property of that name of its own: no value of
    a document is a function, so that the conversion then finds nothing to
    call and throws. *)
Fixpoint toStr (v : value) : result string :=
  match v with
  | VUndefined => Ok "undefined"
  | VNull => Ok "null"
  | VBool true => Ok "true"
  | VBool false => Ok "false"
  | VNum n => Ok (number_to_string n)
  | VStr s => Ok s
  | VArr l =>
      parts ← (fix elements (l : list value) : result (list string) :=
                 match l with
                 | [] => Ok []
                 | x :: l' =>
                     s ← match x with VUndefined | VNull => Ok "" | _ => toStr x end;
                     ss ← elements l';
                     Ok (s :: ss)
                 end) l;
      Ok (String.concat "," parts)
  | VObj m =>
      if bool_decide (is_Some (m !! "toString"))
      then Throw (TypeError "Cannot convert object to primitive value")
      else Ok "[object Object]"
  end.

(** [l.join(sep)] *)
Definition js_join (sep : string) (l : list value) : result string :=
  parts ← mapR (λ x, if nullish x then Ok "" else toStr x) l;
  Ok (String.concat sep parts).

(** [v.toLowerCase()]: only strings have the method. *)
Definition call_toLowerCase (v : value) : result string :=
  match v with
  | VStr s => Ok (toLowerCase s)
  | VUndefined | VNull =>
      Throw (TypeError "Cannot read properties of null or undefined (reading 'toLowerCase')")
  | _ => Throw (TypeError "toLowerCase is not a function")
  end.

(** The receiver of an array method ([map], [filter], [some]). *)
Definition as_array (method : string) (v : value) : result (list value) :=
  match v with
  | VArr l => Ok l
  | VUndefined | VNull =>
      Throw (TypeError ("Cannot read properties of null or undefined (reading '" +:+ method +:+ "')"))
  | _ => Throw (TypeError (method +:+ " is not a function"))
  end.

(** ** utils/phase.js *)

(** The capture of [/^\s*\[([^\]]+)\]/]: after leading white space an
    opening bracket, then the longest run of characters other than the
    closing bracket, which must be non-empty and followed by one. *)
Fixpoint span_label (s : string) : string * string :=
  match s with
  | String c s' =>
      if bool_decide (c = "]"%char) then ("", s)
      else let '(l, r) := span_label s' in (String c l, r)
  | EmptyString => ("", "")
  end.

Definition bracket_label (s : string) : option string :=
  match trimStart s with
  | String c rest =>
      if bool_decide (c = "["%char) then
        let '(l, r) := span_label rest in
        match l, r with
        | String _ _, String _ _ => Some l
        | _, _ => None
        end
      else None
  | EmptyString => None
  end.

(** What [phaseFromSummary] returns: null, a phase name, or - for the two
    lower-case names every object inherits, "constructor" and "__proto__" -
    the inherited built-in found by the [PHASE_LOOKUP[label]] read. *)
Inductive phase_ref :=
| PhNull
| PhName (phase : string)
| PhBuiltin (name : string).

Definition phaseFromSummary (summary : value) : result phase_ref :=
  s ← toStr (js_or summary (VStr ""));
  Ok match bracket_label s with
     | None => PhNull
     | Some m =>
         let label := toLowerCase (trim m) in
         match PHASE_ALIASES !! label with
         | Some (Some phase) => PhName phase
         | Some None => PhNull
         | None =>
             match PHASE_LOOKUP !! label with
             | Some phase => if bool_decide (phase = "") then PhNull else PhName phase
             | None =>
                 if bool_decide (label = "constructor") || bool_decide (label = "__proto__")
                 then PhBuiltin label else PhNull
             end
         end
     end.

(** [phaseFromSummary(..) === v] *)
Definition phase_ref_is (r : phase_ref) (v : value) : bool :=
  match r, v with
  | PhNull, VNull => true
  | PhName a, VStr b => bool_decide (a = b)
  | _, _ => false
  end.

(** ** utils/format.js: issue classification *)

(** In both functions the inner read [issue.isa_or_non_isa.value] is only
    reached behind a truthy [issue?.isa_or_non_isa], so neither read can
    throw. *)
Definition issueIsaValue (issue : value) : result (list N) :=
  let a := get_opt issue "isa_or_non_isa" in
  let isaRaw := if truthy a then js_coalesce (prop a "value") VNull else a in
  if truthy isaRaw then s ← toStr isaRaw; Ok (toUpperCase (trim s)) else Ok [].

Definition issueTrackValue (issue : value) : string :=
  let a := get_opt issue "is_fast_track" in
  let ftRaw := if truthy a then js_coalesce (prop a "value") VNull else a in
  let v := match ftRaw with VStr s => toLowerCase (trim s) | _ => "" end in
  if bool_decide (v = "yes") then "Fast-Track"
  else if bool_decide (v = "no") then "Regular" else "".

(** ** utils/search.js *)

(** [x.key || ""] for each listed key, in order. *)
Definition fields_or_empty (x : value) (keys : list string) : result (list value) :=
  mapR (λ k, v ← get x k; Ok (js_or v (VStr ""))) keys.

Definition matchesQuery (q : string) (issue sub : value) : result bool :=
  if bool_decide (q = "") then Ok true else
  hay ← fields_or_empty issue ["key"; "summary"; "phase"];
  linked ← get issue "linked_issues";
  hay ← match linked with
        | VArr lis =>
            more ← mapR (λ li, fields_or_empty li ["key"; "summary"; "relationship"; "direction"]) lis;
            Ok (hay ++ concat more)
        | _ => Ok hay
        end;
  hay ← (if truthy sub
         then more ← fields_or_empty sub ["key"; "summary"; "status"; "type"]; Ok (hay ++ more)
         else Ok hay);
  text ← js_join " " hay;
  Ok (includes (toLowerCase text) q).

(** A filter is either null or one of the strings the buttons set. *)
Definition filter_on (f : option string) : bool :=
  match f with Some s => negb (bool_decide (s = "")) | None => false end.

Definition issueMatchesFilters (issue : value) (isaFilter trackFilter : option string)
    : result bool :=
  isaMismatch ←
    (if filter_on isaFilter
     then isaVal ← issueIsaValue issue;
          Ok (negb (bool_decide (Some isaVal = code_units <$> isaFilter)))
     else Ok false);
  if isaMismatch : bool then Ok false
  else if filter_on trackFilter
          && negb (bool_decide (Some (issueTrackValue issue) = trackFilter))
  then Ok false
  else Ok true.

(** ** utils/status.js *)

Record status_config := { doneStatuses : list string; notStartedStatuses : list string }.

(** [(s) => String(s).toLowerCase()] *)
Definition lowered (s : value) : result string :=
  t ← toStr s; Ok (toLowerCase t).

Definition normalizeStatusConfig (cfg : value) : result status_config :=
  let pick (k : string) (dflt : list string) : list value :=
    match get_opt cfg k with VArr l => l | _ => VStr <$> dflt end in
  done ← mapR lowered (pick "doneStatuses" DEFAULT_doneStatuses);
  notStarted ← mapR lowered (pick "notStartedStatuses" DEFAULT_notStartedStatuses);
  Ok {| doneStatuses := done; notStartedStatuses := notStarted |}.

Definition statusClass (status statusConfig : value) : result string :=
  if negb (truthy status) then Ok "status-neutral" else
  s ← call_toLowerCase status;
  cfg ← normalizeStatusConfig statusConfig;
  if bool_decide (s ∈ doneStatuses cfg) then Ok "status-done"
  else if bool_decide (s ∈ notStartedStatuses cfg) then Ok "status-not-started"
  else Ok "status-in-progress".

Definition rowStatusClass (status statusConfig : value) : result string :=
  badge ← statusClass status statusConfig;
  Ok (if bool_decide (badge = "status-done") then "row-status-done"
      else if bool_decide (badge = "status-in-progress") then "row-status-in-progress"
      else if bool_decide (badge = "status-not-started") then "row-status-not-started"
      else "").

Record counts := {
  done : Z; total : Z; notStarted : Z; inProgress : Z; pct : spec_float
}.

(** [new Set((v || []).map((s) => s.toLowerCase()))] *)
Definition lowered_set (v : value) : result (list string) :=
  arr ← as_array "map" (js_or v (VArr []));
  mapR call_toLowerCase arr.

(** [(item.status || "").toLowerCase()] *)
Definition item_status (item : value) : result string :=
  st ← get item "status";
  call_toLowerCase (js_or st (VStr "")).

(** The loop of [countByStatus], carrying [(done, notStarted)]. *)
Fixpoint count_loop (doneSet notStartedSet : list string) (items : list value)
    (acc : Z * Z) : result (Z * Z) :=
  match items with
  | [] => Ok acc
  | item :: items' =>
      status ← item_status item;
      let '(d, n) := acc in
      if bool_decide (status = "done") || bool_decide (status ∈ doneSet)
      then count_loop doneSet notStartedSet items' (d + 1, n)%Z
      else if bool_decide (status ∈ notStartedSet)
              || bool_decide (status ∈ ["not started"; "to do"; "open"; "backlog"])
      then count_loop doneSet notStartedSet items' (d, n + 1)%Z
      else count_loop doneSet notStartedSet items' (d, n)
  end.

Definition countByStatus (items : list value) (opts : value) : result counts :=
  doneSet ← lowered_set (get_opt opts "doneStatuses");
  notStartedSet ← lowered_set (get_opt opts "notStartedStatuses");
  '(done, notStarted) ← count_loop doneSet notStartedSet items (0, 0)%Z;
  let total := Z.of_nat (length items) in
  let inProgress := Z.max 0 (total - done - notStarted) in
  let pct :=
    if bool_decide (total = 0%Z) then Z2SF 0
    else Math_round (js_mul (js_div (Z2SF done) (Z2SF total)) (Z2SF 100)) in
  Ok {| done := done; total := total; notStarted := notStarted;
        inProgress := inProgress; pct := pct |}.

Fixpoint pending_loop (doneSet : list string) (approvals : list value) : result value :=
  match approvals with
  | [] => Ok VNull
  | item :: approvals' =>
      status ← item_status item;
      if negb (bool_decide (status = "done")) && negb (bool_decide (status ∈ doneSet))
      then Ok item
      else pending_loop doneSet approvals'
  end.

Definition firstPendingApproval (approvals : list value) (doneStatuses : list string)
    : result value :=
  pending_loop (toLowerCase <$> doneStatuses) approvals.

(** ** components/IssueCard.jsx: the values derived before rendering *)

Definition isApproval (sub : value) : result bool :=
  a ← get sub "is_approval";
  match a with
  | VBool true => Ok true
  | _ =>
      t ← get sub "type";
      Ok (match js_or t (VStr "") with
          | VStr ty => bool_decide (ty ∈ APPROVAL_TYPES)
          | _ => false
          end)
  end.

Definition approvalDoneStatuses : list string :=
  ["approved"; "approval not required"; "ar review not required"; "arc review not required"].

Record card := {
  issuePhase : value;
  phaseTasks : list value;
  taskOnly : list value;
  taskCounts : counts;
  approvalTasks : list value;
  approvalCounts : counts;
  nextApproval : value
}.

(** [(st) => phaseFromSummary(st.summary) === issuePhase] *)
Definition in_phase (issuePhase : value) (st : value) : result bool :=
  sm ← get st "summary";
  r ← phaseFromSummary sm;
  Ok (phase_ref_is r issuePhase).

Definition IssueCard (issue : value) : result card :=
  ph ← get issue "phase";
  let issuePhase := js_or ph (VStr "") in
  subs ← get issue "subtasks";
  subs ← as_array "filter" (js_or subs (VArr []));
  phaseTasks ← filterR (in_phase issuePhase) subs;
  taskOnly ← filterR (λ st, a ← isApproval st; Ok (negb a)) phaseTasks;
  taskCounts ← countByStatus taskOnly VUndefined;
  approvalTasks ← filterR isApproval phaseTasks;
  approvalCounts ← countByStatus approvalTasks
                     (VObj {[ "doneStatuses" := VArr (VStr <$> approvalDoneStatuses) ]});
  nextApproval ← firstPendingApproval approvalTasks approvalDoneStatuses;
  Ok {| issuePhase := issuePhase; phaseTasks := phaseTasks; taskOnly := taskOnly;
        taskCounts := taskCounts; approvalTasks := approvalTasks;
        approvalCounts := approvalCounts; nextApproval := nextApproval |}.

(** ** App.jsx: fetchYaml *)

Definition ENV_YAML_URL : string := default "" VITE_YAML_URL.

(** The body of the [try] block for one candidate. *)
Definition attempt (net : network) (src : string) : result value :=
  resp ← net src;
  if negb (resp_ok resp)
  then Throw (Error ("HTTP " +:+ number_to_string (resp_status resp)))
  else text ← resp_text resp; yamlLoad text.

Fixpoint fetch_loop (net : network) (sources : list string) (lastErr : option js_error)
    : result value :=
  match sources with
  | [] => Throw (default (Error "Failed to load YAML") lastErr)
  | src :: sources' =>
      match attempt net src with
      | Ok doc => Ok doc
      | Throw err => fetch_loop net sources' (Some err)
      end
  end.

(** [candidates.filter(Boolean)] followed by the loop. *)
Definition fetchFrom (net : network) (candidates : list string) : result value :=
  fetch_loop net (filter (λ src, src ≠ "") candidates) None.

Definition fetchYaml (net : network) : result value :=
  fetchFrom net [ENV_YAML_URL; DEFAULT_SRC_LOCAL; DEFAULT_SRC_REMOTE].

(** ** App.jsx: loadAndRender *)

(** The component state and refs that the refresh cycle reads or writes.
    Dates are kept as the argument of their constructor: a clock reading
    for [new Date()], the document's [generated_at] for
    [new Date(nextData.generated_at)].  [toastTimerRef] tells whether the
    ref holds a timer, [toastPending] whether that timer has yet to fire. *)
Record app_state := {
  data : value;
  error : string;
  metaBase : string;
  lastRefreshedAt : option Z;
  lastSuccessAt : option Z;
  lastGeneratedAt : option value;
  toastMsg : string;
  lastDataRef : value;
  lastGenRef : value;
  lastGeneratedRef : option value;
  toastTimerRef : bool;
  toastPending : bool;
  console : list js_error
}.

Definition initial_state : app_state :=
  {| data := VNull; error := ""; metaBase := "Loading..."; lastRefreshedAt := None;
     lastSuccessAt := None; lastGeneratedAt := None; toastMsg := "";
     lastDataRef := VNull; lastGenRef := VNull; lastGeneratedRef := None;
     toastTimerRef := false; toastPending := false; console := [] |}.

(** [a !== b] where [b] comes from a freshly parsed document: primitives
    compare by value, and no object or array of the new document is
    identical to an older one. *)
Definition strict_ne (a b : value) : bool :=
  match a, b with
  | VUndefined, VUndefined | VNull, VNull => false
  | VBool x, VBool y => negb (bool_decide (x = y))
  | VNum x, VNum y => negb (SFeqb x y)
  | VStr x, VStr y => negb (bool_decide (x = y))
  | _, _ => true
  end.

(** The [try] block up to the point where nothing can throw any more. *)
Definition checked (fetched : result value) : result value :=
  nextData ← fetched;
  if negb (truthy nextData) then Throw (Error "No data found.") else
  let validation := validateYamlShape nextData in
  if negb (ok validation)
  then Throw (Error ("Invalid YAML: " +:+ String.concat " " (errors validation)))
  else Ok nextData.

(** One refresh cycle: [fetched] is the outcome of [await fetchYaml()],
    [now] the clock reading of [new Date()].  Raising the notice clears the
    timer the ref holds and starts a new one. *)
Definition loadAndRender (fetched : result value) (now : Z) (s : app_state) : app_state :=
  match checked fetched with
  | Ok nextData =>
      let generatedAt :=
        if truthy (prop nextData "generated_at")
        then Some (prop nextData "generated_at") else None in
      let genKey :=
        js_or (prop nextData "generated_at")
              (VStr (json_stringify (js_or (prop nextData "counts") (VObj ∅)))) in
      let toast := truthy (lastGenRef s) && strict_ne (lastGenRef s) genKey in
      {| data := nextData;
         error := "";
         metaBase := "";
         lastRefreshedAt := Some now;
         lastSuccessAt := Some now;
         lastGeneratedAt := generatedAt;
         toastMsg := if toast then "YAML updated" else toastMsg s;
         lastDataRef := nextData;
         lastGenRef := genKey;
         lastGeneratedRef := generatedAt;
         toastTimerRef := if toast then true else toastTimerRef s;
         toastPending := if toast then true else toastPending s;
         console := console s |}
  | Throw err =>
      if truthy (lastDataRef s) then
        {| data := lastDataRef s;
           error := "Error loading YAML. Using last successful data. (" +:+ message err +:+ ")";
           metaBase := metaBase s;
           lastRefreshedAt := None;
           lastSuccessAt := lastSuccessAt s;
           lastGeneratedAt := lastGeneratedRef s;
           toastMsg := toastMsg s;
           lastDataRef := lastDataRef s;
           lastGenRef := lastGenRef s;
           lastGeneratedRef := lastGeneratedRef s;
           toastTimerRef := toastTimerRef s;
           toastPending := toastPending s;
           console := console s ++ [err] |}
      else
        {| data := data s;
           error := "Error loading YAML: " +:+ message err;
           metaBase := "Failed to load data.";
           lastRefreshedAt := None;
           lastSuccessAt := lastSuccessAt s;
           lastGeneratedAt := lastGeneratedAt s;
           toastMsg := toastMsg s;
           lastDataRef := lastDataRef s;
           lastGenRef := lastGenRef s;
           lastGeneratedRef := lastGeneratedRef s;
           toastTimerRef := toastTimerRef s;
           toastPending := toastPending s;
           console := console s ++ [err] |}
  end.

(** The callback of the notice's timer, [() => setToastMsg("")]; it runs
    only for a timer that was started and not cleared since. *)
Definition toastTimeout (s : app_state) : app_state :=
  if toastPending s then
    {| data := data s; error := error s; metaBase := metaBase s;
       lastRefreshedAt := lastRefreshedAt s; lastSuccessAt := lastSuccessAt s;
       lastGeneratedAt := lastGeneratedAt s;
       toastMsg := "";
       lastDataRef := lastDataRef s; lastGenRef := lastGenRef s;
       lastGeneratedRef := lastGeneratedRef s;
       toastTimerRef := toastTimerRef s;
       toastPending := false;
       console := console s |}
  else s.

(** A timer tick: the network as it is at that moment and the clock. *)
Definition tick : Type := network * Z.

Definition refresh (t : tick) (s : app_state) : app_state :=
  loadAndRender (fetchYaml t.1) t.2 s.

(** What happens to the refresh state: a refresh cycle (the one at
    start-up or one of the interval timer; cycles are taken one after
    another), or the timer of the notice firing. *)
Inductive event :=
| Refresh (t : tick)
| ToastTimeout.

Definition step (s : app_state) (e : event) : app_state :=
  match e with
  | Refresh t => refresh t s
  | ToastTimeout => toastTimeout s
  end.

(** The state after a sequence of events, oldest first. *)
Definition run (events : list event) : app_state := foldl step initial_state events.

(** ** App.jsx: filteredData *)

(** The own enumerable properties [Object.assign] copies from a source
    value: the entries of an object, the indexed elements of an array, the
    indexed characters of a string, and nothing for other primitives. *)
Definition own_props (v : value) : gmap string value :=
  match v with
  | VObj m => m
  | VArr l => list_to_map (imap (λ i x, (pretty i, x)) l)
  | VStr s => list_to_map (imap (λ i c, (pretty i, VStr (String c ""))) (list_ascii_of_string s))
  | _ => ∅
  end.

(** The callback of [allIssues.filter]. *)
Definition issue_kept (q : string) (isaFilter trackFilter : option string)
    (issue : value) : result bool :=
  matchesText ←
    (if bool_decide (q = "") then Ok true else
     m ← matchesQuery q issue VUndefined;
     if m : bool then Ok true else
     subs ← get issue "subtasks";
     subs ← as_array "some" (js_or subs (VArr []));
     someR (λ st, matchesQuery q issue st) subs);
  if negb matchesText then Ok false
  else issueMatchesFilters issue isaFilter trackFilter.

Fixpoint phases_loop (keep : value → result bool) (phases : value)
    (order : list string) (nextPhases : gmap string value)
    : result (gmap string value) :=
  match order with
  | [] => Ok nextPhases
  | phase :: order' =>
      allIssues ← as_array "filter" (js_or (prop phases phase) (VArr []));
      kept ← filterR keep allIssues;
      phases_loop keep phases order' (<[phase := VArr kept]> nextPhases)
  end.

Definition filteredData (data : value) (searchQuery : string)
    (isaFilter trackFilter : option string) : result value :=
  if negb (truthy data) then Ok VNull else
  let q := toLowerCase (trim searchQuery) in
  let phases := js_or (prop data "phases") (VObj ∅) in
  nextPhases ← phases_loop (issue_kept q isaFilter trackFilter) phases PHASE_ORDER ∅;
  Ok (VObj (<["phases" := VObj nextPhases]> (own_props data))).

End WithHost.

(** ** App.jsx: filteredData over a store of objects *)

(** The same function with JavaScript's objects as they are: mutable
    cells of a store, held by reference.  Here an object or array literal
    allocates a fresh cell, a property assignment writes a cell, and
    [Object.assign] copies references, so that what the function writes
    and what it shares with its input can be stated. *)

Definition loc := positive.

Inductive ref_value :=
| RUndefined
| RNull
| RBool (b : bool)
| RNum (n : spec_float)
| RStr (s : string)
| RRef (l : loc).

Inductive cell :=
| CObject (fields : gmap string ref_value)
| CArray (elems : list ref_value).

Definition r_truthy (v : ref_value) : bool :=
  match v with
  | RUndefined | RNull => false
  | RBool b => b
  | RNum (S754_zero _) | RNum S754_nan => false
  | RNum _ => true
  | RStr s => negb (bool_decide (s = ""))
  | RRef _ => true
  end.

(** [v.k] for a [v] that is not null or undefined. *)
Definition r_prop (σ : gmap loc cell) (v : ref_value) (k : string) : ref_value :=
  match v with
  | RRef l =>
      match σ !! l with
      | Some (CObject m) => default RUndefined (m !! k)
      | _ => RUndefined
      end
  | _ => RUndefined
  end.

(** A literal: a fresh cell. *)
Definition alloc (σ : gmap loc cell) (c : cell) : gmap loc cell * loc :=
  let l := fresh (dom σ) in (<[l := c]> σ, l).

(** [o[k] = v] on the object at [l]. *)
Definition set_field (σ : gmap loc cell) (l : loc) (k : string) (v : ref_value)
    : gmap loc cell :=
  match σ !! l with
  | Some (CObject m) => <[l := CObject (<[k := v]> m)]> σ
  | _ => σ
  end.

(** The own enumerable properties of a source of [Object.assign]. *)
Definition r_own_props (σ : gmap loc cell) (v : ref_value) : gmap string ref_value :=
  match v with
  | RRef l =>
      match σ !! l with
      | Some (CObject m) => m
      | Some (CArray xs) => list_to_map (imap (λ i x, (pretty i, x)) xs)
      | None => ∅
      end
  | RStr s =>
      list_to_map (imap (λ i c, (pretty i, RStr (String c ""))) (list_ascii_of_string s))
  | _ => ∅
  end.

(** One source of [Object.assign(target, source)]: its properties are
    written over the target's. *)
Definition assign (σ : gmap loc cell) (target : loc) (source : ref_value)
    : gmap loc cell :=
  match σ !! target with
  | Some (CObject m) => <[target := CObject (r_own_props σ source ∪ m)]> σ
  | _ => σ
  end.

(** The receiver of [filter]: an array of the store. *)
Definition r_as_array (σ : gmap loc cell) (method : string) (v : ref_value)
    : result (list ref_value) :=
  match v with
  | RRef l =>
      match σ !! l with
      | Some (CArray xs) => Ok xs
      | _ => Throw (TypeError (method +:+ " is not a function"))
      end
  | RUndefined | RNull =>
      Throw (TypeError ("Cannot read properties of null or undefined (reading '"
                        +:+ method +:+ "')"))
  | _ => Throw (TypeError (method +:+ " is not a function"))
  end.

(** The document a reference denotes, read to a given depth. *)
Fixpoint reify (depth : nat) (σ : gmap loc cell) (v : ref_value) : value :=
  match v with
  | RUndefined => VUndefined
  | RNull => VNull
  | RBool b => VBool b
  | RNum n => VNum n
  | RStr s => VStr s
  | RRef l =>
      match depth with
      | O => VUndefined
      | S depth' =>
          match σ !! l with
          | Some (CObject m) => VObj (reify depth' σ <$> m)
          | Some (CArray xs) => VArr (reify depth' σ <$> xs)
          | None => VUndefined
          end
      end
  end.

Section StoreModel.
Context {host : Host}.

(** The callback of [filter] only reads: it is the predicate of
    [issue_kept] on the document the issue denotes in the current store. *)
Definition r_issue_kept (q : string) (isaFilter trackFilter : option string)
    (σ : gmap loc cell) (issue : ref_value) : result bool :=
  issue_kept q isaFilter trackFilter (reify (S (size σ)) σ issue).

(** The loop over [PHASE_ORDER]; [nextPhases] is the object at [lnp]. *)
Fixpoint r_phases_loop (keep : gmap loc cell → ref_value → result bool)
    (σ : gmap loc cell) (phases : ref_value) (lnp : loc) (order : list string)
    : result (gmap loc cell) :=
  match order with
  | [] => Ok σ
  | phase :: order' =>
      let a := r_prop σ phases phase in
      let '(σ1, allIssues) :=
        if r_truthy a then (σ, a)
        else let '(σ', l) := alloc σ (CArray []) in (σ', RRef l) in
      issues ← r_as_array σ1 "filter" allIssues;
      kept ← filterR (keep σ1) issues;
      let '(σ2, lk) := alloc σ1 (CArray kept) in
      r_phases_loop keep (set_field σ2 lnp phase (RRef lk)) phases lnp order'
  end.

Definition r_filter_with (keep : gmap loc cell → ref_value → result bool)
    (σ : gmap loc cell) (data : ref_value) : result (gmap loc cell * ref_value) :=
  if negb (r_truthy data) then Ok (σ, RNull) else
  let p := r_prop σ data "phases" in
  let '(σ1, phases) :=
    if r_truthy p then (σ, p)
    else let '(σ', l) := alloc σ (CObject ∅) in (σ', RRef l) in
  let '(σ2, lnp) := alloc σ1 (CObject ∅) in
  σ3 ← r_phases_loop keep σ2 phases lnp PHASE_ORDER;
  let '(σ4, target) := alloc σ3 (CObject ∅) in
  let '(σ5, source) := alloc σ4 (CObject {["phases" := RRef lnp]}) in
  Ok (assign (assign σ5 target data) target (RRef source), RRef target).

Definition r_filteredData (σ : gmap loc cell) (data : ref_value) (searchQuery : string)
    (isaFilter trackFilter : option string) : result (gmap loc cell * ref_value) :=
  r_filter_with (r_issue_kept (toLowerCase (trim searchQuery)) isaFilter trackFilter)
    σ data.

End StoreModel.

(** Loading a document into a store, for examples. *)
Fixpoint load (depth : nat) (v : value) (σ : gmap loc cell) : gmap loc cell * ref_value :=
  match v with
  | VUndefined => (σ, RUndefined)
  | VNull => (σ, RNull)
  | VBool b => (σ, RBool b)
  | VNum n => (σ, RNum n)
  | VStr s => (σ, RStr s)
  | VArr xs =>
      match depth with
      | O => (σ, RUndefined)
      | S depth' =>
          let '(σ1, rs) :=
            foldr (λ x '(σ0, rs), let '(σ', r) := load depth' x σ0 in (σ', r :: rs))
                  (σ, []) xs in
          let '(σ2, l) := alloc σ1 (CArray rs) in (σ2, RRef l)
      end
  | VObj m =>
      match depth with
      | O => (σ, RUndefined)
      | S depth' =>
          let '(σ1, fs) :=
            foldr (λ '(k, x) '(σ0, fs),
                     let '(σ', r) := load depth' x σ0 in (σ', <[k := r]> fs))
                  (σ, ∅) (map_to_list m) in
          let '(σ2, l) := alloc σ1 (CObject fs) in (σ2, RRef l)
      end
  end.

(** ** Vocabulary of the rounding lemmas *)

(** Nothing has been shifted out of a mantissa. *)
Definition is_exact (mrs : shr_record) : bool := negb (shr_r mrs) && negb (shr_s mrs).

(** A mantissa, exponent and location that denote a value of at most
    [K * 2^k]. *)
Definition below (K k m e : Z) (l : location) : Prop :=
  (e <= k)%Z /\ (m < K * 2 ^ (k - e) \/ (m = K * 2 ^ (k - e) /\ l = loc_Exact))%Z.

(** A non-negative binary64 value of at most [K * 2^k]. *)
Definition at_most (K k : Z) (x : spec_float) : Prop :=
  match x with
  | S754_zero false => True
  | S754_finite false m e => (e <= k /\ Zpos m <= K * 2 ^ (k - e))%Z
  | _ => False
  end.

(** ** Vocabulary of the statements *)

(** A value with a string form: neither it nor, for an array, any of its
    elements is an object with a [toString] property of its own. *)
Fixpoint printable (v : value) : bool :=
  match v with
  | VArr l => forallb printable l
  | VObj m => negb (bool_decide (is_Some (m !! "toString")))
  | _ => true
  end.

(** The listed fields of a value have a string form. *)
Definition printable_fields (x : value) (keys : list string) : Prop :=
  Forall (λ k, printable (prop x k) = true) keys.

(** A subtask whose [status] is a string or is absent (null, empty). *)
Definition item_ok (item : value) : Prop :=
  nullish item = false
  ∧ (truthy (prop item "status") = false ∨ ∃ s, prop item "status" = VStr s).

(** A subtask the card can draw: besides, its summary has a string form. *)
Definition subtask_ok (st : value) : Prop :=
  item_ok st ∧ printable (prop st "summary") = true.

(** An option that is absent or an array of strings. *)
Definition strings_or_absent (v : value) : Prop :=
  truthy v = false ∨ ∃ l : list string, v = VArr (VStr <$> l).

Definition opts_ok (opts : value) : Prop :=
  strings_or_absent (get_opt opts "doneStatuses")
  ∧ strings_or_absent (get_opt opts "notStartedStatuses").

(** An issue on which the search and filter predicates do not throw: it
    is not null; the texts searched have a string form: its key, summary
    and phase, its ISA value, and the searched fields of its linked issues
    and subtasks; the elements of its [linked_issues], when that is an
    array, are not null; and its [subtasks] is an array or absent. *)
Definition issue_ok (issue : value) : Prop :=
  nullish issue = false
  ∧ printable_fields issue ["key"; "summary"; "phase"]
  ∧ printable (prop (prop issue "isa_or_non_isa") "value") = true
  ∧ (∀ lis, prop issue "linked_issues" = VArr lis →
       Forall (λ li, nullish li = false
                     ∧ printable_fields li ["key"; "summary"; "relationship"; "direction"])
              lis)
  ∧ (truthy (prop issue "subtasks") = false
     ∨ ∃ subs, prop issue "subtasks" = VArr subs
               ∧ Forall (λ st, printable_fields st ["key"; "summary"; "status"; "type"])
                        subs).

Definition is_Ok {A} (r : result A) : bool :=
  match r with Ok _ => true | Throw _ => false end.

Section Vocabulary.
Context {host : Host}.

(** A candidate source serves a document: the read succeeds with a success
    status and a body that parses as YAML. *)
Definition serves (net : network) (src : string) (doc : value) : Prop :=
  ∃ resp text,
    net src = Ok resp ∧ resp_ok resp = true ∧ resp_text resp = Ok text
    ∧ yamlLoad text = Ok doc.

(** A candidate source fails, with its error: the read is rejected, the
    status is not a success one, the body cannot be read, or the body does
    not parse as YAML. *)
Inductive fails (net : network) (src : string) : js_error → Prop :=
| read_rejected e :
    net src = Throw e → fails net src e
| status_refused resp :
    net src = Ok resp → resp_ok resp = false →
    fails net src (Error ("HTTP " +:+ number_to_string (resp_status resp)))
| body_rejected resp e :
    net src = Ok resp → resp_ok resp = true → resp_text resp = Throw e →
    fails net src e
| parse_failed resp text e :
    net src = Ok resp → resp_ok resp = true → resp_text resp = Ok text →
    yamlLoad text = Throw e →
    fails net src e.

(** A snapshot of the minimal shape: an object with a [schema_version]
    that is not null and with [counts] and [phases] that are objects or
    arrays. *)
Definition well_shaped (doc : value) : bool :=
  bool_decide (is_object doc) && negb (nullish (prop doc "schema_version"))
  && bool_decide (is_object (prop doc "counts"))
  && bool_decide (is_object (prop doc "phases")).

(** A refresh fails, with its cause: the fetch throws, nothing was
    loaded, or what was loaded has not the shape of a snapshot. *)
Inductive refresh_fails (fetched : result value) : string → Prop :=
| fetch_threw err :
    fetched = Throw err → refresh_fails fetched (message err)
| nothing_loaded doc :
    fetched = Ok doc → truthy doc = false → refresh_fails fetched "No data found."
| shape_refused doc :
    fetched = Ok doc → truthy doc = true → well_shaped doc = false →
    refresh_fails fetched
      ("Invalid YAML: " +:+ String.concat " " (errors (validateYamlShape doc))).

(** The document a refresh cycle loads: what the fetch returns, when that
    is a well-shaped snapshot. *)
Definition loaded (t : tick) : option value :=
  match fetchYaml t.1 with
  | Ok doc => if truthy doc && well_shaped doc then Some doc else None
  | Throw _ => None
  end.

Definition loaded_by (e : event) : option value :=
  match e with Refresh t => loaded t | ToastTimeout => None end.

(** The last successfully loaded document of a sequence of events. *)
Definition last_good (events : list event) : option value :=
  last (omap loaded_by events).

End Vocabulary.

(** A subtask of an approval type: its type is drawn from the fixed set of
    approval types, or it carries the explicit approval flag. *)
Definition approval_type (st : value) : bool :=
  match prop st "is_approval" with
  | VBool true => true
  | _ => match prop st "type" with
         | VStr ty => bool_decide (ty ∈ APPROVAL_TYPES)
         | _ => false
         end
  end.

(** A subtask of the issue's phase: the issue has a phase, and the
    summary of the subtask starts with the name of that phase in brackets,
    as [phaseFromSummary] reads it. *)
Definition names_phase {host : Host} (issue st : value) : bool :=
  match prop issue "phase", phaseFromSummary (prop st "summary") with
  | VStr p, Ok (PhName p') => bool_decide (p' = p)
  | _, _ => false
  end.

(** The status of a subtask as a text: the empty one when it has none. *)
Definition status_text (st : value) : string :=
  match prop st "status" with VStr s => s | _ => "" end.

(** A subtask whose lower-cased status is "done" or is in a given set of
    lower-case names. *)
Definition done_under (doneSet : list string) (st : value) : Prop :=
  toLowerCase (status_text st) = "done" ∨ toLowerCase (status_text st) ∈ doneSet.

#[global] Instance done_under_dec (doneSet : list string) (st : value) :
  Decision (done_under doneSet st).
Proof. unfold done_under. apply _. Defined.

(** The issue list of a phase as the filter reads it:
    [(data.phases || {})[phase] || []]. *)
Definition phase_issues (data : value) (phase : string) : value :=
  js_or (prop (js_or (prop data "phases") (VObj ∅)) phase) (VArr []).

(** Whether a callback keeps an element. *)
Definition keeps {A} (f : A → result bool) (x : A) : bool :=
  match f x with Ok true => true | _ => false end.

(** ** Sample data *)

Definition obj (fields : list (string * value)) : value := VObj (list_to_map fields).

Definition demo_arc : value :=
  obj [("key", VStr "RVS-11"); ("summary", VStr "[Development] ARC review");
       ("type", VStr "ARC Review"); ("status", VStr "Done")].
Definition demo_bod : value :=
  obj [("key", VStr "RVS-12"); ("summary", VStr "[Development] BoD sign-off");
       ("type", VStr "BoD Approval"); ("status", VStr "Open")].
Definition demo_task : value :=
  obj [("key", VStr "RVS-13"); ("summary", VStr "[Development] Write the draft");
       ("type", VStr "Task"); ("status", VStr "In Progress")].

Definition demo_uart : value :=
  obj [("key", VStr "RVS-1"); ("summary", VStr "UART extension");
       ("phase", VStr "Development");
       ("isa_or_non_isa", obj [("value", VStr " isa ")]);
       ("is_fast_track", obj [("value", VStr "No")]);
       ("subtasks", VArr [demo_arc; demo_bod; demo_task])].
Definition demo_debug : value :=
  obj [("key", VStr "RVS-2"); ("summary", VStr "Debug specification");
       ("phase", VStr "Development");
       ("isa_or_non_isa", obj [("value", VStr "NON-ISA")]);
       ("is_fast_track", obj [("value", VStr "Yes")])].
Definition demo_docs : value :=
  obj [("key", VStr "RVS-3"); ("summary", VStr "Document the uart registers");
       ("phase", VStr "Development");
       ("isa_or_non_isa", obj [("value", VStr "ISA")])].

Definition demo_doc : value :=
  obj [("schema_version", VStr "1");
       ("generated_at", VStr "2025-01-01T00:00:00Z");
       ("counts", obj [("Development", VNum (Z2SF 3))]);
       ("phases", obj [("Development", VArr [demo_uart; demo_debug; demo_docs])])].

(** The sample document generated a day later. *)
Definition demo_update : value :=
  obj [("schema_version", VStr "1");
       ("generated_at", VStr "2025-01-02T00:00:00Z");
       ("counts", obj [("Development", VNum (Z2SF 3))]);
       ("phases", obj [("Development", VArr [demo_uart; demo_debug; demo_docs])])].

(** A document without [counts] and [phases]. *)
Definition demo_draft : value :=
  obj [("schema_version", VStr "1"); ("generated_at", VStr "2025-02-01T00:00:00Z")].

(** A host for evaluating the definitions on concrete documents: its
    parser knows the empty document, the two sample documents and the
    draft. *)
Definition demo_host : Host :=
  {| number_to_string := λ _, "0";
     json_stringify := λ _, "{}";
     yamlLoad := λ text,
       if bool_decide (text = "") then Ok VUndefined
       else if bool_decide (text = "snapshot") then Ok demo_doc
       else if bool_decide (text = "update") then Ok demo_update
       else if bool_decide (text = "draft") then Ok demo_draft
       else Throw (JsError "YAMLException" "bad indentation of a mapping entry");
     VITE_YAML_URL := None |}.

(** The same host with the build-time override set. *)
Definition demo_host_env : Host :=
  {| number_to_string := @number_to_string demo_host;
     json_stringify := @json_stringify demo_host;
     yamlLoad := @yamlLoad demo_host;
     VITE_YAML_URL := Some "override.yaml" |}.

(** The sample document in a store. *)
Definition demo_store : gmap loc cell := (load 6 demo_doc ∅).1.
Definition demo_root : loc :=
  match (load 6 demo_doc ∅).2 with RRef l => l | _ => 1%positive end.
Definition demo_fields : gmap string ref_value :=
  match demo_store !! demo_root with Some (CObject m) => m | _ => ∅ end.

(** A network on which the first candidate is unreachable, the second
    answers 404 and any other serves a document. *)
Definition demo_net : network :=
  λ src,
    if bool_decide (src = "first.yaml") then Throw (TypeError "Failed to fetch")
    else if bool_decide (src = "second.yaml") then
      Ok {| resp_ok := false; resp_status := Z2SF 404; resp_text := Ok "Not Found" |}
    else Ok {| resp_ok := true; resp_status := Z2SF 200; resp_text := Ok "snapshot" |}.

Definition dead_net : network := λ _, Throw (TypeError "Failed to fetch").

(** A network on which every candidate serves the later document. *)
Definition update_net : network :=
  λ _, Ok {| resp_ok := true; resp_status := Z2SF 200; resp_text := Ok "update" |}.


(** A network on which the override is unreachable, the local file answers
    404 and any other source serves the sample document. *)
Definition scenario_net : network :=
  λ src,
    if bool_decide (src = "override.yaml") then Throw (TypeError "Failed to fetch")
    else if bool_decide (src = DEFAULT_SRC_LOCAL) then
      Ok {| resp_ok := false; resp_status := Z2SF 404; resp_text := Ok "Not Found" |}
    else Ok {| resp_ok := true; resp_status := Z2SF 200; resp_text := Ok "snapshot" |}.

(** A network on which the override is unreachable, the local file answers
    404, the release serves text that does not parse and a mirror serves the
    sample document. *)
Definition fallback_net : network :=
  λ src,
    if bool_decide (src = "override.yaml") then Throw (TypeError "Failed to fetch")
    else if bool_decide (src = DEFAULT_SRC_LOCAL) then
      Ok {| resp_ok := false; resp_status := Z2SF 404; resp_text := Ok "Not Found" |}
    else if bool_decide (src = DEFAULT_SRC_REMOTE) then
      Ok {| resp_ok := true; resp_status := Z2SF 200; resp_text := Ok "<html>" |}
    else Ok {| resp_ok := true; resp_status := Z2SF 200; resp_text := Ok "snapshot" |}.

(** ** utils/format.js: colours *)

Definition js_add : spec_float → spec_float → spec_float := SFadd prec emax.
Definition js_sub : spec_float → spec_float → spec_float := SFsub prec emax.

(** What is left of [s] after the prefix [pat], if it starts with it. *)
Fixpoint strip_prefix (pat s : string) : option string :=
  match pat, s with
  | EmptyString, _ => Some s
  | String a pat', String b s' =>
      if bool_decide (a = b) then strip_prefix pat' s' else None
  | String _ _, EmptyString => None
  end.

(** [s.replace(pat, rep)] for a string pattern: the first occurrence is
    replaced.  The replacement strings of the program hold no [$]. *)
Fixpoint replace_first (pat rep s : string) : string :=
  match strip_prefix pat s with
  | Some rest => rep +:+ rest
  | None =>
      match s with
      | String c s' => String c (replace_first pat rep s')
      | EmptyString => EmptyString
      end
  end.

(** The value of a digit of radix 16, in either case. *)
Definition hex_digit (c : ascii) : option Z :=
  let n := Z.of_nat (nat_of_ascii c) in
  if (48 <=? n)%Z && (n <=? 57)%Z then Some (n - 48)%Z
  else if (97 <=? n)%Z && (n <=? 102)%Z then Some (n - 87)%Z
  else if (65 <=? n)%Z && (n <=? 70)%Z then Some (n - 55)%Z
  else None.

(** The digits at the start of a string, up to the first other character. *)
Fixpoint leading_digits16 (s : string) : list Z :=
  match s with
  | String c s' =>
      match hex_digit c with
      | Some d => d :: leading_digits16 s'
      | None => []
      end
  | EmptyString => []
  end.

(** [parseInt(s, 16)]: leading white space, a sign and a [0x] prefix are
    skipped, the digits that follow are read, and the integer they denote is
    rounded to a number; without a digit the result is NaN. *)
Definition parseInt16 (s : string) : spec_float :=
  let s1 := trimStart s in
  let '(neg, s2) :=
    match s1 with
    | String c rest =>
        if bool_decide (c = "-"%char) then (true, rest)
        else if bool_decide (c = "+"%char) then (false, rest)
        else (false, s1)
    | EmptyString => (false, s1)
    end in
  let s3 :=
    match s2 with
    | String c (String x rest) =>
        if bool_decide (c = "0"%char)
           && (bool_decide (x = "x"%char) || bool_decide (x = "X"%char))
        then rest else s2
    | _ => s2
    end in
  match leading_digits16 s3 with
  | [] => S754_nan
  | ds =>
      let n := foldl (λ a d, 16 * a + d)%Z 0%Z ds in
      if (n =? 0)%Z then S754_zero neg else Z2SF (if neg then - n else n)
  end.

(** ToInt32, the conversion the bitwise operators apply to a number: NaN,
    the zeros and the infinities give 0; a finite number is truncated and
    reduced modulo 2^32 into the signed range. *)
Definition ToInt32 (x : spec_float) : Z :=
  match x with
  | S754_finite s m e =>
      let int := cond_Zopp s (match e with
                              | Zneg k => Zpos m / 2 ^ Zpos k
                              | _ => Zpos m * 2 ^ e
                              end)%Z in
      let int32bit := (int mod 2 ^ 32)%Z in
      if (2 ^ 31 <=? int32bit)%Z then (int32bit - 2 ^ 32)%Z else int32bit
  | _ => 0%Z
  end.

(** The channels are 32-bit integers, kept as [Z]. *)
Record rgb := { rgb_r : Z; rgb_g : Z; rgb_b : Z }.

(** The callers pass a string, an entry of [PHASE_COLORS]. *)
Definition hexToRgb (hex : string) : rgb :=
  let h := replace_first "#" "" hex in
  let b := parseInt16 h in
  {| rgb_r := Z.land (Z.shiftr (ToInt32 b) 16) 255;
     rgb_g := Z.land (Z.shiftr (ToInt32 b) 8) 255;
     rgb_b := Z.land (ToInt32 b) 255 |}.

(** The integer a number denotes, when it is finite and has no fraction. *)
Definition integer_of (x : spec_float) : option Z :=
  match x with
  | S754_zero _ => Some 0%Z
  | S754_finite s m e =>
      match e with
      | Zneg k =>
          if (Zpos m mod 2 ^ Zpos k =? 0)%Z
          then Some (cond_Zopp s (Zpos m / 2 ^ Zpos k)) else None
      | _ => Some (cond_Zopp s (Zpos m * 2 ^ e))
      end
  | _ => None
  end.

(** The digits of an integer in radix 16, lower case. *)
Definition hex_of_Z (z : Z) : string :=
  match z with
  | Z0 => "0"
  | Zpos p => HexString.Raw.of_pos p ""
  | Zneg p => "-" +:+ HexString.Raw.of_pos p ""
  end.

(** The digits engines print for a number with a fraction in radix 16 are
    not fixed by the language; they are taken from the host. *)
Class Radix16 := { fraction_toString16 : spec_float → string }.

(** [s.padStart(targetLength, fill)] for a one-character [fill]. *)
Definition padStart (targetLength : nat) (fill : ascii) (s : string) : string :=
  string_of_list_ascii (replicate (targetLength - String.length s) fill) +:+ s.

Section Colours.
Context {radix16 : Radix16}.

(** [x.toString(16)] *)
Definition toString16 (x : spec_float) : string :=
  match x with
  | S754_nan => "NaN"
  | S754_infinity false => "Infinity"
  | S754_infinity true => "-Infinity"
  | _ =>
      match integer_of x with
      | Some z => hex_of_Z z
      | None => fraction_toString16 x
      end
  end.

Definition rgbToHex (r g b : spec_float) : string :=
  "#" +:+ String.concat "" (map (λ v, padStart 2 "0" (toString16 v)) [r; g; b]).

(** The literals 0.75 and 0.85 denote the numbers nearest to 3/4 and
    85/100, which the correctly rounded quotients are. *)
Definition lighten_default_f : spec_float := js_div (Z2SF 3) (Z2SF 4).
Definition phaseStyle_f : spec_float := js_div (Z2SF 85) (Z2SF 100).

(** [f] is absent when the caller leaves it out. *)
Definition lighten (hex : string) (f : option spec_float) : string :=
  let f := default lighten_default_f f in
  let c := hexToRgb hex in
  let mix (v : Z) : spec_float :=
    Math_round (js_add (Z2SF v) (js_mul (js_sub (Z2SF 255) (Z2SF v)) f)) in
  rgbToHex (mix (rgb_r c)) (mix (rgb_g c)) (mix (rgb_b c)).

Definition PHASE_COLORS : gmap string string :=
  list_to_map
    [("Inception", "#003262"); ("Planning", "#1f5aa8"); ("Development", "#0f766e");
     ("Stabilization", "#b91c1c"); ("Freeze", "#f59e0b");
     ("Ratification-Ready", "#dc2626"); ("Publication", "#2563eb");
     ("Ratified", "#0f766e"); ("Cancelled", "#6b7280")].

Record style := { background : string; color : string; border : string }.

Definition phaseStyle (phase : string) (isEmpty : bool) : style :=
  match PHASE_COLORS !! phase with
  | Some c =>
      {| background := if isEmpty then lighten c (Some phaseStyle_f) else c;
         color := if isEmpty then "#1f2937" else "#fff";
         border := if isEmpty then "1px solid #e5e7eb" else "1px solid transparent" |}
  | None =>
      {| background := if isEmpty then "#f8fafc" else "#f3f4f6";
         color := "#111827";
         border := "1px solid #e5e7eb" |}
  end.

End Colours.

(** ** utils/format.js: highlightText *)

(** [s.indexOf(q)]: the position of the first occurrence, or -1. *)
Fixpoint indexOf (s q : string) : Z :=
  if String.prefix q s then 0%Z
  else match s with
       | String _ s' =>
           let i := indexOf s' q in
           if (i =? -1)%Z then (-1)%Z else (i + 1)%Z
       | EmptyString => (-1)%Z
       end.

(** [s.slice(start, stop)]; [stop] is absent in [s.slice(start)].  A
    negative index counts from the end, and both are clamped to the
    string. *)
Definition slice (s : string) (start : Z) (stop : option Z) : string :=
  let len := Z.of_nat (String.length s) in
  let clamp (i : Z) := if (i <? 0)%Z then Z.max (len + i) 0 else Z.min i len in
  let from := clamp start in
  let to := match stop with Some e => clamp e | None => len end in
  substring (Z.to_nat from) (Z.to_nat (Z.max (to - from) 0)) s.

(** What [highlightText] returns: the text as it is, or the three pieces
    [[before, h("mark", {className: "match"}, match), after]]. *)
Inductive highlighted :=
| Plain (text : value)
| Marked (before matched after : string).

(** ** utils/format.js: the mail link and the clipboard text *)

Definition is_digit (c : ascii) : bool :=
  (48 <=? nat_of_ascii c)%nat && (nat_of_ascii c <=? 57)%nat.

(** The characters [encodeURIComponent] leaves as they are. *)
Definition uri_unreserved (c : ascii) : bool :=
  is_upper c || is_lower c || is_digit c
  || bool_decide (c ∈ ["-"; "_"; "."; "!"; "~"; "*"; "'"; "("; ")"]%char).

Definition upper_hex_char (d : Z) : ascii :=
  ascii_of_nat (Z.to_nat (if (d <? 10)%Z then 48 + d else 55 + d)%Z).

(** One escaped octet, [%XX]. *)
Definition percent_octet (n : Z) : string :=
  String "%" (String (upper_hex_char (n / 16)) (String (upper_hex_char (n mod 16)) "")).

(** A character is read as the code point of its number: below 128 it is
    one octet of UTF-8, from 128 to 255 two. *)
Definition encode_char (c : ascii) : string :=
  let n := Z.of_nat (nat_of_ascii c) in
  if uri_unreserved c then String c ""
  else if (n <? 128)%Z then percent_octet n
  else percent_octet (192 + n / 64) +:+ percent_octet (128 + n mod 64).

Fixpoint encodeURIComponent (s : string) : string :=
  match s with
  | EmptyString => EmptyString
  | String c s' => encode_char c +:+ encodeURIComponent s'
  end.

(** ** utils/phase.js: phaseIndex and phaseId *)

(** [l.indexOf(x)] on an array of strings. *)
Fixpoint array_indexOf (l : list string) (x : string) : Z :=
  match l with
  | [] => (-1)%Z
  | y :: l' =>
      if bool_decide (x = y) then 0%Z
      else let i := array_indexOf l' x in
           if (i =? -1)%Z then (-1)%Z else (i + 1)%Z
  end.

(** Only a string is strictly equal to an element of [PHASE_ORDER]. *)
Definition phaseIndex (phase : value) : Z :=
  if negb (truthy phase) then (-1)%Z
  else match phase with
       | VStr s => array_indexOf PHASE_ORDER s
       | _ => (-1)%Z
       end.

(** [phaseIndex(phaseFromSummary(..))]: a built-in is a truthy object that
    is no element of [PHASE_ORDER]. *)
Definition phaseIndex_ref (r : phase_ref) : Z :=
  match r with
  | PhNull => phaseIndex VNull
  | PhName phase => phaseIndex (VStr phase)
  | PhBuiltin _ => (-1)%Z
  end.

(** [s.replace(/[^a-z0-9]+/g, "-")]: every maximal run of characters
    other than lower-case letters and digits becomes one dash; [in_run]
    tells that the previous character was of such a run. *)
Fixpoint dash_runs (in_run : bool) (s : string) : string :=
  match s with
  | EmptyString => EmptyString
  | String c s' =>
      if is_lower c || is_digit c then String c (dash_runs false s')
      else if in_run then dash_runs true s'
      else String "-" (dash_runs true s')
  end.

Section Rendering.
Context {host : Host}.

Definition highlightText (text : value) (query : string) : result highlighted :=
  if bool_decide (query = "") then Ok (Plain (js_or text (VStr ""))) else
  lower ← toStr (js_or text (VStr ""));
  let idx := indexOf (toLowerCase lower) (toLowerCase query) in
  if (idx =? -1)%Z then Ok (Plain (js_or text (VStr ""))) else
  let before := slice lower 0 (Some idx) in
  let matched := slice lower idx (Some (idx + Z.of_nat (String.length query))%Z) in
  let after := slice lower (idx + Z.of_nat (String.length query))%Z None in
  Ok (Marked before matched after).

(** The line of one task, pushed by the [forEach] callback. *)
Definition mail_task_line (st : value) : result string :=
  status ← get st "status";
  key ← get st "key";
  summary ← get st "summary";
  status ← toStr (js_or status (VStr "Unknown"));
  key ← toStr (js_or key (VStr ""));
  summary ← toStr (js_or summary (VStr ""));
  Ok (trim ("- " +:+ status +:+ ": " +:+ key +:+ " " +:+ summary)).

(** The lines both texts start with, up to the heading of the tasks; the
    key and the summary are returned in their string form, for the subject
    of the mail. *)
Definition header_lines (issue issuePhase : value) (taskCounts : counts)
    (isaDisplay ftDisplay ghUrl : value) : result (list string * string * string) :=
  key ← get issue "key";
  key ← toStr (js_or key (VStr ""));
  let jiraUrl := "https://riscv.atlassian.net/browse/" +:+ encodeURIComponent key in
  summary ← get issue "summary";
  summary ← toStr (js_or summary (VStr ""));
  phase ← toStr issuePhase;
  isa ← toStr (js_or isaDisplay (VStr "Unknown"));
  track ← toStr (js_or ftDisplay (VStr "Unknown"));
  github ← toStr (js_or ghUrl (VStr "N/A"));
  Ok ([trim ("Item: " +:+ summary);
       "Jira: " +:+ jiraUrl;
       "Phase: " +:+ phase;
       "Tasks (" +:+ phase +:+ "): "
         +:+ number_to_string (Z2SF (done taskCounts)) +:+ "/"
         +:+ number_to_string (Z2SF (total taskCounts)) +:+ " ("
         +:+ number_to_string (pct taskCounts) +:+ "%)";
       "ISA: " +:+ isa;
       "Track: " +:+ track;
       "GitHub: " +:+ github;
       "";
       "Tasks:"], key, summary).

Definition buildMailto (issue issuePhase : value) (taskCounts : counts)
    (phaseTasks : list value) (isaDisplay ftDisplay ghUrl : value) : result string :=
  '(lines, key, summary) ←
    header_lines issue issuePhase taskCounts isaDisplay ftDisplay ghUrl;
  lines ← (if bool_decide (length phaseTasks = 0) then Ok (lines ++ ["- None"])
           else more ← mapR mail_task_line phaseTasks; Ok (lines ++ more));
  let subject := trim ("RISC-V Spec Update: " +:+ key +:+ " " +:+ summary) in
  let body := String.concat (String "010" "") lines in
  Ok ("mailto:?subject=" +:+ encodeURIComponent subject
      +:+ "&body=" +:+ encodeURIComponent body).

(** The line of one task in the clipboard text. *)
Definition summary_task_line (st : value) : result string :=
  status ← get st "status";
  key ← get st "key";
  summary ← get st "summary";
  status ← toStr (js_or status (VStr "Unknown"));
  key ← toStr (js_or key (VStr ""));
  summary ← toStr (js_or summary (VStr ""));
  Ok (trim ("- " +:+ status +:+ ": " +:+ key +:+ " " +:+ summary)).

Definition buildSummaryText (issue issuePhase : value) (taskCounts : counts)
    (phaseTasks : list value) (isaDisplay ftDisplay ghUrl : value) : result string :=
  '(lines, _, _) ←
    header_lines issue issuePhase taskCounts isaDisplay ftDisplay ghUrl;
  lines ← (if bool_decide (length phaseTasks = 0) then Ok (lines ++ ["- None"])
           else more ← mapR summary_task_line phaseTasks; Ok (lines ++ more));
  Ok (String.concat (String "010" "") lines).

Definition phaseId (phase : value) : result string :=
  s ← toStr (js_or phase (VStr ""));
  Ok ("phase-" +:+ dash_runs false (toLowerCase s)).

End Rendering.

(** The element id [scrollToPhase] looks up (App.jsx); [phase] is a string
    of [PHASE_ORDER]. *)
Definition scrollToPhase_id (phase : string) : string :=
  "phase-" +:+ dash_runs false (toLowerCase phase).

(** ** App.jsx: the status configuration *)

(** The effect that loads [status_config.json]: [cfg] is the outcome of
    the promise chain before the last [then], that is the parsed body, null
    for a response that is not ok, or a rejection, which the [catch]
    swallows.  The state changes only for a truthy [cfg], to
    [{...DEFAULT_STATUS_CONFIG, ...cfg}]. *)
Definition loadStatusConfig (cfg : result value) (statusConfig : value) : value :=
  match cfg with
  | Ok cfg =>
      if truthy cfg
      then VObj (own_props cfg ∪ own_props DEFAULT_STATUS_CONFIG)
      else statusConfig
  | Throw _ => statusConfig
  end.

(** ** App.jsx: matchCount *)

(** The values a [for .. of] loop runs over: the elements of an array or
    the characters of a string; nothing else in a document is iterable. *)
Definition iterate (v : value) : result (list value) :=
  match v with
  | VArr l => Ok l
  | VStr s => Ok ((λ c, VStr (String c "")) <$> list_ascii_of_string s)
  | _ => Throw (TypeError "value is not iterable")
  end.

Section MatchCount.
Context {host : Host}.

(** The loop over the subtasks of one issue. *)
Fixpoint count_subtasks (q : string) (issue : value) (subs : list value) (count : Z)
    : result Z :=
  match subs with
  | [] => Ok count
  | st :: subs' =>
      m ← matchesQuery q issue st;
      count_subtasks q issue subs' (if m : bool then count + 1 else count)%Z
  end.

(** The loop over the issues of one phase. *)
Fixpoint count_issues (q : string) (issues : list value) (count : Z) : result Z :=
  match issues with
  | [] => Ok count
  | issue :: issues' =>
      m ← matchesQuery q issue VUndefined;
      let count := (if m : bool then count + 1 else count)%Z in
      subs ← get issue "subtasks";
      subs ← iterate (js_or subs (VArr []));
      count ← count_subtasks q issue subs count;
      count_issues q issues' count
  end.

(** The loop over [PHASE_ORDER]. *)
Fixpoint count_phases (q : string) (data : value) (order : list string) (count : Z)
    : result Z :=
  match order with
  | [] => Ok count
  | phase :: order' =>
      issues ← iterate (js_or (get_opt (prop data "phases") phase) (VArr []));
      count ← count_issues q issues count;
      count_phases q data order' count
  end.

Definition matchCount (data : value) (searchQuery : string) : result Z :=
  if negb (truthy data) || bool_decide (trim searchQuery = "") then Ok 0%Z else
  let q := toLowerCase (trim searchQuery) in
  count_phases q data PHASE_ORDER 0%Z.

(** ** components/PhaseSection.jsx: the values derived before rendering *)

(** [data?.phases?.[phase] || []] *)
Definition allIssues (data : value) (phase : string) : value :=
  js_or (get_opt (get_opt data "phases") phase) (VArr []).

(** The callback of the ISA count; [isaFilter] is the truthy filter. *)
Definition isa_counted (isaFilter : string) (i : value) : result bool :=
  if truthy i && truthy (prop i "isa_or_non_isa") then
    s ← toStr (js_or (prop (prop i "isa_or_non_isa") "value") (VStr ""));
    Ok (bool_decide (toUpperCase (trim s) = code_units isaFilter))
  else Ok false.

(** The callback of the track count. *)
Definition track_counted (trackFilter : string) (i : value) : bool :=
  let v := match get_opt (get_opt i "is_fast_track") "value" with
           | VStr s => toLowerCase (trim s)
           | _ => ""
           end in
  let trackVal := if bool_decide (v = "yes") then "Fast-Track"
                  else if bool_decide (v = "no") then "Regular" else "" in
  bool_decide (trackVal = trackFilter).

Definition isaCount (data : value) (phase : string) (isaFilter : option string)
    : result Z :=
  match isaFilter with
  | Some f =>
      if bool_decide (f = "") then Ok 0%Z else
      l ← as_array "filter" (allIssues data phase);
      counted ← filterR (isa_counted f) l;
      Ok (Z.of_nat (length counted))
  | None => Ok 0%Z
  end.

Definition trackCount (data : value) (phase : string) (trackFilter : option string)
    : result Z :=
  match trackFilter with
  | Some f =>
      if bool_decide (f = "") then Ok 0%Z else
      l ← as_array "filter" (allIssues data phase);
      Ok (Z.of_nat (length (filter (λ i, track_counted f i = true) l)))
  | None => Ok 0%Z
  end.

(** The props [openSubtasks] and [isMatch] a card of the section gets, as
    the card reads them ([!!openSubtasks], [isMatch ? .. : ..]); [q] is the
    trimmed, lower-cased query. *)
Definition card_props (q : string) (issue : value) : result (bool * bool) :=
  if bool_decide (q = "") then Ok (false, false) else
  issueMatch ← matchesQuery q issue VUndefined;
  subs ← get issue "subtasks";
  subs ← as_array "some" (js_or subs (VArr []));
  subMatch ← someR (λ st, matchesQuery q issue st) subs;
  Ok (subMatch, issueMatch || subMatch).

(** ** components/IssueCard.jsx: links and rows *)

(** The callback of [linkedIssues.filter]. *)
Definition relation_shown (li : value) : result bool :=
  r ← get li "relationship";
  rel ← lowered (js_or r (VStr ""));
  Ok (bool_decide (rel = "is developed by") || bool_decide (rel = "is governed by")).

Definition linkedRelations (issue : value) : result (list value) :=
  li ← get issue "linked_issues";
  let linkedIssues := match li with VArr l => l | _ => [] end in
  filterR relation_shown linkedIssues.

(** What the row of one subtask derives before rendering. *)
Record row := {
  approve : bool;
  isCompletedPhase : bool;
  rowStatus : string;
  statusChip : string
}.

Definition subtask_row (issue st statusConfig : value) : result row :=
  approve ← isApproval st;
  sm ← get st "summary";
  stPhase ← phaseFromSummary sm;
  let stIndex := phaseIndex_ref stPhase in
  ph ← get issue "phase";
  let issueIndex := phaseIndex ph in
  let isCompletedPhase :=
    (-1 <? stIndex)%Z && (-1 <? issueIndex)%Z && (stIndex <? issueIndex)%Z in
  status ← get st "status";
  rowStatus ← rowStatusClass status statusConfig;
  statusChip ← statusClass status statusConfig;
  Ok {| approve := approve; isCompletedPhase := isCompletedPhase;
        rowStatus := rowStatus; statusChip := statusChip |}.

End MatchCount.

(** ** Vocabulary of the colour statements *)

(** A colour in the six-digit notation: [#] and six digits of radix 16. *)
Definition is_colour (hex : string) : bool :=
  match hex with
  | String c s =>
      bool_decide (c = "#"%char) && bool_decide (String.length s = 6%nat)
      && forallb (λ c, bool_decide (is_Some (hex_digit c))) (list_ascii_of_string s)
  | EmptyString => false
  end.

(** ** Vocabulary of the mail link statements *)

(** The characters of an encoded component: the unreserved ones, the
    percent sign and the digits of an escaped octet. *)
Definition uri_safe (c : ascii) : bool :=
  uri_unreserved c || bool_decide (c = "%"%char).

Definition all_uri_safe (s : string) : bool :=
  forallb uri_safe (list_ascii_of_string s).

(** ** Vocabulary of the phase statements *)

(** The characters of an element id after its prefix. *)
Definition id_char (c : ascii) : bool :=
  is_lower c || is_digit c || bool_decide (c = "-"%char).

(** ** Vocabulary of the card statements *)

Section Vocabulary3.
Context {host : Host}.

(** A linked issue the card surfaces: the string form of its relationship
    is, up to letter case, one of the two surfaced names. *)
Definition surfaced (li : value) : Prop :=
  ∃ s, toStr (js_or (prop li "relationship") (VStr "")) = Ok s
       ∧ toLowerCase s ∈ ["is developed by"; "is governed by"].

#[global] Instance surfaced_dec (li : value) : Decision (surfaced li).
Proof.
  unfold surfaced.
  destruct (toStr (js_or (prop li "relationship") (VStr ""))) as [s | e].
  - destruct (decide (toLowerCase s ∈ ["is developed by"; "is governed by"])) as [Hin | Hno].
    + left. by exists s.
    + right. intros (s' & [= <-] & Hin). by apply Hno.
  - right. by intros (s' & Hs & _).
Defined.

End Vocabulary3.

(** ** Vocabulary of the counting statements *)

(** The strings of an option of [countByStatus]: those of the array, and
    none when the option is absent. *)
Definition option_strings (v : value) : list string :=
  match v with
  | VArr l => omap (λ x, match x with VStr s => Some s | _ => None end) l
  | _ => []
  end.

(** A subtask with one of the four built-in names of work not started. *)
Definition not_started_name (st : value) : Prop :=
  toLowerCase (status_text st) ∈ ["not started"; "to do"; "open"; "backlog"].

#[global] Instance not_started_name_dec (st : value) : Decision (not_started_name st).
Proof. unfold not_started_name. apply _. Defined.

(** ** Vocabulary of the refresh and filter statements *)

Section Vocabulary2.
Context {host : Host}.


End Vocabulary2.

(** The number of issues a result shows for the phases of a list, and
    over all phases. *)
Definition shown (r : value) (order : list string) : Z :=
  foldr (λ phase n,
           (match prop (prop r "phases") phase with
            | VArr l => Z.of_nat (length l)
            | _ => 0
            end + n)%Z)
        0%Z order.

Definition displayed (r : value) : Z := shown r PHASE_ORDER.

(** A string of ASCII characters. *)
Definition is_ascii (s : string) : bool :=
  forallb (λ c, (nat_of_ascii c <? 128)%nat) (list_ascii_of_string s).

(** A string of ASCII characters put in upper case. *)
Definition upper_ascii (c : ascii) : ascii :=
  if is_lower c then ascii_of_nat (nat_of_ascii c - 32) else c.

Definition upper_case (s : string) : string := string_map upper_ascii s.

(** ** Checks on single characters and channels

    Facts about the 256 characters and the 256 values of a channel are
    settled by evaluating these checks on all of them. *)

(** The lower-case digit of a value below 16. *)
Definition lower_hex_char (d : Z) : ascii :=
  ascii_of_nat (Z.to_nat (if (d <? 10)%Z then 48 + d else 87 + d)%Z).

(** The two digits [rgbToHex] prints for a channel. *)
Definition channel_digits (v : Z) : string :=
  String (lower_hex_char (v / 16)) (String (lower_hex_char (v mod 16)) "").

Definition hex_digit_check (c : ascii) : bool :=
  match hex_digit c with
  | Some d =>
      negb (is_space c) && negb (bool_decide (c = "-"%char))
      && negb (bool_decide (c = "+"%char)) && negb (bool_decide (c = "x"%char))
      && negb (bool_decide (c = "X"%char)) && (0 <=? d)%Z && (d <? 16)%Z
      && bool_decide (lower_hex_char d = lower_char c)
  | None => true
  end.

Definition lower_char_check (c : ascii) : bool :=
  bool_decide (lower_char (lower_char c) = lower_char c).

Definition upper_ascii_check (c : ascii) : bool :=
  bool_decide (is_space (upper_ascii c) = is_space c)
  && bool_decide (lower_char (upper_ascii c) = lower_char c)
  && implb (nat_of_ascii c <? 128)%nat
           (bool_decide (upper_units c = [N_of_ascii (upper_ascii c)])).

#[global] Instance spec_float_eq_dec : EqDecision spec_float.
Proof. solve_decision. Defined.

(** One channel of [lighten]. *)
Definition mix (f : spec_float) (v : Z) : spec_float :=
  Math_round (js_add (Z2SF v) (js_mul (js_sub (Z2SF 255) (Z2SF v)) f)).

Definition mix_check (f : spec_float) (v : Z) : bool :=
  let z := ToInt32 (mix f v) in
  bool_decide (mix f v = Z2SF z) && (v <=? z)%Z && (z <=? 255)%Z.

(** ** More sample data *)

Definition demo_radix16 : Radix16 := {| fraction_toString16 := λ _, "0" |}.

(** The counts of one task in progress. *)
Definition demo_counts : counts :=
  {| done := 0; total := 1; notStarted := 0; inProgress := 1; pct := Z2SF 0 |}.

(** Options with a done status of their own, in capitals. *)
Definition demo_opts : value :=
  obj [("doneStatuses", VArr [VStr "IN PROGRESS"])].

(** An issue with two linked issues, one of them a surfaced relationship. *)
Definition demo_linked : value :=
  obj [("key", VStr "RVS-9"); ("summary", VStr "Trace encoder");
       ("phase", VStr "Planning");
       ("linked_issues",
        VArr [obj [("key", VStr "RVS-1"); ("relationship", VStr "Is Developed By")];
              obj [("key", VStr "RVS-2"); ("relationship", VStr "blocks")]])].

(** * Properties *)

Lemma object_truthy_typeof (v : value) :
  is_object v ↔ truthy v = true ∧ typeof v = TObject.
Proof.
  split.
  - intros [[m ->] | [l ->]]; done.
  - intros [Ht Hty]. destruct v as [| | b | n | s | l | m]; try done.
    + right. by exists l.
    + left. by exists m.
Qed.

Lemma js_type_eqb_eq (a b : js_type) : js_type_eqb a b = true ↔ a = b.
Proof. destruct a, b; simpl; split; congruence. Qed.

(** Decidable facts about concrete data, settled by evaluation. *)
Ltac by_compute :=
  lazymatch goal with
  | |- ¬ _ => apply (proj1 (bool_decide_eq_false _)); vm_compute; reflexivity
  | |- _ => apply (bool_decide_eq_true_1 _); vm_compute; reflexivity
  end.

(** Case analysis on the first computation of a sequence that is known
    to return: [bind_case x H] names its value [x] and records the equation
    [H]; the throwing case is contradictory. *)
Tactic Notation "bind_case" ident(x) ident(H) :=
  lazymatch goal with
  | |- mbind _ ?m = Ok _ → _ =>
      destruct m as [x |] eqn:H; [cbn [mbind result_bind] | discriminate]
  end.

(** A property of the value of a computation that returns. *)
Lemma when_Ok {A} (x : result A) (P : A → Prop) :
  is_Ok x = true →
  (∀ a, x = Ok a → P a) →
  match x with Ok a => P a | Throw _ => False end.
Proof. destruct x as [a | e]; [eauto | done]. Qed.

Lemma Ok_proj {A B} (x : result A) (a : A) (f : A → B) (d : B) :
  x = Ok a → f a = match x with Ok a' => f a' | Throw _ => d end.
Proof. by intros ->. Qed.

(** ** Validator *)

Lemma nullish_false_iff (v : value) :
  nullish v = false ↔ v ≠ VUndefined ∧ v ≠ VNull.
Proof. destruct v; simpl; split; try done; intros [? ?]; done. Qed.

Lemma object_check (v : value) :
  negb (truthy v) || negb (js_type_eqb (typeof v) TObject) = false ↔ is_object v.
Proof.
  rewrite object_truthy_typeof, orb_false_iff, !negb_false_iff, js_type_eqb_eq.
  done.
Qed.

Lemma validate_ok_checks (D : value) :
  ok (validateYamlShape D) = true ↔
  is_object D ∧ nullish (prop D "schema_version") = false
  ∧ is_object (prop D "counts") ∧ is_object (prop D "phases").
Proof.
  unfold validateYamlShape. rewrite <- !object_check.
  destruct (negb (truthy D) || negb (js_type_eqb (typeof D) TObject)); simpl.
  { split; [done | by intros [? _]]. }
  destruct (nullish (prop D "schema_version")),
    (negb (truthy (prop D "counts")) || _),
    (negb (truthy (prop D "phases")) || _); simpl; split; try done;
    intros (? & ? & ? & ?); done.
Qed.

(** C1 (amended). For every parsed document [D], [validateYamlShape D]
    reports [ok = true] exactly when [D] is an object with a
    [schema_version] field that is neither absent nor null, and [counts]
    and [phases] fields that each hold a non-null value whose [typeof] is
    "object": an object or an array. *)
Theorem validate_ok_iff (D : value) :
  ok (validateYamlShape D) = true ↔
  is_object D ∧ has_value D "schema_version"
  ∧ is_object (prop D "counts") ∧ is_object (prop D "phases").
Proof. unfold has_value. rewrite <- nullish_false_iff. apply validate_ok_checks. Qed.

(** A document that validates is a mapping at the root: a sequence has no
    [schema_version]. *)
Lemma validate_ok_root (D : value) :
  ok (validateYamlShape D) = true → ∃ m, D = VObj m.
Proof.
  rewrite validate_ok_checks. by intros ([[m ->] | [l ->]] & Hs & _); [exists m |].
Qed.

Lemma well_shaped_ok (D : value) : well_shaped D = ok (validateYamlShape D).
Proof.
  apply eq_true_iff_eq. rewrite validate_ok_checks. unfold well_shaped.
  rewrite !andb_true_iff, !bool_decide_eq_true, negb_true_iff. tauto.
Qed.

(** The error list names every failed check, in the order of the checks. *)
Lemma validate_errors (m : gmap string value) :
  errors (validateYamlShape (VObj m)) =
    (if nullish (prop (VObj m) "schema_version") then ["Missing schema_version."] else [])
    ++ (if bool_decide (is_object (prop (VObj m) "counts")) then [] else ["Missing counts object."])
    ++ (if bool_decide (is_object (prop (VObj m) "phases")) then [] else ["Missing phases object."]).
Proof.
  unfold validateYamlShape.
  change (negb (truthy (VObj m)) || negb (js_type_eqb (typeof (VObj m)) TObject))
    with false.
  cbv iota.
  assert (Hc : ∀ v, negb (truthy v) || negb (js_type_eqb (typeof v) TObject)
                    = negb (bool_decide (is_object v))).
  { intros v. destruct (bool_decide_reflect (is_object v)) as [Ho | Ho]; simpl.
    - by apply object_check.
    - apply not_false_iff_true. by rewrite object_check. }
  rewrite !Hc.
  destruct (nullish _), (bool_decide (is_object (prop (VObj m) "counts"))),
    (bool_decide (is_object (prop (VObj m) "phases"))); reflexivity.
Qed.

(** A document whose [counts] and [phases] are sequences validates,
    although neither field holds an object (a mapping). *)
Lemma validate_accepts_sequences :
  ok (validateYamlShape
        (obj [("schema_version", VStr "1"); ("counts", VArr []); ("phases", VArr [])]))
  = true
  ∧ ¬ (∃ m, prop (obj [("schema_version", VStr "1"); ("counts", VArr []);
                       ("phases", VArr [])]) "counts" = VObj m)
  ∧ ¬ (∃ m, prop (obj [("schema_version", VStr "1"); ("counts", VArr []);
                       ("phases", VArr [])]) "phases" = VObj m).
Proof.
  split; [by vm_compute |].
  split; intros [m Hm]; vm_compute in Hm; discriminate Hm.
Qed.

(** ** Status classifier *)

Section Status.
Context {host : Host}.

(** The conjunction of equivalences of the classification, once the
    class and the memberships are known. *)
Local Ltac class_cases :=
  repeat match goal with
         | |- _ ∧ _ => split
         | |- _ ↔ _ => split
         end;
  try done; try (intros (? & ?); done); try (intros (? & ? & ?); done).

Lemma mapR_lowered_strings (l : list string) :
  mapR lowered (VStr <$> l) = Ok (toLowerCase <$> l).
Proof. induction l as [| s l IH]; [done |]. cbn. by rewrite IH. Qed.

Lemma normalize_mkStatusConfig (ds ns : list string) :
  normalizeStatusConfig (mkStatusConfig ds ns) =
  Ok {| doneStatuses := toLowerCase <$> ds; notStartedStatuses := toLowerCase <$> ns |}.
Proof.
  unfold normalizeStatusConfig, mkStatusConfig, get_opt, prop. simpl nullish.
  cbv beta iota zeta.
  rewrite lookup_insert_eq, lookup_insert_ne, lookup_insert_eq by done.
  cbn [default id]. by rewrite !mapR_lowered_strings.
Qed.

Lemma normalize_default :
  normalizeStatusConfig DEFAULT_STATUS_CONFIG =
  Ok {| doneStatuses := DEFAULT_doneStatuses;
        notStartedStatuses := DEFAULT_notStartedStatuses |}.
Proof. unfold DEFAULT_STATUS_CONFIG. rewrite normalize_mkStatusConfig. reflexivity. Qed.

(** C5 (amended). For every status string and every status
    configuration, that is every object with two arrays of strings: the
    empty status is classified neutral; a non-empty status is classified
    done exactly when its lower-cased form is among the lower-cased entries
    of the done array, not-started exactly when it is among those of the
    not-started array and not among those of the done array, and
    in-progress exactly when it is among neither.  The same holds of every
    configuration value whose entries have a string form, with the two sets
    of its normalised form; the empty status is neutral whatever the
    configuration.  Under the default configuration "Done" is done, "To Do"
    is not-started and "Blocked" is in-progress. *)
Theorem statusClass_spec :
  (∀ (status : string) (ds ns : list string),
     let s := toLowerCase status in
     let D := s ∈ toLowerCase <$> ds in
     let N := s ∈ toLowerCase <$> ns in
     ∃ c, statusClass (VStr status) (mkStatusConfig ds ns) = Ok c
          ∧ (c = "status-neutral" ↔ status = "")
          ∧ (c = "status-done" ↔ status ≠ "" ∧ D)
          ∧ (c = "status-not-started" ↔ status ≠ "" ∧ N ∧ ¬ D)
          ∧ (c = "status-in-progress" ↔ status ≠ "" ∧ ¬ D ∧ ¬ N))
  ∧ (∀ (status : string) (statusConfig : value) (cfg : status_config),
       normalizeStatusConfig statusConfig = Ok cfg →
       let s := toLowerCase status in
       let D := s ∈ doneStatuses cfg in
       let N := s ∈ notStartedStatuses cfg in
       ∃ c, statusClass (VStr status) statusConfig = Ok c
            ∧ (c = "status-neutral" ↔ status = "")
            ∧ (c = "status-done" ↔ status ≠ "" ∧ D)
            ∧ (c = "status-not-started" ↔ status ≠ "" ∧ N ∧ ¬ D)
            ∧ (c = "status-in-progress" ↔ status ≠ "" ∧ ¬ D ∧ ¬ N))
  ∧ (∀ statusConfig : value, statusClass (VStr "") statusConfig = Ok "status-neutral")
  ∧ statusClass (VStr "Done") DEFAULT_STATUS_CONFIG = Ok "status-done"
  ∧ statusClass (VStr "To Do") DEFAULT_STATUS_CONFIG = Ok "status-not-started"
  ∧ statusClass (VStr "Blocked") DEFAULT_STATUS_CONFIG = Ok "status-in-progress".
Proof.
  assert (Hgen : ∀ (status : string) (statusConfig : value) (cfg : status_config),
            normalizeStatusConfig statusConfig = Ok cfg →
            let s := toLowerCase status in
            let D := s ∈ doneStatuses cfg in
            let N := s ∈ notStartedStatuses cfg in
            ∃ c, statusClass (VStr status) statusConfig = Ok c
                 ∧ (c = "status-neutral" ↔ status = "")
                 ∧ (c = "status-done" ↔ status ≠ "" ∧ D)
                 ∧ (c = "status-not-started" ↔ status ≠ "" ∧ N ∧ ¬ D)
                 ∧ (c = "status-in-progress" ↔ status ≠ "" ∧ ¬ D ∧ ¬ N)).
  { intros status statusConfig cfg Hcfg s D N. unfold statusClass.
    simpl truthy. rewrite negb_involutive.
    destruct (bool_decide_reflect (status = "")) as [-> | Hne].
    { exists "status-neutral". clearbody D N. class_cases. }
    cbn [call_toLowerCase mbind result_bind]. rewrite Hcfg.
    cbn [mbind result_bind]. fold s. fold D. fold N.
    destruct (bool_decide_reflect D) as [HD | HD].
    { exists "status-done". clearbody D N. class_cases. }
    destruct (bool_decide_reflect N) as [HN | HN].
    { exists "status-not-started". clearbody D N. class_cases. }
    exists "status-in-progress". clearbody D N. class_cases. }
  split; [| split; [exact Hgen | split]].
  - intros status ds ns.
    exact (Hgen status _ _ (normalize_mkStatusConfig ds ns)).
  - done.
  - unfold statusClass. rewrite normalize_default. by vm_compute.
Qed.

End Status.

(** The empty status is in neither default set, yet it is not classified
    in-progress. *)
Lemma statusClass_empty_neutral :
  (toLowerCase "" ∉ DEFAULT_doneStatuses)
  ∧ (toLowerCase "" ∉ DEFAULT_notStartedStatuses)
  ∧ @statusClass demo_host (VStr "") DEFAULT_STATUS_CONFIG = Ok "status-neutral"
  ∧ @statusClass demo_host (VStr "") DEFAULT_STATUS_CONFIG ≠ Ok "status-in-progress".
Proof.
  split; [| split; [| split]].
  - by_compute.
  - by_compute.
  - reflexivity.
  - discriminate.
Qed.

(** ** Fetcher *)

Section Fetch.
Context {host : Host}.

(** One attempt, in terms of the read, the status, the body and the
    parser. *)
Lemma attempt_serves (net : network) (src : string) (doc : value) :
  serves net src doc → attempt net src = Ok doc.
Proof.
  intros (resp & text & Hn & Hok & Ht & Hl). unfold attempt.
  rewrite Hn. cbn [mbind result_bind]. rewrite Hok. cbn [negb].
  rewrite Ht. cbn [mbind result_bind]. exact Hl.
Qed.

Lemma attempt_fails (net : network) (src : string) (e : js_error) :
  fails net src e → attempt net src = Throw e.
Proof.
  unfold attempt. intros [e' Hn | resp Hn Hok | resp e' Hn Hok Ht | resp text e' Hn Hok Ht Hl];
    rewrite Hn; cbn [mbind result_bind]; [done | | |]; rewrite Hok; cbn [negb];
    [done | |]; rewrite Ht; cbn [mbind result_bind]; done.
Qed.

(** A candidate either serves a document or fails. *)
Lemma serves_or_fails (net : network) (src : string) :
  (∃ doc, serves net src doc) ∨ (∃ e, fails net src e).
Proof.
  destruct (net src) as [resp | e] eqn:Hn; [| right; exists e; by constructor].
  destruct (resp_ok resp) eqn:Hok; [| right; eexists; by eapply status_refused].
  destruct (resp_text resp) as [text | e] eqn:Ht;
    [| right; exists e; by eapply body_rejected].
  destruct (yamlLoad text) as [doc | e] eqn:Hl.
  - left. by exists doc, resp, text.
  - right. exists e. by eapply parse_failed.
Qed.

Lemma fetch_loop_first (net : network) (pre : list string) (src : string)
    (post : list string) (lastErr : option js_error) (doc : value) :
  Forall (λ s, ∃ e, fails net s e) pre →
  serves net src doc →
  fetch_loop net (pre ++ src :: post) lastErr = Ok doc.
Proof.
  intros Hpre Hsrc. revert lastErr.
  induction Hpre as [| s pre [e He] _ IH]; intros lastErr; cbn [app fetch_loop].
  - by rewrite (attempt_serves _ _ _ Hsrc).
  - rewrite (attempt_fails _ _ _ He). apply IH.
Qed.

Lemma fetch_loop_all_fail (net : network) (pre : list string) (src : string)
    (lastErr : option js_error) (e : js_error) :
  Forall (λ s, ∃ e', fails net s e') pre →
  fails net src e →
  fetch_loop net (pre ++ [src]) lastErr = Throw e.
Proof.
  intros Hpre Hsrc. revert lastErr.
  induction Hpre as [| s pre [e' He] _ IH]; intros lastErr; cbn [app fetch_loop].
  - by rewrite (attempt_fails _ _ _ Hsrc).
  - rewrite (attempt_fails _ _ _ He). apply IH.
Qed.

(** C2. The fetcher tries the non-empty candidates in their order.  When
    the candidates before one all fail (the read is rejected, the status is
    not a success one, the body cannot be read or does not parse as YAML)
    and that one serves a document, the document is returned and no error
    is surfaced; when every candidate fails, the error of the last one is
    thrown, and "Failed to load YAML" when there is no candidate at all;
    every candidate either serves or fails.  The candidates of [fetchYaml]
    are the build-time override, the local file and the release, in this
    order: when the override throws, the local file answers with a
    non-success status and the release serves a document, that document is
    returned. *)
Theorem fetchYaml_fallback :
  (∀ (net : network) (candidates pre : list string) (src : string)
     (post : list string) (doc : value),
     filter (λ s, s ≠ "") candidates = pre ++ src :: post →
     Forall (λ s, ∃ e, fails net s e) pre →
     serves net src doc →
     fetchFrom net candidates = Ok doc)
  ∧ (∀ (net : network) (candidates pre : list string) (src : string) (e : js_error),
       filter (λ s, s ≠ "") candidates = pre ++ [src] →
       Forall (λ s, ∃ e', fails net s e') pre →
       fails net src e →
       fetchFrom net candidates = Throw e)
  ∧ (∀ (net : network) (candidates : list string),
       filter (λ s, s ≠ "") candidates = [] →
       fetchFrom net candidates = Throw (Error "Failed to load YAML"))
  ∧ (∀ (net : network) (src : string),
       (∃ doc, serves net src doc) ∨ (∃ e, fails net src e))
  ∧ (∀ net : network,
       fetchYaml net
       = fetchFrom net [default "" VITE_YAML_URL; DEFAULT_SRC_LOCAL; DEFAULT_SRC_REMOTE])
  ∧ (∀ (net : network) (override : string) (e : js_error) (resp : response)
       (doc : value),
       VITE_YAML_URL = Some override → override ≠ "" →
       net override = Throw e →
       net DEFAULT_SRC_LOCAL = Ok resp → resp_ok resp = false →
       serves net DEFAULT_SRC_REMOTE doc →
       fetchYaml net = Ok doc).
Proof.
  split; [| split; [| split; [| split; [| split]]]].
  - intros net candidates pre src post doc Hf Hpre Hsrc.
    unfold fetchFrom. rewrite Hf. by apply fetch_loop_first.
  - intros net candidates pre src e Hf Hpre Hsrc.
    unfold fetchFrom. rewrite Hf. by apply fetch_loop_all_fail.
  - intros net candidates Hf. unfold fetchFrom. by rewrite Hf.
  - apply serves_or_fails.
  - done.
  - intros net override e resp doc Henv Hne Hthrow Hlocal Hstatus Hremote.
    unfold fetchYaml, fetchFrom, ENV_YAML_URL. rewrite Henv. cbn [default].
    rewrite !filter_cons_True, filter_nil by done.
    apply (fetch_loop_first net [override; DEFAULT_SRC_LOCAL] DEFAULT_SRC_REMOTE []);
      [| done].
    constructor; [eexists; by apply read_rejected |].
    constructor; [eexists; by eapply status_refused | constructor].
Qed.

End Fetch.

Lemma fetchYaml_fallback_witness :
  filter (λ s, s ≠ "") [""; "override.yaml"; DEFAULT_SRC_LOCAL; DEFAULT_SRC_REMOTE;
                          "mirror.yaml"]
  = ["override.yaml"; DEFAULT_SRC_LOCAL; DEFAULT_SRC_REMOTE] ++ "mirror.yaml" :: []
  ∧ @fails demo_host fallback_net "override.yaml" (TypeError "Failed to fetch")
  ∧ @fails demo_host fallback_net DEFAULT_SRC_LOCAL (Error "HTTP 0")
  ∧ @fails demo_host fallback_net DEFAULT_SRC_REMOTE
      (JsError "YAMLException" "bad indentation of a mapping entry")
  ∧ @fetchFrom demo_host fallback_net
      [""; "override.yaml"; DEFAULT_SRC_LOCAL; DEFAULT_SRC_REMOTE; "mirror.yaml"]
    = Ok demo_doc.
Proof.
  assert (H1 : @fails demo_host fallback_net "override.yaml" (TypeError "Failed to fetch"))
    by (by apply read_rejected).
  assert (H2 : @fails demo_host fallback_net DEFAULT_SRC_LOCAL (Error "HTTP 0"))
    by (by eapply (@status_refused demo_host fallback_net DEFAULT_SRC_LOCAL)).
  assert (H3 : @fails demo_host fallback_net DEFAULT_SRC_REMOTE
                 (JsError "YAMLException" "bad indentation of a mapping entry"))
    by (by eapply (@parse_failed demo_host fallback_net DEFAULT_SRC_REMOTE)).
  split; [reflexivity |]. do 3 (split; [assumption |]).
  apply (proj1 (@fetchYaml_fallback demo_host) fallback_net
           [""; "override.yaml"; DEFAULT_SRC_LOCAL; DEFAULT_SRC_REMOTE; "mirror.yaml"]
           ["override.yaml"; DEFAULT_SRC_LOCAL; DEFAULT_SRC_REMOTE] "mirror.yaml" []
           demo_doc eq_refl).
  - repeat (constructor; [eexists; eassumption |]). constructor.
  - by eexists _, _.
Defined.

(** The scenario on the sample network: the override is unreachable, the
    local file answers 404 and the release serves the sample document. *)
Example fetchYaml_scenario :
  @fetchYaml demo_host_env scenario_net = Ok demo_doc.
Proof. reflexivity. Qed.

(** ** Refresh cycle *)

Section Refresh.
Context {host : Host}.

Lemma checked_Ok (fetched : result value) (doc : value) :
  checked fetched = Ok doc ↔
  fetched = Ok doc ∧ truthy doc = true ∧ well_shaped doc = true.
Proof.
  unfold checked. rewrite well_shaped_ok.
  destruct fetched as [d | e]; cbn [mbind result_bind]; [| by split; [| intros [? _]]].
  destruct (truthy d) eqn:Ht; cbn [negb].
  - destruct (ok (validateYamlShape d)) eqn:Hok; cbn [negb].
    + split; [by intros [= <-] | by intros [[= <-] _]].
    + split; [done | intros ([= <-] & _ & ?); congruence].
  - split; [done | intros ([= <-] & ? & _); congruence].
Qed.

(** A refresh that fails throws an error with the message of its cause,
    and a refresh throws only when it fails. *)
Lemma checked_Throw (fetched : result value) (err : js_error) :
  checked fetched = Throw err → refresh_fails fetched (message err).
Proof.
  unfold checked. destruct fetched as [doc | e]; cbn [mbind result_bind].
  - destruct (truthy doc) eqn:Ht; cbn [negb].
    + destruct (ok (validateYamlShape doc)) eqn:Hok; cbn [negb]; [done |].
      intros [= <-]. apply shape_refused; [done | done |]. by rewrite well_shaped_ok.
    + intros [= <-]. by eapply nothing_loaded.
  - intros [= <-]. by apply fetch_threw.
Qed.


Lemma checked_loaded (t : tick) :
  loaded t = match checked (fetchYaml t.1) with Ok doc => Some doc | Throw _ => None end.
Proof.
  unfold loaded. destruct (checked (fetchYaml t.1)) as [doc | err] eqn:Hc.
  - apply checked_Ok in Hc as (-> & -> & ->). done.
  - destruct (fetchYaml t.1) as [doc |]; [| done].
    destruct (truthy doc && well_shaped doc) eqn:Hb; [| done].
    apply andb_prop in Hb as [Ht Hw].
    assert (checked (Ok doc) = Ok doc) as Hok by (by apply checked_Ok).
    congruence.
Qed.

Lemma run_snoc (events : list event) (e : event) :
  run (events ++ [e]) = step (run events) e.
Proof. unfold run. by rewrite foldl_snoc. Qed.

Lemma last_good_snoc (events : list event) (e : event) :
  last_good (events ++ [e]) =
  match loaded_by e with Some doc => Some doc | None => last_good events end.
Proof.
  unfold last_good. rewrite omap_app. simpl (omap loaded_by [e]).
  destruct (loaded_by e) as [doc |].
  - by rewrite last_snoc.
  - by rewrite app_nil_r.
Qed.



(** A successful refresh replaces the snapshot and clears the error. *)
Lemma successful_refresh (events : list event) (t : tick) (doc : value) :
  loaded t = Some doc →
  data (run (events ++ [Refresh t])) = doc ∧ error (run (events ++ [Refresh t])) = ""
  ∧ last_good (events ++ [Refresh t]) = Some doc.
Proof.
  intros Hc. rewrite run_snoc, last_good_snoc. cbn [step loaded_by]. rewrite Hc.
  rewrite checked_loaded in Hc. unfold refresh, loadAndRender.
  destruct (checked (fetchYaml t.1)); [| done]. by injection Hc as ->.
Qed.

(** Every refresh either fails or loads a document. *)
Lemma refresh_fails_or_loads (t : tick) :
  (∃ cause, refresh_fails (fetchYaml t.1) cause) ∨ (∃ doc, loaded t = Some doc).
Proof.
  rewrite checked_loaded. destruct (checked (fetchYaml t.1)) as [doc | err] eqn:Hc.
  - right. by exists doc.
  - left. exists (message err). by apply checked_Throw.
Qed.

End Refresh.


(** On the sample networks a refresh also fails when the fetch throws,
    with the error of the network as cause; here no snapshot was loaded
    before. *)
Example failed_first_refresh :
  data (@run demo_host [Refresh (dead_net, 0%Z)]) = VNull
  ∧ error (@run demo_host [Refresh (dead_net, 0%Z)]) = "Error loading YAML: Failed to fetch"
  ∧ metaBase (@run demo_host [Refresh (dead_net, 0%Z)]) = "Failed to load data.".
Proof. by vm_compute. Qed.

(** ** Array traversals with a callback that may throw *)

Section Traversals.
Context {A : Type}.
Implicit Types (f : A → result bool) (l ys : list A).

Lemma filterR_cons_Ok f x l ys :
  filterR f (x :: l) = Ok ys →
  ∃ b ys', f x = Ok b ∧ filterR f l = Ok ys' ∧ ys = if b then x :: ys' else ys'.
Proof.
  cbn. destruct (f x) as [b |]; [| done]. cbn.
  destruct (filterR f l) as [ys' |]; [| done]. cbn. intros [= <-]. by exists b, ys'.
Qed.

(** A traversal that returns kept exactly the elements on which the
    callback returned true, in their order. *)
Lemma filterR_Ok f l ys :
  filterR f l = Ok ys →
  ys = filter (λ x, keeps f x = true) l ∧ Forall (λ x, is_Ok (f x) = true) l.
Proof.
  revert ys. induction l as [| x l IH]; intros ys.
  { cbn. by intros [= <-]. }
  intros (b & ys' & Hx & Hl & ->)%filterR_cons_Ok.
  destruct (IH ys' Hl) as [-> Hall]. split.
  - rewrite filter_cons.
    destruct (decide (keeps f x = true)) as [Hk | Hk];
      unfold keeps in Hk; rewrite Hx in Hk; by destruct b.
  - constructor; [by rewrite Hx | done].
Qed.

Lemma filterR_elem f l ys x :
  filterR f l = Ok ys → x ∈ ys → f x = Ok true ∧ x ∈ l.
Proof.
  intros [-> _]%filterR_Ok [Hk Hx]%list_elem_of_filter. split; [| done].
  unfold keeps in Hk. by destruct (f x) as [[|] |].
Qed.

Lemma filterR_all f l :
  Forall (λ x, f x = Ok true) l → filterR f l = Ok l.
Proof.
  induction 1 as [| x l Hx _ IH]; [done |]. cbn. by rewrite Hx, IH.
Qed.

Lemma filterR_idem f l ys :
  filterR f l = Ok ys → filterR f ys = Ok ys.
Proof.
  intros Hl. apply filterR_all, Forall_forall. intros x Hx.
  by destruct (filterR_elem _ _ _ _ Hl Hx).
Qed.

Lemma filterR_total f l :
  Forall (λ x, is_Ok (f x) = true) l → ∃ ys, filterR f l = Ok ys.
Proof.
  induction 1 as [| x l Hx _ [ys IH]]; [by exists [] |].
  cbn. destruct (f x) as [b |]; [| done]. rewrite IH. cbn. eauto.
Qed.

End Traversals.

Lemma as_array_Ok (method : string) (v : value) (l : list value) :
  as_array method v = Ok l ↔ v = VArr l.
Proof. destruct v; cbn; split; congruence. Qed.

(** ** Filter engine *)

Section Filter.
Context {host : Host}.
Implicit Types (keep : value → result bool) (np acc : gmap string value).

(** The loop over [PHASE_ORDER]: every listed phase gets the kept issues of
    its list, and no other key of [nextPhases] is written. *)
Lemma phases_loop_Ok keep phases order acc np :
  phases_loop keep phases order acc = Ok np →
  (∀ phase, phase ∉ order → np !! phase = acc !! phase)
  ∧ (∀ phase, phase ∈ order →
       ∃ issues kept,
         js_or (prop phases phase) (VArr []) = VArr issues
         ∧ filterR keep issues = Ok kept
         ∧ np !! phase = Some (VArr kept)).
Proof.
  revert acc. induction order as [| p order IH]; intros acc.
  { cbn. intros [= <-]. split; [done |]. by intros phase ?%elem_of_nil. }
  cbn. destruct (as_array _ _) as [issues |] eqn:Harr; [| done]. cbn.
  apply as_array_Ok in Harr.
  destruct (filterR keep issues) as [kept |] eqn:Hkept; [| done]. cbn.
  intros [Hout Hin]%IH. split.
  - intros phase [Hne Hno]%not_elem_of_cons.
    by rewrite Hout, lookup_insert_ne.
  - intros phase Hphase.
    destruct (decide (phase ∈ order)) as [Ho | Ho]; [by apply Hin |].
    apply elem_of_cons in Hphase as [-> | ?]; [| done].
    exists issues, kept. by rewrite Hout, lookup_insert_eq.
Qed.

Lemma phases_loop_total keep phases order acc :
  (∀ phase, phase ∈ order →
     ∃ issues, js_or (prop phases phase) (VArr []) = VArr issues
               ∧ Forall (λ x, is_Ok (keep x) = true) issues) →
  ∃ np, phases_loop keep phases order acc = Ok np.
Proof.
  revert acc. induction order as [| p order IH]; intros acc Hall; [by eexists |].
  destruct (Hall p) as (issues & Hp & Hok); [by left |].
  destruct (filterR_total _ _ Hok) as [kept Hkept].
  cbn. rewrite Hp. cbn. rewrite Hkept. cbn.
  apply IH. intros phase ?. apply Hall. by right.
Qed.

Lemma filteredData_Ok (data : value) (searchQuery : string)
    (isaFilter trackFilter : option string) (r : value) :
  truthy data = true →
  filteredData data searchQuery isaFilter trackFilter = Ok r →
  ∃ np, r = VObj (<["phases" := VObj np]> (own_props data))
        ∧ phases_loop (issue_kept (toLowerCase (trim searchQuery)) isaFilter trackFilter)
            (js_or (prop data "phases") (VObj ∅)) PHASE_ORDER ∅ = Ok np.
Proof.
  intros Ht. unfold filteredData. rewrite Ht. simpl negb. cbv iota zeta.
  destruct (phases_loop _ _ _ _) as [np |]; [| done]. cbn. intros [= <-]. by exists np.
Qed.

(** The phase lists of a filtered result. *)
Lemma filteredData_phases (data : value) (searchQuery : string)
    (isaFilter trackFilter : option string) (r : value) (phase : string) :
  truthy data = true →
  filteredData data searchQuery isaFilter trackFilter = Ok r →
  phase ∈ PHASE_ORDER →
  ∃ issues kept,
    phase_issues data phase = VArr issues
    ∧ filterR (issue_kept (toLowerCase (trim searchQuery)) isaFilter trackFilter) issues
      = Ok kept
    ∧ prop (prop r "phases") phase = VArr kept.
Proof.
  intros Ht (np & -> & Hloop)%filteredData_Ok Hphase; [| done].
  apply phases_loop_Ok in Hloop as [_ Hin].
  destruct (Hin phase Hphase) as (issues & kept & Hi & Hk & Hnp).
  exists issues, kept. split; [done |]. split; [done |].
  cbn. rewrite lookup_insert_eq. cbn. by rewrite Hnp.
Qed.

Lemma filteredData_no_other_phase (data : value) (searchQuery : string)
    (isaFilter trackFilter : option string) (r : value) (phase : string) :
  filteredData data searchQuery isaFilter trackFilter = Ok r →
  phase ∉ PHASE_ORDER →
  prop (prop r "phases") phase = VUndefined.
Proof.
  intros Hr Hphase. destruct (truthy data) eqn:Ht.
  - apply filteredData_Ok in Hr as (np & -> & Hloop); [| done].
    apply phases_loop_Ok in Hloop as [Hout _].
    cbn. rewrite lookup_insert_eq. cbn. by rewrite Hout.
  - unfold filteredData in Hr. rewrite Ht in Hr. cbn in Hr. by injection Hr as <-.
Qed.

(** C4. For every snapshot whose phase lists are arrays (or absent),
    filtering with an empty query and no ISA or track filter succeeds, and
    the list of every phase of the result is the list of that phase in the
    snapshot: the same issues in the same order. *)
Theorem filteredData_no_filter (data : value) :
  truthy data = true →
  (∀ phase, phase ∈ PHASE_ORDER → ∃ issues, phase_issues data phase = VArr issues) →
  ∃ r, filteredData data "" None None = Ok r
       ∧ ∀ phase issues,
           phase ∈ PHASE_ORDER →
           phase_issues data phase = VArr issues →
           prop (prop r "phases") phase = VArr issues.
Proof.
  intros Ht Hshape.
  assert (Hkeep : ∀ issue, issue_kept (toLowerCase (trim "")) None None issue = Ok true)
    by done.
  destruct (phases_loop_total (issue_kept (toLowerCase (trim "")) None None)
              (js_or (prop data "phases") (VObj ∅)) PHASE_ORDER ∅) as [np Hnp].
  { intros phase Hphase. destruct (Hshape phase Hphase) as [issues Hi].
    exists issues. split; [done |]. apply Forall_forall. intros x _. by rewrite Hkeep. }
  exists (VObj (<["phases" := VObj np]> (own_props data))). split.
  { unfold filteredData. rewrite Ht. simpl negb. cbv iota zeta. by rewrite Hnp. }
  intros phase issues Hphase Hi.
  apply phases_loop_Ok in Hnp as [_ Hin].
  destruct (Hin phase Hphase) as (issues' & kept & Hi' & Hk & Hl).
  unfold phase_issues in Hi. rewrite Hi in Hi'. injection Hi' as <-.
  rewrite filterR_all in Hk by (apply Forall_forall; intros x _; apply Hkeep).
  injection Hk as <-. cbn. rewrite lookup_insert_eq. cbn. by rewrite Hl.
Qed.

Lemma issue_kept_true (q : string) (isaFilter trackFilter : option string) (issue : value) :
  issue_kept q isaFilter trackFilter issue = Ok true →
  issueMatchesFilters issue isaFilter trackFilter = Ok true.
Proof.
  unfold issue_kept.
  destruct (if bool_decide (q = "") then _ else _) as [[|] |]; cbn; congruence.
Qed.

Lemma code_units_inj (s t : string) : code_units s = code_units t → s = t.
Proof.
  revert t. induction s as [| c s IH]; intros [| d t]; cbn; try done.
  intros [= Hc Hs]. apply (f_equal ascii_of_N) in Hc.
  rewrite !ascii_N_embedding in Hc. subst d. by rewrite (IH t Hs).
Qed.

Lemma issueMatchesFilters_isa (issue : value) (isaFilter : string)
    (trackFilter : option string) :
  isaFilter ≠ "" →
  issueMatchesFilters issue (Some isaFilter) trackFilter = Ok true →
  issueIsaValue issue = Ok (code_units isaFilter).
Proof.
  intros Hne. unfold issueMatchesFilters, filter_on.
  rewrite (bool_decide_eq_false_2 (isaFilter = "")) by done. cbn [negb].
  destruct (issueIsaValue issue) as [u |]; [| done].
  cbn [mbind result_bind fmap option_fmap option_map].
  destruct (bool_decide_reflect (Some u = Some (code_units isaFilter)))
    as [[= ->] | _]; [done |]. cbn. done.
Qed.

Lemma issueIsaValue_nonempty (issue : value) (u : list N) :
  u ≠ [] →
  issueIsaValue issue = Ok u →
  truthy (prop (prop issue "isa_or_non_isa") "value") = true
  ∧ ∃ s, toStr (prop (prop issue "isa_or_non_isa") "value") = Ok s
         ∧ u = toUpperCase (trim s).
Proof.
  intros Hu. unfold issueIsaValue, get_opt.
  destruct (nullish issue) eqn:Hn; [cbn; congruence |].
  destruct (truthy (prop issue "isa_or_non_isa")) eqn:Ha.
  - unfold js_coalesce.
    destruct (nullish (prop (prop issue "isa_or_non_isa") "value")) eqn:Hv;
      [cbn; congruence |].
    destruct (truthy (prop (prop issue "isa_or_non_isa") "value")); [| congruence].
    destruct (toStr _) as [s |]; [| done]. cbn. intros [= <-]. split; [done |].
    by exists s.
  - rewrite Ha. congruence.
Qed.

(** C6 (amended). With the ISA filter set to "ISA", every issue of every
    phase list of the filtered result has a truthy [isa_or_non_isa.value]
    whose string form, trimmed and then upper-cased, is "ISA". *)
Theorem filteredData_isa (data : value) (searchQuery : string)
    (trackFilter : option string) (r : value) (phase : string)
    (issues : list value) (issue : value) :
  filteredData data searchQuery (Some "ISA") trackFilter = Ok r →
  prop (prop r "phases") phase = VArr issues →
  issue ∈ issues →
  truthy (prop (prop issue "isa_or_non_isa") "value") = true
  ∧ ∃ s, toStr (prop (prop issue "isa_or_non_isa") "value") = Ok s
         ∧ toUpperCase (trim s) = code_units "ISA".
Proof.
  intros Hr Hissues Hissue.
  destruct (decide (phase ∈ PHASE_ORDER)) as [Hphase | Hphase]; cycle 1.
  { by rewrite (filteredData_no_other_phase _ _ _ _ _ _ Hr Hphase) in Hissues. }
  destruct (truthy data) eqn:Ht; cycle 1.
  { unfold filteredData in Hr. rewrite Ht in Hr. cbn in Hr. by injection Hr as <-. }
  destruct (filteredData_phases _ _ _ _ _ _ Ht Hr Hphase) as (all & kept & _ & Hk & Hp).
  rewrite Hp in Hissues. injection Hissues as ->.
  destruct (filterR_elem _ _ _ _ Hk Hissue) as [Hkept _].
  apply issue_kept_true, issueMatchesFilters_isa in Hkept; [| done].
  destruct (issueIsaValue_nonempty issue (code_units "ISA")) as (Hv & s & Hs & Heq);
    [discriminate | exact Hkept |].
  split; [done |]. by exists s.
Qed.

(** C7. Filtering is idempotent: when the filter engine returns a result,
    applying it to that result with the same query and filters returns the
    same result. *)
Theorem filteredData_idempotent (data : value) (searchQuery : string)
    (isaFilter trackFilter : option string) (r : value) :
  filteredData data searchQuery isaFilter trackFilter = Ok r →
  filteredData r searchQuery isaFilter trackFilter = Ok r.
Proof.
  intros Hr. destruct (truthy data) eqn:Ht; cycle 1.
  { unfold filteredData in Hr. rewrite Ht in Hr. cbn in Hr. by injection Hr as <-. }
  apply filteredData_Ok in Hr as (np & -> & Hloop); [| done].
  set (keep := issue_kept (toLowerCase (trim searchQuery)) isaFilter trackFilter) in *.
  apply phases_loop_Ok in Hloop as [Hout Hin].
  destruct (phases_loop_total keep (VObj np) PHASE_ORDER ∅) as [np' Hloop'].
  { intros phase Hphase.
    destruct (Hin phase Hphase) as (issues & kept & _ & Hk & Hnp).
    exists kept. cbn. rewrite Hnp. split; [done |].
    apply Forall_forall. intros x Hx.
    by destruct (filterR_elem _ _ _ _ Hk Hx) as [-> _]. }
  assert (np' = np) as ->.
  { apply phases_loop_Ok in Hloop' as [Hout' Hin']. apply map_eq. intros phase.
    destruct (decide (phase ∈ PHASE_ORDER)) as [Hphase | Hphase].
    - destruct (Hin phase Hphase) as (issues & kept & _ & Hk & Hnp).
      destruct (Hin' phase Hphase) as (issues' & kept' & Hi' & Hk' & Hnp').
      cbn in Hi'. rewrite Hnp in Hi'. cbn in Hi'. injection Hi' as <-.
      rewrite (filterR_idem _ _ _ Hk) in Hk'. injection Hk' as <-. congruence.
    - by rewrite Hout, Hout'. }
  unfold filteredData. simpl negb. cbv iota zeta. fold keep.
  cbn [prop own_props]. rewrite lookup_insert_eq.
  change (js_or (default VUndefined (Some (VObj np))) (VObj ∅)) with (VObj np).
  rewrite Hloop'. cbn. by rewrite insert_insert_eq.
Qed.

(** The filter rewrites nothing but [phases]: the result carries every
    other top-level field of the snapshot, unknown ones included, with the
    value it has there, and no further field. *)
Lemma filteredData_frame (m : gmap string value) (searchQuery : string)
    (isaFilter trackFilter : option string) (r : value) :
  filteredData (VObj m) searchQuery isaFilter trackFilter = Ok r →
  ∃ m', r = VObj m'
        ∧ dom m' = {["phases"]} ∪ dom m
        ∧ ∀ k, k ≠ "phases" → m' !! k = m !! k.
Proof.
  intros (np & -> & _)%filteredData_Ok; [| done].
  eexists. split; [done |]. split.
  - cbn. by rewrite dom_insert_L.
  - intros k Hk. cbn. by rewrite lookup_insert_ne.
Qed.

End Filter.

(** ** Issue card: next pending approval *)

Lemma PHASE_ALIASES_enumerated :
  map_Forall (λ _ o, match o with Some phase => phase ∈ PHASE_ORDER ∧ phase ≠ ""
                               | None => True end) PHASE_ALIASES.
Proof.
  unfold PHASE_ALIASES. repeat apply map_Forall_insert_2; try apply map_Forall_empty;
    try done; split; try done; unfold PHASE_ORDER; set_solver.
Qed.

Section Card.
Context {host : Host}.

(** [phaseFromSummary] names no phase by the empty string. *)
Lemma phaseFromSummary_named (summary : value) (phase : string) :
  phaseFromSummary summary = Ok (PhName phase) → phase ≠ "".
Proof.
  unfold phaseFromSummary. destruct (toStr _) as [s |]; [| done].
  cbn [mbind result_bind]. destruct (bracket_label s) as [m |]; [| done].
  cbv zeta. destruct (PHASE_ALIASES !! _) as [[p |] |] eqn:Ha.
  - intros [= <-]. by apply PHASE_ALIASES_enumerated in Ha as [_ ?].
  - done.
  - destruct (PHASE_LOOKUP !! _) as [p |].
    + destruct (bool_decide_reflect (p = "")); [done | congruence].
    + by destruct (_ || _).
Qed.

(** The three callbacks of the card, in the words of the statements. *)
Lemma in_phase_names (issue st : value) (b : bool) :
  in_phase (js_or (prop issue "phase") (VStr "")) st = Ok b → b = names_phase issue st.
Proof.
  unfold in_phase, names_phase, get. destruct (nullish st); [done |].
  cbn [mbind result_bind].
  destruct (phaseFromSummary (prop st "summary")) as [r |] eqn:Hr; [| done].
  cbn [mbind result_bind]. intros [= <-]. unfold js_or.
  assert (Hp : ∀ p', r = PhName p' → bool_decide (p' = "") = false).
  { intros p' ->. apply phaseFromSummary_named in Hr. by apply bool_decide_eq_false_2. }
  destruct (prop issue "phase") as [| | [|] | [[|] | [|] | | [|] ? ?] | p | |];
    cbn [truthy];
    try match goal with
        | |- context [negb (bool_decide (?x = ""))] =>
            destruct (bool_decide_reflect (x = "")) as [-> | _]; cbn [negb]
        end;
    destruct r; cbn [phase_ref_is]; try done; by apply Hp.
Qed.

Lemma isApproval_type (st : value) (b : bool) :
  isApproval st = Ok b → b = approval_type st.
Proof.
  unfold isApproval, approval_type, get. destruct (nullish st); [done |].
  cbn [mbind result_bind].
  assert (Ht : match js_or (prop st "type") (VStr "") with
               | VStr ty => bool_decide (ty ∈ APPROVAL_TYPES)
               | _ => false
               end
               = match prop st "type" with
                 | VStr ty => bool_decide (ty ∈ APPROVAL_TYPES)
                 | _ => false
                 end).
  { unfold js_or.
    destruct (prop st "type") as [| | [|] | [[|] | [|] | | [|] ? ?] | ty | |];
      cbn [truthy]; try done.
    by destruct (bool_decide_reflect (ty = "")) as [-> | _]. }
  destruct (prop st "is_approval") as [| | [|] | | | |];
    cbn [mbind result_bind]; intros [= <-]; done.
Qed.

Lemma item_status_text (st : value) (s : string) :
  item_status st = Ok s → s = toLowerCase (status_text st).
Proof.
  unfold item_status, status_text, get. destruct (nullish st); [done |].
  cbn [mbind result_bind]. unfold js_or.
  destruct (prop st "status") as [| | [|] | n | x | |]; cbn [truthy call_toLowerCase];
    try (by intros [= <-]); try done.
  - by destruct n as [[|] | [|] | | [|] ? ?]; cbn; try (by intros [= <-]).
  - by destruct (bool_decide_reflect (x = "")) as [-> | _]; cbn; intros [= <-].
Qed.

Lemma pending_loop_Ok (doneSet : list string) (approvals : list value) (r : value) :
  pending_loop doneSet approvals = Ok r →
  (r = VNull ∧ Forall (done_under doneSet) approvals)
  ∨ (∃ pre post,
       approvals = pre ++ r :: post
       ∧ Forall (done_under doneSet) pre
       ∧ ¬ done_under doneSet r).
Proof.
  induction approvals as [| item approvals IH]; cbn.
  { intros [= <-]. by left. }
  destruct (item_status item) as [s |] eqn:Hs; [| done]. cbn.
  apply item_status_text in Hs.
  destruct (bool_decide_reflect (s = "done")) as [Hd | Hnd]; cbn.
  { intros [[-> Hall] | (pre & post & -> & Hpre & Hr)]%IH; [left | right].
    - split; [done |]. constructor; [| done]. left. congruence.
    - exists (item :: pre), post. split; [done |]. split; [| done].
      constructor; [| done]. left. congruence. }
  destruct (bool_decide_reflect (s ∈ doneSet)) as [Hin | Hnin]; cbn.
  { intros [[-> Hall] | (pre & post & -> & Hpre & Hr)]%IH; [left | right].
    - split; [done |]. constructor; [| done]. right. congruence.
    - exists (item :: pre), post. split; [done |]. split; [| done].
      constructor; [| done]. right. congruence. }
  intros [= <-]. right. exists [], approvals. split; [done |]. split; [done |].
  unfold done_under. rewrite <- Hs. tauto.
Qed.

Lemma filterR_spec {A} (f : A → result bool) (p : A → bool) (l ys : list A) :
  (∀ x b, f x = Ok b → b = p x) →
  filterR f l = Ok ys → ys = filter (λ x, p x = true) l.
Proof.
  intros Hf. revert ys. induction l as [| x l IH]; intros ys; cbn [filterR].
  { by intros [= <-]. }
  destruct (f x) as [b |] eqn:Hx; [| done]. cbn [mbind result_bind].
  destruct (filterR f l) as [ys' |]; [| done]. cbn [mbind result_bind]. intros [= <-].
  rewrite (IH ys' eq_refl), filter_cons. apply Hf in Hx as ->.
  destruct (p x); [by rewrite decide_True | by rewrite decide_False].
Qed.

(** C8 (amended). For every issue on which the card renders: the approval
    tasks are the subtasks of the issue, in list order, whose summary prefix
    names the issue's phase and which are of an approval type (their type is
    one of the approval types or they carry the approval flag); the next
    approval is the first of them whose lower-cased status is neither "done"
    nor in the approval-specific done set, and it is null when every one of
    them is done in that sense. *)
Theorem IssueCard_nextApproval (issue : value) (c : card) :
  IssueCard issue = Ok c →
  ∃ subs,
    js_or (prop issue "subtasks") (VArr []) = VArr subs
    ∧ approvalTasks c
      = filter (λ st, names_phase issue st = true ∧ approval_type st = true) subs
    ∧ ((nextApproval c = VNull
        ∧ Forall (done_under approvalDoneStatuses) (approvalTasks c))
       ∨ (∃ pre post,
            approvalTasks c = pre ++ nextApproval c :: post
            ∧ Forall (done_under approvalDoneStatuses) pre
            ∧ ¬ done_under approvalDoneStatuses (nextApproval c))).
Proof.
  unfold IssueCard, get.
  destruct (nullish issue); [done |]. cbn [mbind result_bind].
  bind_case subs Hsubs. apply as_array_Ok in Hsubs.
  bind_case pt Hpt. bind_case tasks Htasks. bind_case tc Htc.
  bind_case at_ Hat. bind_case ac Hac. bind_case na Hna.
  intros [= <-]. cbn [approvalTasks nextApproval].
  apply (filterR_spec _ (names_phase issue)) in Hpt; [| apply in_phase_names].
  apply (filterR_spec _ approval_type) in Hat; [| apply isApproval_type].
  exists subs. split; [done |]. split.
  - rewrite Hat, Hpt, list_filter_filter. apply list_filter_iff. tauto.
  - unfold firstPendingApproval in Hna. by apply pending_loop_Ok in Hna.
Qed.

End Card.

Lemma IssueCard_nextApproval_witness :
  match @IssueCard demo_host demo_uart with
  | Ok c =>
      @IssueCard demo_host demo_uart = Ok c
      ∧ ∃ subs,
          js_or (prop demo_uart "subtasks") (VArr []) = VArr subs
          ∧ approvalTasks c
            = filter (λ st, @names_phase demo_host demo_uart st = true
                            ∧ approval_type st = true) subs
          ∧ ((nextApproval c = VNull
              ∧ Forall (done_under approvalDoneStatuses) (approvalTasks c))
             ∨ (∃ pre post,
                  approvalTasks c = pre ++ nextApproval c :: post
                  ∧ Forall (done_under approvalDoneStatuses) pre
                  ∧ ¬ done_under approvalDoneStatuses (nextApproval c)))
  | Throw _ => False
  end.
Proof.
  apply when_Ok; [vm_compute; reflexivity |]. intros c Hc.
  split; [exact Hc |].
  exact (@IssueCard_nextApproval demo_host demo_uart c Hc).
Defined.

(** On the sample issue the ARC review is an approval task of the current
    phase whose status, "done", is not in the approval-specific done set;
    it comes first, yet the next approval is the BoD sign-off. *)
Lemma nextApproval_skips_done :
  toLowerCase (status_text demo_arc) = "done"
  ∧ ("done" ∉ approvalDoneStatuses)
  ∧ prop demo_arc "key" ≠ prop demo_bod "key"
  ∧ match @IssueCard demo_host demo_uart with
    | Ok c => approvalTasks c = [demo_arc; demo_bod] ∧ nextApproval c = demo_bod
    | Throw _ => False
    end.
Proof.
  split; [vm_compute; reflexivity |]. split; [by_compute |].
  split; [vm_compute; discriminate |].
  vm_compute. split; reflexivity.
Qed.

(** ** The filter on the sample document *)

Lemma demo_doc_phase_lists (phase : string) :
  phase ∈ PHASE_ORDER → ∃ issues, phase_issues demo_doc phase = VArr issues.
Proof.
  unfold PHASE_ORDER. intros Hphase.
  repeat (apply elem_of_cons in Hphase as [-> | Hphase];
          [eexists; vm_compute; reflexivity |]).
  by apply elem_of_nil in Hphase.
Qed.

Lemma filteredData_no_filter_witness :
  truthy demo_doc = true
  ∧ ∃ r, @filteredData demo_host demo_doc "" None None = Ok r
         ∧ ∀ phase issues,
             phase ∈ PHASE_ORDER →
             phase_issues demo_doc phase = VArr issues →
             prop (prop r "phases") phase = VArr issues.
Proof.
  split; [reflexivity |].
  exact (@filteredData_no_filter demo_host demo_doc eq_refl demo_doc_phase_lists).
Defined.

Lemma filteredData_isa_witness :
  match @filteredData demo_host demo_doc "" (Some "ISA") None with
  | Ok r =>
      prop (prop r "phases") "Development" = VArr [demo_uart; demo_docs]
      ∧ demo_uart ∈ [demo_uart; demo_docs]
      ∧ truthy (prop (prop demo_uart "isa_or_non_isa") "value") = true
      ∧ ∃ s, @toStr demo_host (prop (prop demo_uart "isa_or_non_isa") "value") = Ok s
             ∧ toUpperCase (trim s) = code_units "ISA"
  | Throw _ => False
  end.
Proof.
  apply when_Ok; [vm_compute; reflexivity |]. intros r Hr.
  assert (Hp : prop (prop r "phases") "Development" = VArr [demo_uart; demo_docs]).
  { rewrite (Ok_proj _ _ (λ r, prop (prop r "phases") "Development") VNull Hr).
    vm_compute. reflexivity. }
  split; [exact Hp |]. split; [by left |].
  exact (@filteredData_isa demo_host demo_doc "" None r "Development"
           [demo_uart; demo_docs] demo_uart Hr Hp (list_elem_of_here _ _)).
Defined.

(** The sample issue RVS-1 passes the "ISA" filter although its
    [isa_or_non_isa.value], upper-cased, is " ISA " with the surrounding
    blanks. *)
Lemma filteredData_isa_untrimmed :
  prop (prop demo_uart "isa_or_non_isa") "value" = VStr " isa "
  ∧ toUpperCase " isa " = code_units " ISA "
  ∧ toUpperCase " isa " ≠ code_units "ISA"
  ∧ match @filteredData demo_host demo_doc "" (Some "ISA") None with
    | Ok r => ∃ issues, prop (prop r "phases") "Development" = VArr issues
                        ∧ demo_uart ∈ issues
    | Throw _ => False
    end.
Proof.
  split; [vm_compute; reflexivity |]. split; [vm_compute; reflexivity |].
  split; [vm_compute; discriminate |].
  vm_compute. eexists. split; [reflexivity |]. left.
Qed.

(** Of the three sample issues of "Development", the query "uart" keeps
    the two that mention it in their summary, in their order. *)
Example filteredData_uart :
  match @filteredData demo_host demo_doc "uart" None None with
  | Ok r => prop (prop r "phases") "Development" = VArr [demo_uart; demo_docs]
  | Throw _ => False
  end.
Proof. vm_compute. reflexivity. Qed.

Lemma filteredData_idempotent_witness :
  match @filteredData demo_host demo_doc "uart" (Some "ISA") None with
  | Ok r =>
      @filteredData demo_host demo_doc "uart" (Some "ISA") None = Ok r
      ∧ @filteredData demo_host r "uart" (Some "ISA") None = Ok r
  | Throw _ => False
  end.
Proof.
  apply when_Ok; [vm_compute; reflexivity |]. intros r Hr.
  split; [exact Hr |].
  exact (@filteredData_idempotent demo_host demo_doc "uart" (Some "ISA") None r Hr).
Defined.

(** ** Binary64 rounding: bounds *)

Section Floats.
Local Open Scope Z_scope.

Lemma digits2_pos_size (p : positive) : digits2_pos p = Pos.size p.
Proof. induction p; simpl; congruence. Qed.

Lemma Zdigits2_log2 (m : Z) : 0 < m -> Zdigits2 m = Z.log2 m + 1.
Proof.
  destruct m as [| p | p]; try lia. intros _. simpl.
  rewrite digits2_pos_size. destruct p; simpl; lia.
Qed.

Lemma Zdigits2_nonneg (m : Z) : 0 <= m -> 0 <= Zdigits2 m.
Proof. destruct m; simpl; lia. Qed.

Lemma Zdigits2_le (m K j : Z) :
  0 <= m -> 0 < K -> 0 <= j -> m <= K * 2 ^ j -> Zdigits2 m <= Zdigits2 K + j.
Proof.
  intros Hm HK Hj Hle.
  destruct (Z.eq_dec m 0) as [-> | Hne].
  { simpl. pose proof (Zdigits2_nonneg K). lia. }
  rewrite !Zdigits2_log2 by lia.
  assert (Z.log2 m <= Z.log2 (K * 2 ^ j)) by (apply Z.log2_le_mono; lia).
  rewrite Z.log2_mul_pow2 in H by lia. lia.
Qed.

Lemma Zdigits2_lt_pow (m : Z) : 0 <= m -> m < 2 ^ Zdigits2 m.
Proof.
  intros Hm. destruct (Z.eq_dec m 0) as [-> | Hne]; [simpl; lia |].
  rewrite Zdigits2_log2 by lia.
  apply Z.log2_spec. lia.
Qed.

Lemma Zdigits2_ge_pow (m : Z) : 0 < m -> 2 ^ (Zdigits2 m - 1) <= m.
Proof.
  intros Hm. rewrite Zdigits2_log2 by lia.
  replace (Z.log2 m + 1 - 1) with (Z.log2 m) by lia.
  apply Z.log2_spec. lia.
Qed.


Lemma loc_is_exact (mrs : shr_record) :
  loc_of_shr_record mrs = loc_Exact <-> is_exact mrs = true.
Proof. destruct mrs as [m [|] [|]]; unfold is_exact; simpl; split; congruence. Qed.

Lemma shr_1_spec (mrs : shr_record) :
  0 <= shr_m mrs ->
  shr_m (shr_1 mrs) = shr_m mrs / 2
  /\ (is_exact (shr_1 mrs) = true <-> is_exact mrs = true /\ shr_m mrs mod 2 = 0).
Proof.
  destruct mrs as [m r s]. unfold is_exact. simpl shr_m at 1 3. intros Hm.
  destruct m as [| [p | p |] |]; try lia; simpl shr_1; cbn [shr_m shr_r shr_s].
  - split; [reflexivity |]. destruct r, s; simpl; intuition congruence.
  - split.
    + rewrite Pos2Z.inj_xI. apply Z.div_unique with 1; lia.
    + rewrite Pos2Z.inj_xI.
      replace ((2 * Z.pos p + 1) mod 2) with 1
        by (apply Z.mod_unique with (Z.pos p); lia).
      simpl. intuition congruence.
  - split.
    + rewrite Pos2Z.inj_xO. apply Z.div_unique with 0; lia.
    + rewrite Pos2Z.inj_xO.
      replace ((2 * Z.pos p) mod 2) with 0
        by (apply Z.mod_unique with (Z.pos p); lia).
      destruct r, s; simpl; intuition congruence.
  - split; [reflexivity |]. simpl. split; [discriminate |].
    intros [_ H]. vm_compute in H. discriminate H.
Qed.

Lemma mod_mul_zero (m a b : Z) :
  0 <= m -> 0 < a -> 0 < b ->
  (m mod (a * b) = 0 <-> m mod a = 0 /\ (m / a) mod b = 0).
Proof.
  intros Hm Ha Hb. rewrite Z.rem_mul_r by lia.
  pose proof (Z.mod_pos_bound m a Ha). pose proof (Z.mod_pos_bound (m / a) b Hb).
  split; [nia | intros [-> ->]; lia].
Qed.

Lemma iter_pos_shr_1 (p : positive) (mrs : shr_record) :
  0 <= shr_m mrs ->
  shr_m (SpecFloat.iter_pos shr_1 p mrs) = shr_m mrs / 2 ^ Zpos p
  /\ (is_exact (SpecFloat.iter_pos shr_1 p mrs) = true
      <-> is_exact mrs = true /\ shr_m mrs mod 2 ^ Zpos p = 0).
Proof.
  revert mrs. induction p as [p IH | p IH |]; intros mrs Hm.
  - simpl SpecFloat.iter_pos.
    destruct (shr_1_spec mrs Hm) as [H1 E1].
    assert (Hm1 : 0 <= shr_m (shr_1 mrs)) by (rewrite H1; apply Z.div_pos; lia).
    destruct (IH _ Hm1) as [H2 E2].
    assert (Hm2 : 0 <= shr_m (SpecFloat.iter_pos shr_1 p (shr_1 mrs)))
      by (rewrite H2; apply Z.div_pos; lia).
    destruct (IH _ Hm2) as [H3 E3].
    assert (Hp : 0 < 2 ^ Z.pos p) by lia.
    replace (2 ^ Z.pos p~1) with (2 * (2 ^ Z.pos p * 2 ^ Z.pos p))
      by (replace (Z.pos p~1) with (Z.pos p + Z.pos p + 1) by lia;
          rewrite !Z.pow_add_r by lia; change (2 ^ 1) with 2; ring).
    split.
    + rewrite H3, H2, H1, !Z.div_div by lia. reflexivity.
    + rewrite E3, E2, E1, H2, H1.
      rewrite (mod_mul_zero (shr_m mrs) 2) by lia.
      rewrite (mod_mul_zero (shr_m mrs / 2)) by (try apply Z.div_pos; lia).
      tauto.
  - simpl SpecFloat.iter_pos.
    destruct (IH _ Hm) as [H2 E2].
    assert (Hm2 : 0 <= shr_m (SpecFloat.iter_pos shr_1 p mrs))
      by (rewrite H2; apply Z.div_pos; lia).
    destruct (IH _ Hm2) as [H3 E3].
    assert (Hp : 0 < 2 ^ Z.pos p) by lia.
    replace (2 ^ Z.pos p~0) with (2 ^ Z.pos p * 2 ^ Z.pos p)
      by (replace (Z.pos p~0) with (Z.pos p + Z.pos p) by lia;
          rewrite Z.pow_add_r by lia; ring).
    split.
    + rewrite H3, H2, !Z.div_div by lia. reflexivity.
    + rewrite E3, E2, H2. rewrite (mod_mul_zero (shr_m mrs)) by lia. tauto.
  - simpl SpecFloat.iter_pos. change (2 ^ 1) with 2. apply shr_1_spec, Hm.
Qed.

Lemma fexp_eq (e : Z) : fexp prec emax e = Z.max (e - 53) (-1074).
Proof. reflexivity. Qed.

Lemma shr_spec (mrs : shr_record) (e n : Z) :
  0 <= shr_m mrs ->
  snd (shr mrs e n) = e + Z.max 0 n
  /\ shr_m (fst (shr mrs e n)) = shr_m mrs / 2 ^ Z.max 0 n
  /\ (is_exact (fst (shr mrs e n)) = true
      <-> is_exact mrs = true /\ shr_m mrs mod 2 ^ Z.max 0 n = 0).
Proof.
  intros Hm. destruct n as [| p | p]; cbn [shr fst snd].
  - change (Z.max 0 0) with 0. rewrite Z.add_0_r, Z.div_1_r, Z.mod_1_r. tauto.
  - change (Z.max 0 (Z.pos p)) with (Z.pos p).
    split; [reflexivity |]. apply iter_pos_shr_1, Hm.
  - change (Z.max 0 (Z.neg p)) with 0. rewrite Z.add_0_r, Z.div_1_r, Z.mod_1_r. tauto.
Qed.

Lemma shr_record_of_loc_spec (m : Z) (l : location) :
  shr_m (shr_record_of_loc m l) = m
  /\ (is_exact (shr_record_of_loc m l) = true <-> l = loc_Exact).
Proof. destruct l as [| [| |]]; unfold is_exact; simpl; split; try reflexivity; split; congruence. Qed.

Lemma round_nearest_even_bounds (m : Z) (l : location) :
  m <= round_nearest_even m l <= m + 1
  /\ (l = loc_Exact -> round_nearest_even m l = m).
Proof.
  destruct l as [| [| |]]; simpl; try destruct (Z.even m); split; try lia;
    try reflexivity; discriminate.
Qed.

Lemma digits_small (K : Z) : 0 < K < 2 ^ 53 -> Zdigits2 K <= 53.
Proof.
  intros [HK Hlt]. pose proof (Zdigits2_ge_pow K HK) as Hge.
  destruct (Z_le_gt_dec (Zdigits2 K) 53) as [| Hgt]; [assumption |].
  assert (2 ^ 53 <= 2 ^ (Zdigits2 K - 1)) by (apply Z.pow_le_mono_r; lia). lia.
Qed.

(** After the shift of [shr_fexp]: the exponent stays at most [k] and the
    shifted mantissa, with its location, still denotes at most the bound. *)
Lemma shr_fexp_below (K k m e : Z) (l : location) :
  0 <= m -> 0 < K < 2 ^ 53 -> -1074 <= k ->
  below K k m e l ->
  let m' := shr_m (fst (shr_fexp prec emax m e l)) in
  let e' := snd (shr_fexp prec emax m e l) in
  let l' := loc_of_shr_record (fst (shr_fexp prec emax m e l)) in
  0 <= m' /\ below K k m' e' l'.
Proof.
  intros Hm HK Hk [He Hb]. unfold shr_fexp.
  set (n := fexp prec emax (Zdigits2 m + e) - e).
  destruct (shr_record_of_loc_spec m l) as [Hm0 Hl0].
  destruct (shr_spec (shr_record_of_loc m l) e n) as (He' & Hm' & Hx'); [lia |].
  rewrite Hm0 in Hm', Hx'. cbv zeta. rewrite He', Hm'.
  assert (Hpow : 0 < 2 ^ Z.max 0 n) by (apply Z.pow_pos_nonneg; lia).
  assert (Hdig : Zdigits2 m <= 53 + (k - e)).
  { pose proof (digits_small K HK).
    assert (Zdigits2 m <= Zdigits2 K + (k - e)); [| lia].
    apply Zdigits2_le; lia. }
  assert (Hn : e + Z.max 0 n <= k).
  { unfold n. rewrite fexp_eq. lia. }
  assert (Hsplit : K * 2 ^ (k - e) = K * 2 ^ (k - (e + Z.max 0 n)) * 2 ^ Z.max 0 n).
  { rewrite <- Z.mul_assoc, <- Z.pow_add_r by lia. do 2 f_equal. lia. }
  split; [apply Z.div_pos; lia |]. split; [exact Hn |].
  destruct Hb as [Hlt | [Heq Hex]].
  - left. apply Z.div_lt_upper_bound; [lia |]. rewrite Hsplit in Hlt. lia.
  - right. rewrite Hsplit in Heq. split.
    + rewrite Heq. apply Z.div_mul. lia.
    + apply loc_is_exact, Hx'. split; [now apply Hl0 |].
      rewrite Heq. apply Z.mod_mul. lia.
Qed.

(** Rounding to nearest never crosses a bound that is itself
    representable at the exponent reached. *)
Lemma binary_round_aux_le (K k mx ex : Z) (lx : location) :
  0 <= mx -> 0 < K < 2 ^ 53 -> -1074 <= k <= 971 ->
  below K k mx ex lx ->
  at_most K k (binary_round_aux prec emax false mx ex lx).
Proof.
  intros Hmx HK Hk Hb. unfold binary_round_aux.
  destruct (shr_fexp_below K k mx ex lx Hmx HK (proj1 Hk) Hb) as [Hm1 [He1 Hb1]].
  destruct (shr_fexp prec emax mx ex lx) as [mrs1 e1]. cbn [fst snd] in *.
  destruct (round_nearest_even_bounds (shr_m mrs1) (loc_of_shr_record mrs1))
    as [Hr Hrx].
  set (m2 := round_nearest_even (shr_m mrs1) (loc_of_shr_record mrs1)) in *.
  assert (Hb2 : below K k m2 e1 loc_Exact).
  { split; [exact He1 |]. destruct Hb1 as [Hlt | [Heq Hex]].
    - destruct (Z.eq_dec m2 (K * 2 ^ (k - e1))); [right; split; trivial | left; lia].
    - right. split; [| reflexivity]. rewrite (Hrx Hex). exact Heq. }
  destruct (shr_fexp_below K k m2 e1 loc_Exact ltac:(lia) HK (proj1 Hk) Hb2)
    as [Hm3 [He3 Hb3]].
  destruct (shr_fexp prec emax m2 e1 loc_Exact) as [mrs3 e3]. cbn [fst snd] in *.
  destruct (shr_m mrs3) as [| m | m]; cbn [at_most].
  - exact I.
  - replace (e3 <=? emax - prec) with true
      by (symmetry; apply Z.leb_le; unfold emax, prec; lia).
    cbn [at_most]. split; [exact He3 | lia].
  - lia.
Qed.

(** ** Conversion of small integers is exact *)

Lemma iter_xO_digits (p j : positive) :
  digits2_pos (Pos.iter xO p j) = (digits2_pos p + j)%positive.
Proof.
  induction j as [| j IH] using Pos.peano_ind.
  - simpl. lia.
  - rewrite Pos.iter_succ. simpl. rewrite IH. lia.
Qed.

Lemma iter_xO_value (p j : positive) :
  Zpos (Pos.iter xO p j) = Zpos p * 2 ^ Zpos j.
Proof.
  induction j as [| j IH] using Pos.peano_ind.
  - simpl. lia.
  - rewrite Pos.iter_succ, Pos2Z.inj_xO, IH, Pos2Z.inj_succ, Z.pow_succ_r by lia. ring.
Qed.

Lemma binary_round_aux_canonical (s : bool) (m : positive) (e : Z) :
  Zdigits2 (Zpos m) = 53 -> -1074 <= e <= 971 ->
  binary_round_aux prec emax s (Zpos m) e loc_Exact = S754_finite s m e.
Proof.
  intros Hd He. unfold binary_round_aux, shr_fexp.
  rewrite Hd, fexp_eq.
  replace (Z.max (53 + e - 53) (-1074) - e) with 0 by lia.
  cbn [shr shr_record_of_loc loc_of_shr_record round_nearest_even shr_m].
  rewrite Hd, fexp_eq.
  replace (Z.max (53 + e - 53) (-1074) - e) with 0 by lia.
  cbn [shr shr_record_of_loc shr_m].
  replace (e <=? emax - prec) with true
    by (symmetry; apply Z.leb_le; unfold emax, prec; lia).
  reflexivity.
Qed.

Lemma Z2SF_exact (z : Z) :
  0 < z < 2 ^ 53 ->
  exists m e, Z2SF z = S754_finite false m e
              /\ -52 <= e <= 0
              /\ Zpos m = z * 2 ^ (- e)
              /\ Zdigits2 (Zpos m) = 53.
Proof.
  intros [Hz Hlt]. destruct z as [| p | p]; try lia.
  unfold Z2SF, binary_normalize, binary_round.
  assert (Hd : 1 <= Zpos (digits2_pos p) <= 53).
  { split; [lia |]. change (Zpos (digits2_pos p)) with (Zdigits2 (Zpos p)).
    apply digits_small. lia. }
  rewrite Z.add_0_r, fexp_eq. unfold shl_align.
  replace (Z.max (Z.pos (digits2_pos p) - 53) (-1074) - 0)
    with (Z.pos (digits2_pos p) - 53) by lia.
  replace (Z.max (Z.pos (digits2_pos p) - 53) (-1074))
    with (Z.pos (digits2_pos p) - 53) by lia.
  destruct (Z.pos (digits2_pos p) - 53) as [| j | j] eqn:Hj; try lia.
  - rewrite binary_round_aux_canonical by (simpl Zdigits2; lia).
    exists p, 0. repeat split; try lia. simpl Zdigits2. lia.
  - assert (Hdj : Zdigits2 (Zpos (Pos.iter xO p j)) = 53).
    { simpl Zdigits2. rewrite iter_xO_digits. lia. }
    rewrite binary_round_aux_canonical by (trivial; lia).
    exists (Pos.iter xO p j), (Z.neg j). repeat split; try lia.
    rewrite iter_xO_value. reflexivity.
Qed.
Lemma new_location_zero (n : Z) : new_location n 0 = loc_Exact.
Proof. unfold new_location. destruct (Z.even n); reflexivity. Qed.

(** The quotient of two converted integers [d <= t] is at most one. *)
Lemma js_div_le_one (ma mb : positive) (ea eb d t : Z) :
  0 < d <= t -> -52 <= ea <= 0 -> -52 <= eb <= 0 ->
  Zpos ma = d * 2 ^ (- ea) -> Zpos mb = t * 2 ^ (- eb) ->
  Zdigits2 (Zpos ma) = 53 -> Zdigits2 (Zpos mb) = 53 ->
  at_most 1 0 (js_div (S754_finite false ma ea) (S754_finite false mb eb)).
Proof.
  intros Hdt Hea Heb Hma Hmb Hda Hdb.
  unfold js_div, SFdiv, SFdiv_core_binary. rewrite Hda, Hdb, fexp_eq.
  replace (Z.min (Z.max (53 + ea - (53 + eb) - 53) (-1074)) (ea - eb))
    with (ea - eb - 53) by lia.
  replace (ea - eb - (ea - eb - 53)) with 53 by lia.
  rewrite Z.shiftl_mul_pow2 by lia.
  pose proof (Z_div_mod (Zpos ma * 2 ^ 53) (Zpos mb) ltac:(lia)) as Hdm.
  destruct (Z.div_eucl (Zpos ma * 2 ^ 53) (Zpos mb)) as [q r].
  destruct Hdm as [Hq Hr]. cbn [xorb].
  assert (HB : Zpos mb * 2 ^ (0 - (ea - eb - 53)) = t * 2 ^ (53 - ea)).
  { rewrite Hmb, <- Z.mul_assoc, <- Z.pow_add_r by lia. do 2 f_equal. lia. }
  assert (HA : Zpos ma * 2 ^ 53 = d * 2 ^ (53 - ea)).
  { rewrite Hma, <- Z.mul_assoc, <- Z.pow_add_r by lia. do 2 f_equal. lia. }
  assert (HP : 0 < 2 ^ (53 - ea)) by (apply Z.pow_pos_nonneg; lia).
  assert (Hle : Zpos mb * q + r <= Zpos mb * 2 ^ (0 - (ea - eb - 53))).
  { rewrite <- Hq, HA, HB. apply Z.mul_le_mono_nonneg_r; lia. }
  assert (Hq0 : 0 <= q) by nia.
  apply binary_round_aux_le; try lia.
  split; [lia |]. rewrite Z.mul_1_l.
  destruct (Z.eq_dec q (2 ^ (0 - (ea - eb - 53)))) as [Heq | Hne].
  - right. split; [exact Heq |].
    assert (r = 0) as -> by nia. apply new_location_zero.
  - left. nia.
Qed.

Lemma Z2SF_100 : Z2SF 100 = S754_finite false 7036874417766400 (-46).
Proof. reflexivity. Qed.

(** Multiplying a value of at most one by 100 gives at most 100. *)
Lemma js_mul_100_le (x : spec_float) :
  at_most 1 0 x -> at_most 100 0 (js_mul x (Z2SF 100)).
Proof.
  rewrite Z2SF_100. destruct x as [[|] | | | [|] m e]; cbn [at_most]; try tauto.
  intros [He Hm]. unfold js_mul, SFmul. cbn [xorb].
  apply binary_round_aux_le; try lia.
  split; [lia |].
  assert (Hle : Zpos (m * 7036874417766400) <= 100 * 2 ^ (0 - (e + -46))).
  { rewrite Pos2Z.inj_mul. change (Zpos 7036874417766400) with (100 * 2 ^ 46).
    replace (0 - (e + -46)) with (0 - e + 46) by lia.
    rewrite Z.pow_add_r by lia. rewrite Z.mul_1_l in Hm.
    assert (0 < 2 ^ 46) by lia. nia. }
  destruct (Z.eq_dec (Zpos (m * 7036874417766400)) (100 * 2 ^ (0 - (e + -46))));
    [right; split; trivial | left; lia].
Qed.

(** Rounding a value between 0 and 100 gives an integer between 0 and 100. *)
Lemma Math_round_le (x : spec_float) :
  at_most 100 0 x -> exists p, Math_round x = Z2SF p /\ 0 <= p <= 100.
Proof.
  destruct x as [[|] | | | [|] m e]; cbn [at_most]; try tauto.
  { intros _. exists 0. split; [reflexivity | lia]. }
  intros [He Hm]. unfold Math_round. cbn [cond_Zopp].
  set (n := match e with
            | Z.neg k => (2 * Z.pos m + 2 ^ Z.pos k) / 2 ^ (Z.pos k + 1)
            | _ => Z.pos m * 2 ^ e
            end).
  assert (Hn : 0 <= n <= 100).
  { unfold n. destruct e as [| k | k]; try lia.
    change (0 - Z.neg k) with (Z.pos k) in Hm.
    assert (0 < 2 ^ Z.pos k) by (apply Z.pow_pos_nonneg; lia).
    rewrite Z.pow_add_r by lia. change (2 ^ 1) with 2.
    split.
    - apply Z.div_pos; lia.
    - assert ((2 * Z.pos m + 2 ^ Z.pos k) / (2 ^ Z.pos k * 2) < 101); [| lia].
      apply Z.div_lt_upper_bound; lia. }
  exists n. split; [| exact Hn].
  destruct (Z.eqb_spec n 0) as [-> | _]; reflexivity.
Qed.

(** The percentage computed by [countByStatus]. *)
Lemma pct_bounds (d t : Z) :
  0 <= d <= t -> 0 < t < 2 ^ 53 ->
  exists p, Math_round (js_mul (js_div (Z2SF d) (Z2SF t)) (Z2SF 100)) = Z2SF p
            /\ 0 <= p <= 100.
Proof.
  intros Hd Ht. apply Math_round_le, js_mul_100_le.
  destruct (Z2SF_exact t Ht) as (mb & eb & -> & Heb & Hmb & Hdb).
  destruct (Z.eq_dec d 0) as [-> | Hne]; [exact I |].
  destruct (Z2SF_exact d ltac:(lia)) as (ma & ea & -> & Hea & Hma & Hda).
  apply (js_div_le_one ma mb ea eb d t); trivial; lia.
Qed.

End Floats.

(** ** Status counts *)

Section Counts.
Local Open Scope Z_scope.

Lemma count_loop_bounds (doneSet notStartedSet : list string) (items : list value)
    (d0 n0 d n : Z) :
  count_loop doneSet notStartedSet items (d0, n0) = Ok (d, n) →
  d0 ≤ d ∧ n0 ≤ n ∧ d + n ≤ d0 + n0 + Z.of_nat (length items).
Proof.
  revert d0 n0. induction items as [| item items IH]; intros d0 n0.
  { cbn. intros [= <- <-]. lia. }
  cbn [count_loop]. bind_case status Hs.
  destruct (_ || _).
  - intros H%IH. cbn [length]. lia.
  - destruct (_ || _); intros H%IH; cbn [length]; lia.
Qed.

(** Whatever [countByStatus] returns on an array is consistent: the
    buckets are non-negative and add up to the length, and the percentage
    is an integer between 0 and 100. *)
Lemma countByStatus_Ok (items : list value) (opts : value) (c : counts) :
  Z.of_nat (length items) < 2 ^ 32 →
  countByStatus items opts = Ok c →
  total c = Z.of_nat (length items)
  ∧ 0 ≤ done c ∧ 0 ≤ notStarted c ∧ 0 ≤ inProgress c
  ∧ done c + notStarted c + inProgress c = total c
  ∧ ∃ p, pct c = Z2SF p ∧ 0 ≤ p ≤ 100 ∧ (items = [] → p = 0).
Proof.
  intros Hlen. unfold countByStatus.
  bind_case doneSet Hd. bind_case notStartedSet Hn. bind_case acc Hacc.
  destruct acc as [d n]. intros [= <-]. cbn [total done notStarted inProgress pct].
  apply count_loop_bounds in Hacc as (Hd0 & Hn0 & Hsum).
  split; [done |]. split; [lia |]. split; [lia |]. split; [lia |]. split; [lia |].
  destruct (bool_decide_reflect (Z.of_nat (length items) = 0)) as [H0 | H0].
  - exists 0. split; [done |]. split; [lia | done].
  - destruct (pct_bounds d (Z.of_nat (length items))) as (p & Hp & Hb); [lia | lia |].
    exists p. split; [done |]. split; [done |]. intros ->. done.
Qed.

Lemma item_status_ok (item : value) : item_ok item → ∃ s, item_status item = Ok s.
Proof.
  intros [Hn Hs]. unfold item_status, get. rewrite Hn. cbn [mbind result_bind].
  unfold js_or. destruct Hs as [-> | [s Hs]]; [by eexists |].
  rewrite Hs. destruct (truthy (VStr s)); by eexists.
Qed.

Lemma count_loop_total (doneSet notStartedSet : list string) (items : list value)
    (acc : Z * Z) :
  Forall item_ok items → ∃ r, count_loop doneSet notStartedSet items acc = Ok r.
Proof.
  intros Hall. revert acc. induction Hall as [| item items Hitem _ IH]; intros [d n].
  { by eexists. }
  destruct (item_status_ok item Hitem) as [s Hs].
  cbn [count_loop]. rewrite Hs. cbn [mbind result_bind].
  destruct (_ || _); [apply IH |]. destruct (_ || _); apply IH.
Qed.

Lemma mapR_toLowerCase (l : list string) :
  mapR call_toLowerCase (VStr <$> l) = Ok (toLowerCase <$> l).
Proof. induction l as [| x l IH]; [done |]. cbn. by rewrite IH. Qed.

Lemma lowered_set_ok (v : value) : strings_or_absent v → ∃ l, lowered_set v = Ok l.
Proof.
  unfold lowered_set, js_or. intros [-> | [l ->]]; [by eexists |].
  cbn. rewrite mapR_toLowerCase. by eexists.
Qed.

(** C9. On every array of fewer than 2^32 subtasks whose statuses are
    strings or absent, and every options value whose two lists are arrays
    of strings or absent, [countByStatus] returns counts with [total] the
    length of the list, non-negative [done], [notStarted] and [inProgress]
    that add up to [total], and a [pct] that is an integer between 0 and
    100, equal to 0 when the list is empty. *)
Theorem countByStatus_counts (items : list value) (opts : value) :
  Z.of_nat (length items) < 2 ^ 32 →
  Forall item_ok items →
  opts_ok opts →
  ∃ c, countByStatus items opts = Ok c
       ∧ total c = Z.of_nat (length items)
       ∧ 0 ≤ done c ∧ 0 ≤ notStarted c ∧ 0 ≤ inProgress c
       ∧ done c + notStarted c + inProgress c = total c
       ∧ ∃ p, pct c = Z2SF p ∧ 0 ≤ p ≤ 100 ∧ (items = [] → p = 0).
Proof.
  intros Hlen Hitems [Hd Hn].
  assert (∃ c, countByStatus items opts = Ok c) as [c Hc].
  { unfold countByStatus.
    destruct (lowered_set_ok _ Hd) as [ds ->]. cbn [mbind result_bind].
    destruct (lowered_set_ok _ Hn) as [ns ->]. cbn [mbind result_bind].
    destruct (count_loop_total ds ns items (0, 0) Hitems) as [[d n] ->].
    by eexists. }
  exists c. split; [done |]. exact (countByStatus_Ok items opts c Hlen Hc).
Qed.

End Counts.

Lemma countByStatus_counts_witness :
  (Z.of_nat (length [demo_arc; demo_bod; demo_task]) < 2 ^ 32)%Z
  ∧ ∃ c, countByStatus [demo_arc; demo_bod; demo_task] VUndefined = Ok c
         ∧ total c = Z.of_nat (length [demo_arc; demo_bod; demo_task])
         ∧ (0 ≤ done c)%Z ∧ (0 ≤ notStarted c)%Z ∧ (0 ≤ inProgress c)%Z
         ∧ (done c + notStarted c + inProgress c)%Z = total c
         ∧ ∃ p, pct c = Z2SF p ∧ (0 ≤ p ≤ 100)%Z
                ∧ ([demo_arc; demo_bod; demo_task] = [] → p = 0%Z).
Proof.
  split; [reflexivity |].
  apply (countByStatus_counts [demo_arc; demo_bod; demo_task] VUndefined).
  - reflexivity.
  - repeat (constructor;
            [split; [reflexivity | right; eexists; vm_compute; reflexivity] |]).
    constructor.
  - split; by left.
Defined.

(** The percentage is computed in binary64: 23 of 40 is 57.49999999999999
    and rounds to 57, not to the 58 of exact arithmetic. *)
Example pct_23_of_40 :
  Math_round (js_mul (js_div (Z2SF 23) (Z2SF 40)) (Z2SF 100)) = Z2SF 57.
Proof. vm_compute. reflexivity. Qed.

(** ** Filter engine over the store: what is written *)

Section StoreFrame.
Context {host : Host}.
Implicit Types (σ : gmap loc cell) (keep : gmap loc cell → ref_value → result bool).

Lemma alloc_spec σ c σ' l :
  alloc σ c = (σ', l) → σ !! l = None ∧ σ' = <[l := c]> σ.
Proof.
  unfold alloc. intros [= <- <-]. split; [| done].
  apply not_elem_of_dom, is_fresh.
Qed.

(** Allocation leaves every cell of an earlier store as it is, and the new
    location is none of them. *)
Lemma alloc_keeps σ0 σ c σ' l :
  σ0 ⊆ σ → alloc σ c = (σ', l) → σ0 ⊆ σ' ∧ σ0 !! l = None ∧ σ' !! l = Some c.
Proof.
  intros Hsub [Hl ->]%alloc_spec.
  assert (σ0 !! l = None) by (by eapply lookup_weaken_None).
  split; [by apply insert_subseteq_r |]. split; [done |]. apply lookup_insert_eq.
Qed.

(** A write to a cell that an earlier store does not have leaves every
    cell of that store as it is. *)
Lemma set_field_keeps σ0 σ l k v :
  σ0 ⊆ σ → σ0 !! l = None → σ0 ⊆ set_field σ l k v.
Proof.
  intros Hsub Hl. unfold set_field.
  destruct (σ !! l) as [[m | xs] |]; try done. by apply insert_subseteq_r.
Qed.

Lemma assign_keeps σ0 σ target source :
  σ0 ⊆ σ → σ0 !! target = None → σ0 ⊆ assign σ target source.
Proof.
  intros Hsub Hl. unfold assign.
  destruct (σ !! target) as [[m | xs] |]; try done. by apply insert_subseteq_r.
Qed.

Lemma r_phases_loop_keeps keep σ0 σ phases lnp order σ' :
  σ0 ⊆ σ → σ0 !! lnp = None →
  r_phases_loop keep σ phases lnp order = Ok σ' →
  σ0 ⊆ σ'.
Proof.
  revert σ. induction order as [| phase order IH]; intros σ Hsub Hlnp.
  { cbn. by intros [= <-]. }
  cbn [r_phases_loop].
  destruct (if r_truthy (r_prop σ phases phase) then _ else _) as [σ1 allIssues] eqn:H1.
  assert (Hsub1 : σ0 ⊆ σ1).
  { destruct (r_truthy _); [by injection H1 as <- <- |].
    destruct (alloc σ (CArray [])) as [σa la] eqn:Ha. injection H1 as <- <-.
    by destruct (alloc_keeps _ _ _ _ _ Hsub Ha). }
  bind_case issues Hissues. bind_case kept Hkept.
  destruct (alloc σ1 (CArray kept)) as [σ2 lk] eqn:H2.
  destruct (alloc_keeps _ _ _ _ _ Hsub1 H2) as (Hsub2 & _ & _).
  apply IH; [| done]. by apply set_field_keeps.
Qed.

(** Whatever the data and the read-only callback, a call that returns has
    written no cell of the store it was given. *)
Lemma r_filter_with_keeps keep σ (data : ref_value) σ' r :
  r_filter_with keep σ data = Ok (σ', r) → σ ⊆ σ'.
Proof.
  unfold r_filter_with. destruct (negb (r_truthy data)); [by intros [= <- _] |].
  destruct (if r_truthy (r_prop σ data "phases") then _ else _) as [σ1 phases] eqn:H1.
  assert (Hsub1 : σ ⊆ σ1).
  { destruct (r_truthy _); [by injection H1 as <- <- |].
    destruct (alloc σ (CObject ∅)) as [σa la] eqn:Ha. injection H1 as <- <-.
    by destruct (alloc_keeps σ _ _ _ _ (reflexivity σ) Ha). }
  destruct (alloc σ1 (CObject ∅)) as [σ2 lnp] eqn:H2.
  destruct (alloc_keeps _ _ _ _ _ Hsub1 H2) as (Hsub2 & Hlnp & _).
  bind_case σ3 Hloop.
  pose proof (r_phases_loop_keeps _ _ _ _ _ _ _ Hsub2 Hlnp Hloop) as Hsub3.
  destruct (alloc σ3 (CObject ∅)) as [σ4 target] eqn:H4.
  destruct (alloc_keeps _ _ _ _ _ Hsub3 H4) as (Hsub4 & Htarget & _).
  destruct (alloc σ4 _) as [σ5 source] eqn:H5.
  destruct (alloc_keeps _ _ _ _ _ Hsub4 H5) as (Hsub5 & _ & _).
  intros [= <- _]. apply assign_keeps; [| done]. by apply assign_keeps.
Qed.

(** What [filter_with] returns on a snapshot object, whatever the
    read-only callback: the store only grows by fresh cells, and the result
    is a fresh object holding the snapshot's own properties with [phases]
    replaced by a fresh object. *)
Lemma r_filter_with_frame keep σ ld (m : gmap string ref_value) σ' r :
  σ !! ld = Some (CObject m) →
  r_filter_with keep σ (RRef ld) = Ok (σ', r) →
  σ ⊆ σ'
  ∧ ∃ lr lnp,
      r = RRef lr ∧ σ !! lr = None ∧ σ !! lnp = None
      ∧ σ' !! lr = Some (CObject (<["phases" := RRef lnp]> m)).
Proof.
  intros Hld. unfold r_filter_with. cbn [r_truthy negb].
  destruct (if r_truthy (r_prop σ (RRef ld) "phases") then _ else _)
    as [σ1 phases] eqn:H1.
  assert (Hsub1 : σ ⊆ σ1).
  { destruct (r_truthy _); [by injection H1 as <- <- |].
    destruct (alloc σ (CObject ∅)) as [σa la] eqn:Ha. injection H1 as <- <-.
    by destruct (alloc_keeps σ _ _ _ _ (reflexivity σ) Ha). }
  destruct (alloc σ1 (CObject ∅)) as [σ2 lnp] eqn:H2.
  destruct (alloc_keeps _ _ _ _ _ Hsub1 H2) as (Hsub2 & Hlnp & _).
  bind_case σ3 Hloop.
  pose proof (r_phases_loop_keeps _ _ _ _ _ _ _ Hsub2 Hlnp Hloop) as Hsub3.
  destruct (alloc σ3 (CObject ∅)) as [σ4 target] eqn:H4.
  destruct (alloc_keeps _ _ _ _ _ Hsub3 H4) as (Hsub4 & Htarget & Ht4).
  destruct (alloc σ4 _) as [σ5 source] eqn:H5.
  destruct (alloc_keeps _ _ _ _ _ Hsub4 H5) as (Hsub5 & Hsource & Hs5).
  intros [= <- <-].
  assert (Hne : target ≠ source).
  { intros ->. apply alloc_spec in H5 as [Hnone _]. congruence. }
  assert (Ht5 : σ5 !! target = Some (CObject ∅)).
  { apply alloc_spec in H5 as [_ ->]. by rewrite lookup_insert_ne. }
  assert (Hld5 : σ5 !! ld = Some (CObject m)) by (by eapply lookup_weaken).
  split.
  { apply assign_keeps; [| done]. by apply assign_keeps. }
  exists target, lnp. split; [done |]. split; [done |]. split; [done |].
  unfold assign at 2. rewrite Ht5. cbn [r_own_props]. rewrite Hld5.
  unfold assign. rewrite lookup_insert_eq. cbn [r_own_props].
  rewrite (lookup_insert_ne _ target source), Hs5 by done.
  rewrite lookup_insert_eq. f_equal. f_equal.
  by rewrite (right_id_L ∅ (∪)), <- insert_union_singleton_l.
Qed.

(** C10. Filtering a snapshot object writes no cell of the store it is
    given - the snapshot, its lists and its issues are as before - and
    returns a fresh object: its fields other than [phases], unknown ones
    included, are exactly the snapshot's, with the very same values and
    references, and its [phases] is a fresh object. *)
Theorem r_filteredData_frame σ ld (m : gmap string ref_value) (searchQuery : string)
    (isaFilter trackFilter : option string) σ' r :
  σ !! ld = Some (CObject m) →
  r_filteredData σ (RRef ld) searchQuery isaFilter trackFilter = Ok (σ', r) →
  (∀ l c, σ !! l = Some c → σ' !! l = Some c)
  ∧ ∃ lr lnp (m' : gmap string ref_value),
      r = RRef lr ∧ σ !! lr = None ∧ σ' !! lr = Some (CObject m')
      ∧ dom m' = {["phases"]} ∪ dom m
      ∧ (∀ k, k ≠ "phases" → m' !! k = m !! k)
      ∧ m' !! "phases" = Some (RRef lnp) ∧ σ !! lnp = None.
Proof.
  intros Hld Hr. unfold r_filteredData in Hr.
  destruct (r_filter_with_frame _ _ _ _ _ _ Hld Hr)
    as (Hsub & lr & lnp & -> & Hlr & Hlnp & Hcell).
  split.
  { intros l c Hl. by eapply lookup_weaken. }
  exists lr, lnp, (<["phases" := RRef lnp]> m).
  split; [done |]. split; [done |]. split; [done |].
  split; [by rewrite dom_insert_L |].
  split; [intros k Hk; by rewrite lookup_insert_ne |].
  split; [apply lookup_insert_eq | done].
Qed.

End StoreFrame.

Lemma r_filteredData_frame_witness :
  demo_store !! demo_root = Some (CObject demo_fields)
  ∧ match @r_filteredData demo_host demo_store (RRef demo_root) "uart" (Some "ISA") None with
    | Ok (σ', r) =>
        (∀ l c, demo_store !! l = Some c → σ' !! l = Some c)
        ∧ ∃ lr lnp (m' : gmap string ref_value),
            r = RRef lr ∧ demo_store !! lr = None ∧ σ' !! lr = Some (CObject m')
            ∧ dom m' = {["phases"]} ∪ dom demo_fields
            ∧ (∀ k, k ≠ "phases" → m' !! k = demo_fields !! k)
            ∧ m' !! "phases" = Some (RRef lnp) ∧ demo_store !! lnp = None
    | Throw _ => False
    end.
Proof.
  assert (Hroot : demo_store !! demo_root = Some (CObject demo_fields))
    by (vm_compute; reflexivity).
  split; [exact Hroot |].
  apply when_Ok; [vm_compute; reflexivity |]. intros [σ' r] Hr.
  exact (@r_filteredData_frame demo_host demo_store demo_root demo_fields
           "uart" (Some "ISA") None σ' r Hroot Hr).
Defined.

(** On the sample document the store model and the value model agree. *)
Example store_model_agrees :
  match @r_filteredData demo_host demo_store (RRef demo_root) "uart" (Some "ISA") None with
  | Ok (σ', r) => Ok (reify 6 σ' r)
  | Throw e => Throw e
  end
  = @filteredData demo_host demo_doc "uart" (Some "ISA") None
  ∧ reify 6 demo_store (RRef demo_root) = demo_doc.
Proof. split; vm_compute; reflexivity. Qed.

(** ** The functions return on well-formed input *)

Section Totality.
Context {host : Host}.

Lemma mapR_total {A B} (f : A → result B) (l : list A) :
  Forall (λ x, is_Ok (f x) = true) l → ∃ ys, mapR f l = Ok ys.
Proof.
  induction 1 as [| x l Hx _ [ys IH]]; [by exists [] |].
  cbn. destruct (f x) as [y |]; [| done]. rewrite IH. cbn. eauto.
Qed.

(** Induction on values, with the elements of an array as subterms. *)
Lemma value_array_ind (P : value → Prop) :
  P VUndefined → P VNull → (∀ b, P (VBool b)) → (∀ n, P (VNum n)) → (∀ s, P (VStr s)) →
  (∀ l, Forall P l → P (VArr l)) → (∀ m, P (VObj m)) →
  ∀ v, P v.
Proof.
  intros Hu Hn Hb Hnum Hs Ha Ho. fix IH 1.
  intros [| | b | n | s | l | m];
    [exact Hu | exact Hn | apply Hb | apply Hnum | apply Hs | | apply Ho].
  apply Ha. induction l as [| x l IHl]; constructor; [apply IH | exact IHl].
Qed.

(** The conversion of the elements of an array, as a traversal. *)
Lemma toStr_array (l : list value) :
  toStr (VArr l)
  = (parts ← mapR (λ x, match x with VUndefined | VNull => Ok "" | _ => toStr x end) l;
     Ok (String.concat "," parts)).
Proof.
  cbn [toStr]. f_equal. induction l as [| x l IH]; [done |]. cbn [mapR]. by rewrite IH.
Qed.

(** A value has a string form exactly when it is printable. *)
Lemma toStr_printable (v : value) : printable v = true ↔ ∃ s, toStr v = Ok s.
Proof.
  induction v as [| | b | n | s | l IH | m] using value_array_ind;
    try (split; [by destruct b || by eexists | done]).
  - split; [by destruct b; eexists | done].
  - rewrite toStr_array. cbn [printable]. induction IH as [| x l Hx _ IHl].
    { split; [by eexists | done]. }
    cbn [forallb mapR]. rewrite andb_true_iff, Hx, IHl. split.
    + intros [[s Hs] [t Ht]].
      destruct (mapR _ l) as [parts |]; [| done]. 
      destruct x; rewrite ?Hs; by eexists.
    + intros [t Ht].
      destruct (match x with VUndefined | VNull => Ok "" | _ => toStr x end)
        as [sx |] eqn:Hsx; [| done].
      cbn [mbind result_bind] in Ht.
      destruct (mapR _ l) as [parts |]; [| done]. split; [| by eexists].
      destruct x; try (by eexists); by exists sx.
  - cbn [printable toStr]. destruct (bool_decide _); split; try done.
    + by intros [s ?].
    + by eexists.
Qed.

Lemma printable_or_empty (v : value) :
  printable v = true → printable (js_or v (VStr "")) = true.
Proof. unfold js_or. by destruct (truthy v). Qed.

Lemma fields_or_empty_Ok (x : value) (keys : list string) :
  nullish x = false →
  fields_or_empty x keys = Ok ((λ k, js_or (prop x k) (VStr "")) <$> keys).
Proof.
  intros Hx. unfold fields_or_empty.
  induction keys as [| k keys IH]; [done |].
  cbn [mapR]. rewrite IH. unfold get. by rewrite Hx.
Qed.

Lemma fields_printable (x : value) (keys : list string) :
  printable_fields x keys →
  Forall (λ v, printable v = true) ((λ k, js_or (prop x k) (VStr "")) <$> keys).
Proof.
  intros H. apply Forall_fmap. eapply Forall_impl; [exact H |].
  intros k Hk. by apply printable_or_empty.
Qed.

Lemma js_join_total (sep : string) (l : list value) :
  Forall (λ v, printable v = true) l → ∃ s, js_join sep l = Ok s.
Proof.
  intros Hl. unfold js_join.
  destruct (mapR_total (λ x, if nullish x then Ok "" else toStr x) l) as [parts ->];
    [| by eexists].
  eapply Forall_impl; [exact Hl |]. intros v Hv. cbn beta.
  destruct (nullish v); [done |]. by destruct (proj1 (toStr_printable v) Hv) as [s ->].
Qed.

(** The text searched for an issue and one of its subtasks. *)
Lemma matchesQuery_total (q : string) (issue sub : value) :
  issue_ok issue →
  (truthy sub = true → printable_fields sub ["key"; "summary"; "status"; "type"]) →
  ∃ b, matchesQuery q issue sub = Ok b.
Proof.
  intros (Hn & Hf & _ & Hli & _) Hsub. unfold matchesQuery.
  destruct (bool_decide (q = "")); [by eexists |].
  rewrite (fields_or_empty_Ok issue _ Hn). cbn [mbind result_bind].
  unfold get at 1. rewrite Hn. cbn [mbind result_bind].
  apply fields_printable in Hf.
  set (hay := (λ k, js_or (prop issue k) (VStr "")) <$> ["key"; "summary"; "phase"]) in *.
  assert (∃ hay', match prop issue "linked_issues" with
                  | VArr lis =>
                      more ← mapR (λ li, fields_or_empty li
                                           ["key"; "summary"; "relationship"; "direction"]) lis;
                      Ok (hay ++ concat more)
                  | _ => Ok hay
                  end = Ok hay'
                  ∧ Forall (λ v, printable v = true) hay') as (hay' & -> & Hhay').
  { destruct (prop issue "linked_issues") as [| | | | | lis |] eqn:Hl; try by eexists.
    specialize (Hli lis eq_refl).
    assert (∃ more, mapR (λ li, fields_or_empty li
                                  ["key"; "summary"; "relationship"; "direction"]) lis
                    = Ok more
                    ∧ Forall (λ v, printable v = true) (concat more))
      as (more & -> & Hmore).
    { clear Hl. induction Hli as [| li lis [Hnli Hfli] _ (more & IH & Hmore)].
      { by exists []. }
      cbn [mapR]. rewrite (fields_or_empty_Ok li _ Hnli), IH. cbn [mbind result_bind].
      eexists. split; [done |]. cbn [concat]. apply Forall_app. split; [| done].
      by apply fields_printable. }
    eexists. split; [done |]. apply Forall_app. by split. }
  cbn [mbind result_bind].
  destruct (truthy sub) eqn:Ht.
  - rewrite (fields_or_empty_Ok sub) by (by destruct sub). cbn [mbind result_bind].
    destruct (js_join_total " "
                (hay' ++ ((λ k, js_or (prop sub k) (VStr ""))
                            <$> ["key"; "summary"; "status"; "type"]))) as [text ->].
    { apply Forall_app. split; [done |]. by apply fields_printable, Hsub. }
    by eexists.
  - cbn [mbind result_bind]. destruct (js_join_total " " hay' Hhay') as [text ->].
    by eexists.
Qed.

Lemma someR_total {A} (f : A → result bool) (l : list A) :
  Forall (λ x, is_Ok (f x) = true) l → ∃ b, someR f l = Ok b.
Proof.
  induction 1 as [| x l Hx _ [b IH]]; [by eexists |].
  cbn. destruct (f x) as [[|] |]; [by eexists | | done]. cbn. eauto.
Qed.

Lemma issueIsaValue_total (issue : value) :
  nullish issue = false →
  printable (prop (prop issue "isa_or_non_isa") "value") = true →
  ∃ u, issueIsaValue issue = Ok u.
Proof.
  intros Hn Hp. unfold issueIsaValue, get_opt. rewrite Hn.
  destruct (truthy (prop issue "isa_or_non_isa")) eqn:Ha.
  - unfold js_coalesce.
    destruct (nullish (prop (prop issue "isa_or_non_isa") "value")); [by eexists |].
    destruct (truthy (prop (prop issue "isa_or_non_isa") "value")); [| by eexists].
    destruct (proj1 (toStr_printable _) Hp) as [s ->]. by eexists.
  - rewrite Ha. by eexists.
Qed.

Lemma issueMatchesFilters_total (issue : value) (isaFilter trackFilter : option string) :
  nullish issue = false →
  printable (prop (prop issue "isa_or_non_isa") "value") = true →
  ∃ b, issueMatchesFilters issue isaFilter trackFilter = Ok b.
Proof.
  intros Hn Hp. unfold issueMatchesFilters.
  destruct (issueIsaValue_total issue Hn Hp) as [u ->].
  destruct (filter_on isaFilter); cbn [mbind result_bind].
  - destruct (negb _); [by eexists |]. destruct (_ && _); by eexists.
  - destruct (_ && _); by eexists.
Qed.

Lemma some_subtask_total (q : string) (issue : value) :
  issue_ok issue →
  ∃ b, (subs ← get issue "subtasks";
        subs ← as_array "some" (js_or subs (VArr []));
        someR (λ st, matchesQuery q issue st) subs) = Ok b.
Proof.
  intros Hok. pose proof Hok as (Hn & _ & _ & _ & Hsubs).
  unfold get. rewrite Hn. cbn [mbind result_bind]. unfold js_or.
  destruct Hsubs as [-> | (subs & -> & Hall)].
  - by eexists.
  - cbn [truthy as_array mbind result_bind].
    apply someR_total. eapply Forall_impl; [exact Hall |]. intros st Hst. cbn beta.
    by destruct (matchesQuery_total q issue st Hok (λ _, Hst)) as [b' ->].
Qed.

Lemma issue_kept_total (q : string) (isaFilter trackFilter : option string)
    (issue : value) :
  issue_ok issue → ∃ b, issue_kept q isaFilter trackFilter issue = Ok b.
Proof.
  intros Hok. unfold issue_kept.
  assert (∃ b, (if bool_decide (q = "") then Ok true else
                m ← matchesQuery q issue VUndefined;
                if m : bool then Ok true else
                subs ← get issue "subtasks";
                subs ← as_array "some" (js_or subs (VArr []));
                someR (λ st, matchesQuery q issue st) subs) = Ok b) as [b ->].
  { destruct (bool_decide (q = "")); [by eexists |].
    destruct (matchesQuery_total q issue VUndefined Hok) as [[|] ->];
      [done | by eexists |].
    cbn [mbind result_bind]. by apply some_subtask_total. }
  cbn [mbind result_bind]. destruct (negb b); [by eexists |].
  destruct Hok as (Hn & _ & Hp & _). by apply issueMatchesFilters_total.
Qed.

(** X28. The filter does not throw on a well-formed snapshot: it returns
    on every snapshot whose phase lists are arrays (or absent) of issues
    that are not null, whose searched texts have a string form (none is an
    object with a [toString] property of its own), whose linked issues are
    not null and whose subtasks are an array or absent. *)
Lemma filteredData_total (data : value) (searchQuery : string)
    (isaFilter trackFilter : option string) :
  (∀ phase, phase ∈ PHASE_ORDER →
     ∃ issues, phase_issues data phase = VArr issues ∧ Forall issue_ok issues) →
  ∃ r, filteredData data searchQuery isaFilter trackFilter = Ok r.
Proof.
  intros Hshape. unfold filteredData.
  destruct (negb (truthy data)); [by eexists |]. cbv zeta.
  destruct (phases_loop_total
              (issue_kept (toLowerCase (trim searchQuery)) isaFilter trackFilter)
              (js_or (prop data "phases") (VObj ∅)) PHASE_ORDER ∅) as [np ->];
    [| by eexists].
  intros phase Hphase. destruct (Hshape phase Hphase) as (issues & Hi & Hok).
  exists issues. split; [done |].
  eapply Forall_impl; [exact Hok |]. intros issue Hissue. cbn beta.
  by destruct (issue_kept_total (toLowerCase (trim searchQuery)) isaFilter trackFilter
                 issue Hissue) as [b ->].
Qed.

Lemma pending_loop_total (doneSet : list string) (approvals : list value) :
  Forall item_ok approvals → ∃ r, pending_loop doneSet approvals = Ok r.
Proof.
  induction 1 as [| item approvals Hitem _ [r IH]]; [by eexists |].
  destruct (item_status_ok item Hitem) as [s Hs].
  cbn [pending_loop]. rewrite Hs. cbn [mbind result_bind].
  destruct (_ && _); eauto.
Qed.

Lemma isApproval_total (sub : value) : nullish sub = false → ∃ b, isApproval sub = Ok b.
Proof.
  intros Hn. unfold isApproval, get. rewrite Hn. cbn [mbind result_bind].
  destruct (prop sub "is_approval") as [| | [|] | | | |]; by eexists.
Qed.

Lemma phaseFromSummary_total (summary : value) :
  printable summary = true → ∃ r, phaseFromSummary summary = Ok r.
Proof.
  intros Hp. unfold phaseFromSummary.
  destruct (proj1 (toStr_printable _) (printable_or_empty _ Hp)) as [s ->]. by eexists.
Qed.

Lemma filterR_Forall {A} (P : A → Prop) (f : A → result bool) (l ys : list A) :
  filterR f l = Ok ys → Forall P l → Forall P ys.
Proof.
  intros Hf Hl. apply Forall_forall. intros x Hx.
  destruct (filterR_elem _ _ _ _ Hf Hx) as [_ Hin].
  rewrite Forall_forall in Hl. by apply Hl.
Qed.

(** X29. The card does not throw on a well-formed issue: its derived
    values are computed for every issue object whose subtasks are an array
    (or absent) of objects with a string or absent status and with a summary
    that has a string form. *)
Lemma IssueCard_total (issue : value) :
  nullish issue = false →
  (∃ subs, js_or (prop issue "subtasks") (VArr []) = VArr subs ∧ Forall subtask_ok subs) →
  ∃ c, IssueCard issue = Ok c.
Proof.
  intros Hn (subs & Hsubs & Hsok). unfold IssueCard, get. rewrite Hn.
  cbn [mbind result_bind]. rewrite Hsubs. cbn [as_array mbind result_bind].
  assert (Hok : Forall item_ok subs).
  { eapply Forall_impl; [exact Hsok |]. by intros st [? _]. }
  assert (Hnn : ∀ l, Forall item_ok l → Forall (λ st : value, nullish st = false) l).
  { intros l Hl. eapply Forall_impl; [exact Hl |]. by intros st [? _]. }
  destruct (filterR_total (in_phase (js_or (prop issue "phase") (VStr ""))) subs)
    as [pt Hpt].
  { eapply Forall_impl; [exact Hsok |]. intros st [[Hst _] Hsm]. cbn beta.
    unfold in_phase, get. rewrite Hst. cbn [mbind result_bind].
    by destruct (phaseFromSummary_total _ Hsm) as [r ->]. }
  rewrite Hpt. cbn [mbind result_bind].
  pose proof (filterR_Forall _ _ _ _ Hpt Hok) as Hokpt.
  destruct (filterR_total (λ st, a ← isApproval st; Ok (negb a)) pt) as [tasks Htasks].
  { eapply Forall_impl; [exact (Hnn _ Hokpt) |]. intros st Hst. cbn beta.
    by destruct (isApproval_total st Hst) as [b ->]. }
  rewrite Htasks. cbn [mbind result_bind].
  pose proof (filterR_Forall _ _ _ _ Htasks Hokpt) as Hoktasks.
  destruct (filterR_total isApproval pt) as [aps Haps].
  { eapply Forall_impl; [exact (Hnn _ Hokpt) |]. intros st Hst. cbn beta.
    by destruct (isApproval_total st Hst) as [b ->]. }
  pose proof (filterR_Forall _ _ _ _ Haps Hokpt) as Hokaps.
  assert (Hcount : ∀ l opts, Forall item_ok l → opts_ok opts →
                             ∃ c, countByStatus l opts = Ok c).
  { intros l opts Hl [Hd Hns]. unfold countByStatus.
    destruct (lowered_set_ok _ Hd) as [ds ->]. cbn [mbind result_bind].
    destruct (lowered_set_ok _ Hns) as [ns ->]. cbn [mbind result_bind].
    destruct (count_loop_total ds ns l (0, 0)%Z Hl) as [[d n] ->]. by eexists. }
  destruct (Hcount tasks VUndefined Hoktasks) as [tc ->]; [split; by left |].
  cbn [mbind result_bind]. rewrite Haps. cbn [mbind result_bind].
  destruct (Hcount aps (VObj {["doneStatuses" := VArr (VStr <$> approvalDoneStatuses)]})
              Hokaps) as [ac ->].
  { split; [right; by exists approvalDoneStatuses | by left]. }
  cbn [mbind result_bind].
  destruct (pending_loop_total (toLowerCase <$> approvalDoneStatuses) aps Hokaps)
    as [na Hna].
  unfold firstPendingApproval. rewrite Hna. by eexists.
Qed.

End Totality.

(** * Further properties

    Properties of the rendering helpers, of the phase and status utilities
    and of the values the components derive, beyond the pipeline above. *)

(** ** Colours *)

Section ColourProps.
Context {radix16 : Radix16}.
Local Open Scope Z_scope.

Lemma app_String (c : ascii) (s t : string) : String c s +:+ t = String c (s +:+ t).
Proof. reflexivity. Qed.

Lemma app_empty (t : string) : "" +:+ t = t.
Proof. reflexivity. Qed.

Lemma app_empty_r (s : string) : s +:+ "" = s.
Proof. induction s as [| c s IH]; [done |]. by rewrite app_String, IH. Qed.

(** A property of characters, settled on the 256 of them. *)
Lemma ascii_forall (P : ascii → bool) :
  forallb (λ n, P (ascii_of_nat n)) (seq 0 256) = true → ∀ c, P c = true.
Proof.
  intros H c. rewrite forallb_forall in H.
  rewrite <- (ascii_nat_embedding c). apply H, in_seq.
  pose proof (nat_ascii_bounded c). lia.
Qed.

Lemma hex_digit_not_prefix (c : ascii) (d : Z) :
  hex_digit c = Some d →
  is_space c = false ∧ c ≠ "-"%char ∧ c ≠ "+"%char ∧ c ≠ "x"%char ∧ c ≠ "X"%char
  ∧ 0 <= d < 16 ∧ lower_hex_char d = lower_char c.
Proof.
  pose proof (ascii_forall hex_digit_check ltac:(vm_compute; reflexivity) c) as H.
  unfold hex_digit_check in H. intros Hd. rewrite Hd in H.
  repeat (apply andb_prop in H as [H ?]).
  repeat match goal with
         | H : negb _ = true |- _ => apply negb_true_iff in H
         | H : bool_decide _ = false |- _ => apply bool_decide_eq_false in H
         | H : bool_decide _ = true |- _ => apply bool_decide_eq_true in H
         end.
  repeat split; try done; lia.
Qed.

Lemma hex_digit_lower (d : Z) : 0 <= d < 16 → hex_digit (lower_hex_char d) = Some d.
Proof.
  intros Hd.
  assert (d = 0 ∨ d = 1 ∨ d = 2 ∨ d = 3 ∨ d = 4 ∨ d = 5 ∨ d = 6 ∨ d = 7 ∨ d = 8
          ∨ d = 9 ∨ d = 10 ∨ d = 11 ∨ d = 12 ∨ d = 13 ∨ d = 14 ∨ d = 15) as H by lia.
  repeat (destruct H as [-> | H]; [reflexivity |]). by subst.
Qed.

Lemma channel_string_all :
  forallb (λ v, bool_decide (padStart 2 "0" (toString16 (Z2SF v)) = channel_digits v))
          (seqZ 0 256) = true.
Proof. vm_compute. reflexivity. Qed.

Lemma channel_string (v : Z) :
  0 <= v <= 255 → padStart 2 "0" (toString16 (Z2SF v)) = channel_digits v.
Proof.
  intros Hv. pose proof channel_string_all as H.
  rewrite forallb_forall in H.
  specialize (H v). rewrite bool_decide_eq_true in H. apply H.
  apply list_elem_of_In, elem_of_seqZ. lia.
Qed.

Lemma parseInt16_two (c1 c2 : ascii) (rest : string) (d1 d2 : Z) :
  hex_digit c1 = Some d1 → hex_digit c2 = Some d2 →
  parseInt16 (String c1 (String c2 rest))
  = let n := foldl (λ a d, 16 * a + d) 0 (d1 :: d2 :: leading_digits16 rest) in
    if n =? 0 then S754_zero false else Z2SF n.
Proof.
  intros H1 H2.
  destruct (hex_digit_not_prefix c1 d1 H1) as (Hsp & Hm & Hp & _).
  destruct (hex_digit_not_prefix c2 d2 H2) as (_ & _ & _ & Hx & HX & _).
  unfold parseInt16. cbn [trimStart]. rewrite Hsp.
  rewrite !bool_decide_eq_false_2 by done.
  rewrite (bool_decide_eq_false_2 (c2 = "x"%char)), (bool_decide_eq_false_2 (c2 = "X"%char)) by done.
  cbn [orb]. rewrite andb_false_r. cbn [leading_digits16]. rewrite H1, H2. reflexivity.
Qed.

Lemma ToInt32_Z2SF (n : Z) :
  0 <= n < 2 ^ 31 → ToInt32 (if n =? 0 then S754_zero false else Z2SF n) = n.
Proof.
  intros Hn. destruct (Z.eqb_spec n 0) as [-> | Hne]; [reflexivity |].
  destruct (Z2SF_exact n ltac:(lia)) as (m & e & -> & He & Hm & _).
  unfold ToInt32. cbn [cond_Zopp].
  assert (Hv : match e with
               | Z.neg k => Z.pos m / 2 ^ Z.pos k
               | _ => Z.pos m * 2 ^ e
               end = n).
  { destruct e as [| k | k]; try lia.
    rewrite Hm. change (- Z.neg k) with (Z.pos k).
    apply Z.div_mul. apply Z.pow_nonzero; lia. }
  rewrite Hv. rewrite Z.mod_small by lia.
  destruct (Z.leb_spec (2 ^ 31) n); lia.
Qed.

Lemma channels_of_packed (r g b : Z) :
  0 <= r <= 255 → 0 <= g <= 255 → 0 <= b <= 255 →
  let n := 65536 * r + 256 * g + b in
  Z.land (Z.shiftr n 16) 255 = r ∧ Z.land (Z.shiftr n 8) 255 = g ∧ Z.land n 255 = b.
Proof.
  intros Hr Hg Hb n. change 255 with (Z.ones 8).
  rewrite !Z.land_ones, !Z.shiftr_div_pow2 by lia.
  change (2 ^ 16) with 65536. change (2 ^ 8) with 256. unfold n.
  assert (H1 : (65536 * r + 256 * g + b) / 65536 = r).
  { symmetry. apply (Z.div_unique _ _ _ (256 * g + b)); lia. }
  assert (H2 : (65536 * r + 256 * g + b) / 256 = 256 * r + g).
  { symmetry. apply (Z.div_unique _ _ _ b); lia. }
  rewrite H1, H2. repeat split.
  - apply Z.mod_small. lia.
  - symmetry. apply (Z.mod_unique _ _ r); lia.
  - symmetry. apply (Z.mod_unique _ _ (256 * r + g)); lia.
Qed.

Lemma channel_split (v : Z) :
  0 <= v <= 255 → 0 <= v / 16 < 16 ∧ 0 <= v mod 16 < 16 ∧ v = 16 * (v / 16) + v mod 16.
Proof.
  intros Hv. split; [| split].
  - split; [apply Z.div_pos | apply Z.div_lt_upper_bound]; lia.
  - apply Z.mod_pos_bound. lia.
  - apply Z.div_mod. lia.
Qed.

Lemma leading_digits16_channel (v : Z) (rest : string) :
  0 <= v <= 255 →
  leading_digits16 (channel_digits v +:+ rest)
  = v / 16 :: v mod 16 :: leading_digits16 rest.
Proof.
  intros Hv. destruct (channel_split v Hv) as (H1 & H2 & _).
  unfold channel_digits. rewrite !app_String, app_empty. cbn [leading_digits16].
  rewrite !hex_digit_lower by done. reflexivity.
Qed.

Lemma rgbToHex_digits (r g b : Z) :
  0 <= r <= 255 → 0 <= g <= 255 → 0 <= b <= 255 →
  rgbToHex (Z2SF r) (Z2SF g) (Z2SF b)
  = String "#" (channel_digits r +:+ channel_digits g +:+ channel_digits b).
Proof.
  intros Hr Hg Hb. unfold rgbToHex. cbn [map String.concat].
  rewrite !channel_string by done. reflexivity.
Qed.

Lemma hexToRgb_digits (r g b : Z) :
  0 <= r <= 255 → 0 <= g <= 255 → 0 <= b <= 255 →
  hexToRgb (String "#" (channel_digits r +:+ channel_digits g +:+ channel_digits b))
  = {| rgb_r := r; rgb_g := g; rgb_b := b |}.
Proof.
  intros Hr Hg Hb. unfold hexToRgb.
  change (replace_first "#" "" (String "#" ?s)) with s.
  set (s := channel_digits r +:+ channel_digits g +:+ channel_digits b).
  assert (Hp : parseInt16 s
               = let n := 65536 * r + 256 * g + b in
                 if n =? 0 then S754_zero false else Z2SF n).
  { unfold s, channel_digits at 1. rewrite !app_String, app_empty.
    destruct (channel_split r Hr) as (Hr1 & Hr2 & Hr3).
    destruct (channel_split g Hg) as (Hg1 & Hg2 & Hg3).
    destruct (channel_split b Hb) as (Hb1 & Hb2 & Hb3).
    erewrite parseInt16_two by (by apply hex_digit_lower).
    rewrite leading_digits16_channel by done.
    rewrite <- (app_empty_r (channel_digits b)), leading_digits16_channel by done.
    cbn [leading_digits16 foldl]. cbv zeta.
    match goal with
    | |- context [Z2SF ?x] => replace x with (65536 * r + 256 * g + b) by lia
    end.
    reflexivity. }
  rewrite Hp. cbv zeta. rewrite ToInt32_Z2SF by lia.
  destruct (channels_of_packed r g b Hr Hg Hb) as (-> & -> & ->). reflexivity.
Qed.

(** X1. Encoding three channels between 0 and 255 as a colour and decoding
    the colour gives the channels back. *)
Theorem hexToRgb_rgbToHex (r g b : Z) :
  0 <= r <= 255 → 0 <= g <= 255 → 0 <= b <= 255 →
  hexToRgb (rgbToHex (Z2SF r) (Z2SF g) (Z2SF b))
  = {| rgb_r := r; rgb_g := g; rgb_b := b |}.
Proof.
  intros Hr Hg Hb. rewrite rgbToHex_digits by done. by apply hexToRgb_digits.
Qed.

Lemma channel_range (x : Z) : 0 <= Z.land x 255 <= 255.
Proof.
  assert (H : Z.land x 255 = x mod 256).
  { change 255 with (Z.ones 8). by rewrite Z.land_ones. }
  rewrite H. pose proof (Z.mod_pos_bound x 256 ltac:(lia)). lia.
Qed.

Lemma hexToRgb_range (hex : string) :
  0 <= rgb_r (hexToRgb hex) <= 255 ∧ 0 <= rgb_g (hexToRgb hex) <= 255
  ∧ 0 <= rgb_b (hexToRgb hex) <= 255.
Proof. unfold hexToRgb. cbn [rgb_r rgb_g rgb_b]. repeat split; apply channel_range. Qed.

Lemma channel_digits_colour (r g b : Z) :
  0 <= r <= 255 → 0 <= g <= 255 → 0 <= b <= 255 →
  is_colour (String "#" (channel_digits r +:+ channel_digits g +:+ channel_digits b))
  = true.
Proof.
  intros Hr Hg Hb.
  destruct (channel_split r Hr) as (Hr1 & Hr2 & _).
  destruct (channel_split g Hg) as (Hg1 & Hg2 & _).
  destruct (channel_split b Hb) as (Hb1 & Hb2 & _).
  unfold is_colour, channel_digits. rewrite !app_String, !app_empty.
  cbn [String.length list_ascii_of_string forallb].
  rewrite !hex_digit_lower by done.
  rewrite !bool_decide_eq_true_2 by (done || by eexists). reflexivity.
Qed.

(** The six digits of a colour. *)
Lemma is_colour_inv (hex : string) :
  is_colour hex = true →
  ∃ c1 c2 c3 c4 c5 c6 d1 d2 d3 d4 d5 d6,
    hex = String "#" (String c1 (String c2 (String c3 (String c4 (String c5
            (String c6 ""))))))
    ∧ hex_digit c1 = Some d1 ∧ hex_digit c2 = Some d2 ∧ hex_digit c3 = Some d3
    ∧ hex_digit c4 = Some d4 ∧ hex_digit c5 = Some d5 ∧ hex_digit c6 = Some d6.
Proof.
  destruct hex as [| c0 s]; [done |]. unfold is_colour.
  intros H. apply andb_prop in H as [H Hall]. apply andb_prop in H as [Hc Hlen].
  apply bool_decide_eq_true in Hc as ->. apply bool_decide_eq_true in Hlen.
  destruct s as [| c1 [| c2 [| c3 [| c4 [| c5 [| c6 [| c7 s]]]]]]]; try done.
  cbn [list_ascii_of_string forallb] in Hall.
  repeat (apply andb_prop in Hall as [? Hall]).
  repeat match goal with
         | H : bool_decide (is_Some _) = true |- _ =>
             apply bool_decide_eq_true in H as [? ?]
         end.
  do 12 eexists. split; [reflexivity |]. repeat split; eassumption.
Qed.

(** X2. Decoding a colour in the six-digit notation and encoding its
    channels gives the colour back, in lower case. *)
Theorem rgbToHex_hexToRgb (hex : string) :
  is_colour hex = true →
  rgbToHex (Z2SF (rgb_r (hexToRgb hex))) (Z2SF (rgb_g (hexToRgb hex)))
           (Z2SF (rgb_b (hexToRgb hex)))
  = toLowerCase hex.
Proof.
  intros H.
  destruct (is_colour_inv hex H)
    as (c1 & c2 & c3 & c4 & c5 & c6 & d1 & d2 & d3 & d4 & d5 & d6
        & -> & H1 & H2 & H3 & H4 & H5 & H6).
  destruct (hex_digit_not_prefix _ _ H1) as (_ & _ & _ & _ & _ & B1 & L1).
  destruct (hex_digit_not_prefix _ _ H2) as (_ & _ & _ & _ & _ & B2 & L2).
  destruct (hex_digit_not_prefix _ _ H3) as (_ & _ & _ & _ & _ & B3 & L3).
  destruct (hex_digit_not_prefix _ _ H4) as (_ & _ & _ & _ & _ & B4 & L4).
  destruct (hex_digit_not_prefix _ _ H5) as (_ & _ & _ & _ & _ & B5 & L5).
  destruct (hex_digit_not_prefix _ _ H6) as (_ & _ & _ & _ & _ & B6 & L6).
  assert (Hdm : ∀ a b, 0 <= a < 16 → 0 <= b < 16 →
                  0 <= 16 * a + b <= 255 ∧ (16 * a + b) / 16 = a
                  ∧ (16 * a + b) mod 16 = b).
  { intros a b Ha Hb. split; [lia |]. split.
    - symmetry. apply (Z.div_unique _ _ _ b); lia.
    - symmetry. apply (Z.mod_unique _ _ a); lia. }
  destruct (Hdm d1 d2 B1 B2) as (Rr & Rr1 & Rr2).
  destruct (Hdm d3 d4 B3 B4) as (Rg & Rg1 & Rg2).
  destruct (Hdm d5 d6 B5 B6) as (Rb & Rb1 & Rb2).
  assert (Hrgb : hexToRgb (String "#" (String c1 (String c2 (String c3 (String c4
                   (String c5 (String c6 "")))))))
                 = {| rgb_r := 16 * d1 + d2; rgb_g := 16 * d3 + d4;
                      rgb_b := 16 * d5 + d6 |}).
  { unfold hexToRgb.
    change (replace_first "#" "" (String "#" ?s)) with s.
    erewrite parseInt16_two by done.
    cbn [leading_digits16]. rewrite H3, H4, H5, H6. cbn [leading_digits16 foldl].
    cbv zeta.
    match goal with
    | |- context [Z2SF ?x] =>
        replace x with (65536 * (16 * d1 + d2) + 256 * (16 * d3 + d4) + (16 * d5 + d6))
          by lia
    end.
    rewrite ToInt32_Z2SF by lia.
    by destruct (channels_of_packed _ _ _ Rr Rg Rb) as (-> & -> & ->). }
  rewrite Hrgb. cbn [rgb_r rgb_g rgb_b].
  rewrite rgbToHex_digits by done. unfold channel_digits.
  rewrite Rr1, Rr2, Rg1, Rg2, Rb1, Rb2, L1, L2, L3, L4, L5, L6.
  reflexivity.
Qed.

Lemma mix_table :
  forallb (λ v, mix_check lighten_default_f v && mix_check phaseStyle_f v)
          (seqZ 0 256) = true.
Proof. vm_compute. reflexivity. Qed.

Lemma mix_spec (f : option spec_float) (v : Z) :
  f = None ∨ f = Some phaseStyle_f → 0 <= v <= 255 →
  ∃ z, mix (default lighten_default_f f) v = Z2SF z ∧ v <= z <= 255.
Proof.
  intros Hf Hv. pose proof mix_table as H. rewrite forallb_forall in H.
  specialize (H v ltac:(apply list_elem_of_In, elem_of_seqZ; lia)).
  cbv beta in H. apply andb_prop in H as [H1 H2].
  assert (Hc : mix_check (default lighten_default_f f) v = true)
    by (destruct Hf as [-> | ->]; done).
  unfold mix_check in Hc. cbv zeta in Hc.
  apply andb_prop in Hc as [Hc Hle2]. apply andb_prop in Hc as [Heq Hle1].
  apply bool_decide_eq_true in Heq.
  eexists. split; [exact Heq | lia].
Qed.

Lemma lighten_digits (hex : string) (f : option spec_float) :
  f = None ∨ f = Some phaseStyle_f →
  ∃ r g b,
    lighten hex f
    = String "#" (channel_digits r +:+ channel_digits g +:+ channel_digits b)
    ∧ rgb_r (hexToRgb hex) <= r <= 255 ∧ rgb_g (hexToRgb hex) <= g <= 255
    ∧ rgb_b (hexToRgb hex) <= b <= 255.
Proof.
  intros Hf. destruct (hexToRgb_range hex) as (Hr & Hg & Hb).
  destruct (mix_spec f _ Hf Hr) as (r & Er & Hr').
  destruct (mix_spec f _ Hf Hg) as (g & Eg & Hg').
  destruct (mix_spec f _ Hf Hb) as (b & Eb & Hb').
  exists r, g, b. split; [| done].
  unfold lighten. cbv zeta. fold (mix (default lighten_default_f f)).
  unfold mix in Er, Eg, Eb. rewrite Er, Eg, Eb.
  apply rgbToHex_digits; lia.
Qed.

(** X3. With the default factor and with the factor of [phaseStyle],
    [lighten] returns a colour in the six-digit notation, and each of its
    channels lies between the channel of the given colour and 255: no
    channel gets darker. *)
Theorem lighten_not_darker (hex : string) (f : option spec_float) :
  f = None ∨ f = Some phaseStyle_f →
  is_colour (lighten hex f) = true
  ∧ rgb_r (hexToRgb hex) <= rgb_r (hexToRgb (lighten hex f)) <= 255
  ∧ rgb_g (hexToRgb hex) <= rgb_g (hexToRgb (lighten hex f)) <= 255
  ∧ rgb_b (hexToRgb hex) <= rgb_b (hexToRgb (lighten hex f)) <= 255.
Proof.
  intros Hf. destruct (hexToRgb_range hex) as (Hr & Hg & Hb).
  destruct (lighten_digits hex f Hf) as (r & g & b & -> & Hr' & Hg' & Hb').
  split; [apply channel_digits_colour; lia |].
  rewrite hexToRgb_digits by lia. done.
Qed.

Lemma PHASE_COLORS_colours :
  map_Forall (λ _ c, is_colour c = true) PHASE_COLORS.
Proof. by_compute. Qed.

(** X4. The background of a phase header is always a colour in the
    six-digit notation; every phase of [PHASE_ORDER] has an entry in the
    colour table, so that its header, when the phase has issues, is the
    phase's colour with white text. *)
Theorem phaseStyle_background (phase : string) (isEmpty : bool) :
  is_colour (background (phaseStyle phase isEmpty)) = true
  ∧ (phase ∈ PHASE_ORDER →
     PHASE_COLORS !! phase = Some (background (phaseStyle phase false))
     ∧ color (phaseStyle phase false) = "#fff").
Proof.
  split.
  - unfold phaseStyle. destruct (PHASE_COLORS !! phase) as [c |] eqn:Hc.
    + destruct isEmpty; cbn [background].
      * destruct (lighten_digits c (Some phaseStyle_f) ltac:(by right))
          as (r & g & b & -> & ? & ? & ?).
        destruct (hexToRgb_range c) as (? & ? & ?).
        apply channel_digits_colour; lia.
      * by apply (PHASE_COLORS_colours phase c).
    + by destruct isEmpty.
  - intros Hp. unfold PHASE_ORDER in Hp.
    repeat (apply elem_of_cons in Hp as [-> | Hp]; [by vm_compute |]).
    by apply elem_of_nil in Hp.
Qed.

End ColourProps.

(** ** Strings *)

Lemma string_map_length (f : ascii → ascii) (s : string) :
  String.length (string_map f s) = String.length s.
Proof. induction s as [| c s IH]; [done |]. cbn. by rewrite IH. Qed.

Lemma string_map_app (f : ascii → ascii) (s t : string) :
  string_map f (s +:+ t) = string_map f s +:+ string_map f t.
Proof.
  induction s as [| c s IH]; [done |].
  rewrite app_String. cbn [string_map]. by rewrite IH, app_String.
Qed.

Lemma string_map_substring (f : ascii → ascii) (n m : nat) (s : string) :
  string_map f (substring n m s) = substring n m (string_map f s).
Proof.
  revert n m. induction s as [| c s IH]; intros [| n] [| m]; cbn; try done;
    by rewrite IH.
Qed.

Lemma substring_split (s : string) (m : nat) :
  m ≤ String.length s →
  substring 0 m s +:+ substring m (String.length s - m) s = s.
Proof.
  revert m. induction s as [| c s IH]; intros [| m] Hm; cbn in Hm; try lia.
  - done.
  - cbn [substring String.length Nat.sub]. rewrite app_empty. f_equal.
    specialize (IH 0 ltac:(lia)). cbn [substring] in IH.
    rewrite Nat.sub_0_r in IH. destruct s; [done |]. by rewrite app_empty in IH.
  - cbn [substring String.length Nat.sub]. rewrite app_String. f_equal.
    apply IH. lia.
Qed.

(** A string is its first [n] characters, the [m] that follow and the
    rest. *)
Lemma substring_cover (s : string) (n m : nat) :
  n + m ≤ String.length s →
  substring 0 n s +:+ substring n m s
    +:+ substring (n + m) (String.length s - (n + m)) s = s.
Proof.
  revert s. induction n as [| n IH]; intros s Hlen.
  - cbn [Nat.add]. replace (substring 0 0 s) with "" by (by destruct s).
    rewrite app_empty. by apply substring_split.
  - destruct s as [| c s]; cbn in Hlen; [lia |].
    cbn [substring Nat.add String.length Nat.sub]. rewrite app_String. f_equal.
    apply IH. lia.
Qed.

Lemma prefix_length (q s : string) :
  String.prefix q s = true → String.length q ≤ String.length s.
Proof.
  revert s. induction q as [| c q IH]; intros [| d s]; cbn; try done; try lia.
  destruct (ascii_dec c d); [| done]. intros H. apply IH in H. lia.
Qed.

(** [indexOf] returns -1 or the position of an occurrence. *)
Lemma indexOf_spec (s q : string) :
  indexOf s q = (-1)%Z
  ∨ (0 ≤ indexOf s q)%Z
    ∧ substring (Z.to_nat (indexOf s q)) (String.length q) s = q
    ∧ Z.to_nat (indexOf s q) + String.length q ≤ String.length s.
Proof.
  induction s as [| c s IH]; cbn [indexOf].
  - destruct (String.prefix q "") eqn:Hp; [| by left].
    right. split; [done |]. split; [by apply prefix_correct |].
    by apply prefix_length in Hp.
  - destruct (String.prefix q (String c s)) eqn:Hp.
    + right. split; [done |]. split; [by apply prefix_correct |].
      by apply prefix_length in Hp.
    + destruct IH as [-> | (H0 & Hsub & Hlen)]; [by left |].
      destruct (Z.eqb_spec (indexOf s q) (-1)) as [? | _]; [lia |].
      right. split; [lia |].
      replace (Z.to_nat (indexOf s q + 1)) with (S (Z.to_nat (indexOf s q))) by lia.
      split; [exact Hsub | cbn; lia].
Qed.

Lemma includes_indexOf (s q : string) :
  includes s q = negb (indexOf s q =? -1)%Z.
Proof.
  induction s as [| c s IH]; cbn [includes indexOf].
  - by destruct (String.prefix q "").
  - destruct (String.prefix q (String c s)); [done |]. cbn [orb]. rewrite IH.
    destruct (Z.eqb_spec (indexOf s q) (-1)) as [? | Hne]; [done |].
    pose proof (indexOf_spec s q) as [? | (? & _)]; [done |].
    by destruct (Z.eqb_spec (indexOf s q + 1) (-1)); [lia |].
Qed.

Section Highlight.
Context {host : Host}.

Lemma slice_substring (s : string) (i j : nat) :
  i ≤ j ≤ String.length s →
  slice s (Z.of_nat i) (Some (Z.of_nat j)) = substring i (j - i) s.
Proof.
  intros H. unfold slice.
  destruct (Z.ltb_spec (Z.of_nat i) 0); [lia |].
  destruct (Z.ltb_spec (Z.of_nat j) 0); [lia |].
  f_equal; lia.
Qed.

Lemma slice_rest (s : string) (i : nat) :
  i ≤ String.length s →
  slice s (Z.of_nat i) None = substring i (String.length s - i) s.
Proof.
  intros H. unfold slice.
  destruct (Z.ltb_spec (Z.of_nat i) 0); [lia |].
  f_equal; lia.
Qed.

(** X5. [highlightText] never alters a text that has a string form: it
    returns the text itself when the query is empty or does not occur in
    the lower-cased text, and otherwise three pieces that concatenate to
    the string form of the text; when that is a string of ASCII characters,
    the middle piece is equal to the query up to letter case. *)
Theorem highlightText_pieces (text : value) (query lower : string) :
  toStr (js_or text (VStr "")) = Ok lower →
  match highlightText text query with
  | Ok (Plain v) =>
      v = js_or text (VStr "")
      ∧ (query = "" ∨ includes (toLowerCase lower) (toLowerCase query) = false)
  | Ok (Marked before matched after) =>
      query ≠ ""
      ∧ before +:+ matched +:+ after = lower
      ∧ includes (toLowerCase lower) (toLowerCase query) = true
      ∧ (is_ascii lower = true → toLowerCase matched = toLowerCase query)
  | Throw _ => False
  end.
Proof.
  intros Hlower. unfold highlightText.
  destruct (bool_decide_reflect (query = "")) as [-> | Hq]; [split; [done | by left] |].
  rewrite Hlower. cbn [mbind result_bind]. cbv zeta.
  rewrite includes_indexOf.
  destruct (indexOf_spec (toLowerCase lower) (toLowerCase query))
    as [-> | (H0 & Hsub & Hlen)]; [split; [done | by right] |].
  destruct (Z.eqb_spec (indexOf (toLowerCase lower) (toLowerCase query)) (-1))
    as [? | _]; [lia |].
  set (i := Z.to_nat (indexOf (toLowerCase lower) (toLowerCase query))) in *.
  assert (Hi : indexOf (toLowerCase lower) (toLowerCase query) = Z.of_nat i) by lia.
  unfold toLowerCase in Hlen, Hsub. rewrite !string_map_length in Hlen.
  rewrite string_map_length in Hsub.
  rewrite Hi, <- Nat2Z.inj_add.
  change 0%Z with (Z.of_nat 0).
  rewrite !slice_substring, slice_rest by lia.
  replace (i - 0) with i by lia. replace (i + String.length query - i)
    with (String.length query) by lia.
  split; [done |]. split; [by apply substring_cover |]. split; [done |].
  intros _. unfold toLowerCase. by rewrite string_map_substring.
Qed.

End Highlight.

(** ** The mail link *)

Lemma list_ascii_app (s t : string) :
  list_ascii_of_string (s +:+ t) = list_ascii_of_string s ++ list_ascii_of_string t.
Proof. induction s as [| c s IH]; [done |]. rewrite app_String. cbn. by rewrite IH. Qed.

Lemma encode_char_safe (c : ascii) : all_uri_safe (encode_char c) = true.
Proof. revert c. apply ascii_forall. vm_compute. reflexivity. Qed.

Lemma encodeURIComponent_safe (s : string) : all_uri_safe (encodeURIComponent s) = true.
Proof.
  induction s as [| c s IH]; [done |]. cbn [encodeURIComponent].
  unfold all_uri_safe in *. rewrite list_ascii_app, forallb_app, IH, andb_true_r.
  apply encode_char_safe.
Qed.

Section Mail.
Context {host : Host}.

Lemma header_lines_Ok (issue issuePhase : value) (taskCounts : counts)
    (isaDisplay ftDisplay ghUrl : value) (lines : list string) (key summary : string) :
  header_lines issue issuePhase taskCounts isaDisplay ftDisplay ghUrl
    = Ok (lines, key, summary) →
  toStr (js_or (prop issue "key") (VStr "")) = Ok key
  ∧ toStr (js_or (prop issue "summary") (VStr "")) = Ok summary.
Proof.
  unfold header_lines, get. destruct (nullish issue); [done |].
  cbn [mbind result_bind].
  destruct (toStr (js_or (prop issue "key") (VStr ""))) as [k |]; [| done].
  cbn [mbind result_bind].
  destruct (toStr (js_or (prop issue "summary") (VStr ""))) as [s |]; [| done].
  cbn [mbind result_bind].
  destruct (toStr issuePhase); [| done]. cbn [mbind result_bind].
  destruct (toStr (js_or isaDisplay _)); [| done]. cbn [mbind result_bind].
  destruct (toStr (js_or ftDisplay _)); [| done]. cbn [mbind result_bind].
  destruct (toStr (js_or ghUrl _)); [| done]. cbn [mbind result_bind].
  by intros [= _ <- <-].
Qed.

(** X6. The body of the mail link is the encoded clipboard text: a link
    that [buildMailto] returns is [mailto:?subject=], the encoded subject
    line, [&body=] and the encoding of what [buildSummaryText] returns for
    the same arguments; and when [buildSummaryText] throws, [buildMailto]
    throws the same error. *)
Theorem buildMailto_body (issue issuePhase : value) (taskCounts : counts)
    (phaseTasks : list value) (isaDisplay ftDisplay ghUrl : value) :
  (∀ link,
     buildMailto issue issuePhase taskCounts phaseTasks isaDisplay ftDisplay ghUrl
       = Ok link →
     ∃ text key summary,
       buildSummaryText issue issuePhase taskCounts phaseTasks isaDisplay ftDisplay ghUrl
         = Ok text
       ∧ toStr (js_or (prop issue "key") (VStr "")) = Ok key
       ∧ toStr (js_or (prop issue "summary") (VStr "")) = Ok summary
       ∧ link = "mailto:?subject="
                +:+ encodeURIComponent
                      (trim ("RISC-V Spec Update: " +:+ key +:+ " " +:+ summary))
                +:+ "&body=" +:+ encodeURIComponent text)
  ∧ (∀ e,
       buildSummaryText issue issuePhase taskCounts phaseTasks isaDisplay ftDisplay ghUrl
         = Throw e →
       buildMailto issue issuePhase taskCounts phaseTasks isaDisplay ftDisplay ghUrl
         = Throw e).
Proof.
  unfold buildMailto, buildSummaryText.
  destruct (header_lines issue issuePhase taskCounts isaDisplay ftDisplay ghUrl)
    as [[[lines key] summary] |] eqn:Hh; cbn [mbind result_bind]; [| by split].
  apply header_lines_Ok in Hh as [Hk Hs].
  change (mapR summary_task_line phaseTasks) with (mapR mail_task_line phaseTasks).
  destruct (if bool_decide (length phaseTasks = 0) then _ else _) as [ls |];
    cbn [mbind result_bind]; [| by split].
  split; [| done]. intros link [= <-]. by eexists _, key, summary.
Qed.

(** X7. A mail link has exactly its two parameters: after
    [mailto:?subject=] comes a subject, [&body=] and a body in which every
    character is an unreserved one or belongs to an escaped octet, so that
    neither holds a separator of its own. *)
Theorem buildMailto_wellformed (issue issuePhase : value) (taskCounts : counts)
    (phaseTasks : list value) (isaDisplay ftDisplay ghUrl : value) (link : string) :
  buildMailto issue issuePhase taskCounts phaseTasks isaDisplay ftDisplay ghUrl
    = Ok link →
  ∃ subject body,
    link = "mailto:?subject=" +:+ subject +:+ "&body=" +:+ body
    ∧ all_uri_safe subject = true ∧ all_uri_safe body = true
    ∧ uri_safe "&" = false ∧ uri_safe "=" = false ∧ uri_safe "?" = false
    ∧ uri_safe "#" = false ∧ uri_safe " " = false ∧ uri_safe "010" = false.
Proof.
  unfold buildMailto.
  bind_case header Hh. destruct header as [[lines0 key] summary].
  bind_case lines Hl. intros [= <-].
  eexists _, _. split; [reflexivity |].
  split; [apply encodeURIComponent_safe |]. split; [apply encodeURIComponent_safe |].
  done.
Qed.

End Mail.

(** ** Phases *)

Lemma array_indexOf_spec (l : list string) (x : string) :
  (array_indexOf l x = (-1)%Z ∧ x ∉ l)
  ∨ (∃ i : nat, array_indexOf l x = Z.of_nat i ∧ l !! i = Some x).
Proof.
  induction l as [| y l IH]; cbn [array_indexOf].
  - left. split; [done | apply not_elem_of_nil].
  - destruct (bool_decide_reflect (x = y)) as [-> | Hne].
    + right. by exists 0.
    + destruct IH as [[-> Hnot] | (i & -> & Hi)].
      * left. split; [done |]. by apply not_elem_of_cons.
      * right. exists (S i). split; [| done].
        destruct (Z.eqb_spec (Z.of_nat i) (-1)); lia.
Qed.

(** X8. [phaseIndex] inverts the enumeration of the phases: the index of
    the phase at position [i] is [i]; an index that is not -1 is the
    position of the given phase, which is then a string; and every index is
    -1 or a position. *)
Theorem phaseIndex_lookup :
  (∀ (i : nat) (s : string), PHASE_ORDER !! i = Some s → phaseIndex (VStr s) = Z.of_nat i)
  ∧ (∀ (phase : value) (i : nat),
       phaseIndex phase = Z.of_nat i →
       ∃ s, phase = VStr s ∧ PHASE_ORDER !! i = Some s)
  ∧ (∀ phase : value,
       phaseIndex phase = (-1)%Z
       ∨ (0 ≤ phaseIndex phase < Z.of_nat (length PHASE_ORDER))%Z).
Proof.
  split; [| split].
  - intros i s Hi. unfold PHASE_ORDER in Hi.
    do 9 (destruct i as [| i]; [injection Hi as <-; reflexivity |]). done.
  - intros phase i. unfold phaseIndex.
    destruct (truthy phase); cbn [negb]; [| lia].
    destruct phase as [| | b | n | s | l | m]; try lia.
    destruct (array_indexOf_spec PHASE_ORDER s) as [[-> _] | (j & -> & Hj)]; [lia |].
    intros ?. assert (j = i) as -> by lia. by exists s.
  - intros phase. unfold phaseIndex.
    destruct (truthy phase); cbn [negb]; [| by left].
    destruct phase as [| | b | n | s | l | m]; try by left.
    destruct (array_indexOf_spec PHASE_ORDER s) as [[-> _] | (j & -> & Hj)]; [by left |].
    right. apply lookup_lt_Some in Hj. lia.
Qed.

Lemma PHASE_LOOKUP_enumerated :
  map_Forall (λ k phase, phase ∈ PHASE_ORDER ∧ k = toLowerCase phase) PHASE_LOOKUP.
Proof.
  unfold PHASE_LOOKUP, PHASE_ORDER. cbn [foldl].
  repeat apply map_Forall_insert_2; try apply map_Forall_empty;
    (split; [set_solver | reflexivity]).
Qed.

Lemma phaseIndex_enumerated (phase : string) :
  phase ∈ PHASE_ORDER →
  ∃ i : nat, PHASE_ORDER !! i = Some phase ∧ phaseIndex (VStr phase) = Z.of_nat i.
Proof.
  intros Hp. unfold PHASE_ORDER in Hp.
  repeat (apply elem_of_cons in Hp as [-> | Hp];
          [match goal with
           | |- ∃ i, _ !! i = Some ?p ∧ _ =>
               exists (Z.to_nat (phaseIndex (VStr p))); split; reflexivity
           end |]).
  by apply elem_of_nil in Hp.
Qed.

Section Phases.
Context {host : Host}.

(** X9. Whatever the summary, [phaseFromSummary] names no phase outside
    the enumeration: a phase it returns is one of [PHASE_ORDER], with its
    position as index, and for every other result the index is -1; it
    throws only for a summary without a string form. *)
Theorem phaseFromSummary_enumerated (summary : value) :
  match phaseFromSummary summary with
  | Ok (PhName phase) =>
      ∃ i : nat, PHASE_ORDER !! i = Some phase
                 ∧ phaseIndex_ref (PhName phase) = Z.of_nat i
  | Ok r => phaseIndex_ref r = (-1)%Z
  | Throw _ => printable summary = false
  end.
Proof.
  unfold phaseFromSummary.
  destruct (toStr (js_or summary (VStr ""))) as [s |] eqn:Hs; cbn [mbind result_bind];
    cycle 1.
  { apply not_true_is_false. intros Hp.
    apply printable_or_empty, toStr_printable in Hp as [s' Hs']. congruence. }
  destruct (bracket_label _) as [m |]; [| done].
  cbv zeta. set (label := toLowerCase (trim m)).
  destruct (PHASE_ALIASES !! label) as [[phase |] |] eqn:Ha.
  - apply PHASE_ALIASES_enumerated in Ha as [Hp _]. by apply phaseIndex_enumerated.
  - done.
  - destruct (PHASE_LOOKUP !! label) as [phase |] eqn:Hl.
    + apply PHASE_LOOKUP_enumerated in Hl as [Hp _].
      destruct (bool_decide (phase = "")); [done |]. by apply phaseIndex_enumerated.
    + by destruct (_ || _).
Qed.

Lemma trimStart_spaces (ws s : string) :
  forallb is_space (list_ascii_of_string ws) = true →
  trimStart (ws +:+ String "[" s) = String "[" s.
Proof.
  induction ws as [| c ws IH]; [done |].
  cbn [list_ascii_of_string forallb]. intros [Hc Hws]%andb_prop.
  rewrite app_String. cbn [trimStart]. rewrite Hc. by apply IH.
Qed.

Lemma span_label_app (label rest : string) :
  "]"%char ∉ list_ascii_of_string label →
  span_label (label +:+ String "]" rest) = (label, String "]" rest).
Proof.
  induction label as [| c label IH]; [done |].
  cbn [list_ascii_of_string]. intros [Hc Hl]%not_elem_of_cons.
  rewrite app_String. cbn [span_label].
  rewrite bool_decide_eq_false_2 by done. by rewrite IH.
Qed.

(** X10. A summary that starts, after optional white space, with the name
    of an enumerated phase in brackets is assigned to that phase, whatever
    the letter case of the name and the white space around it inside the
    brackets. *)
Theorem phaseFromSummary_bracket (ws label rest phase : string) :
  phase ∈ PHASE_ORDER →
  forallb is_space (list_ascii_of_string ws) = true →
  "]"%char ∉ list_ascii_of_string label →
  toLowerCase (trim label) = toLowerCase phase →
  phaseFromSummary (VStr (ws +:+ "[" +:+ label +:+ "]" +:+ rest)) = Ok (PhName phase).
Proof.
  intros Hp Hws Hlabel Heq. unfold phaseFromSummary.
  assert (Hne : label ≠ "").
  { intros ->. unfold PHASE_ORDER in Hp.
    repeat (apply elem_of_cons in Hp as [-> | Hp]; [discriminate Heq |]).
    by apply elem_of_nil in Hp. }
  assert (Hs : js_or (VStr (ws +:+ "[" +:+ label +:+ "]" +:+ rest)) (VStr "")
               = VStr (ws +:+ "[" +:+ label +:+ "]" +:+ rest)).
  { unfold js_or. cbn [truthy]. rewrite bool_decide_eq_false_2; [done |].
    destruct ws; discriminate. }
  rewrite Hs. cbn [toStr mbind result_bind]. unfold bracket_label.
  rewrite !app_String, !app_empty, trimStart_spaces by done.
  rewrite bool_decide_eq_true_2 by done.
  rewrite span_label_app by done.
  destruct label as [| c label]; [done |].
  cbv zeta. rewrite Heq. clear Heq Hne Hlabel Hs.
  unfold PHASE_ORDER in Hp.
  repeat (apply elem_of_cons in Hp as [-> | Hp]; [reflexivity |]).
  by apply elem_of_nil in Hp.
Qed.

Lemma dash_runs_chars (in_run : bool) (s : string) :
  forallb id_char (list_ascii_of_string (dash_runs in_run s)) = true.
Proof.
  revert in_run. induction s as [| c s IH]; intros in_run; [done |].
  cbn [dash_runs]. destruct (is_lower c || is_digit c) eqn:Hc.
  - cbn [list_ascii_of_string forallb]. rewrite IH, andb_true_r.
    unfold id_char. by rewrite Hc.
  - destruct in_run; [apply IH |].
    cbn [list_ascii_of_string forallb]. by rewrite IH.
Qed.

(** X11. The element id [scrollToPhase] looks up is the id [PhaseSection]
    gives to the section of the same phase; an id is [phase-] followed by
    lower-case letters, digits and dashes only; the sections of two
    different phases of the enumeration have different ids; and every
    phase with a string form has an id. *)
Theorem phaseId_scroll :
  (∀ phase : string, phaseId (VStr phase) = Ok (scrollToPhase_id phase))
  ∧ (∀ (phase : value) (id : string),
       phaseId phase = Ok id →
       ∃ s, id = "phase-" +:+ s
            ∧ forallb id_char (list_ascii_of_string s) = true)
  ∧ (∀ p q : string,
       p ∈ PHASE_ORDER → q ∈ PHASE_ORDER →
       phaseId (VStr q) = Ok (scrollToPhase_id p) → p = q)
  ∧ (∀ phase : value, printable phase = true → ∃ id, phaseId phase = Ok id).
Proof.
  split; [| split; [| split]].
  - intros phase. unfold scrollToPhase_id, phaseId, js_or. cbn [truthy].
    by destruct (bool_decide_reflect (phase = "")) as [-> | _].
  - intros phase id. unfold phaseId.
    destruct (toStr _) as [s |]; [| done]. cbn [mbind result_bind]. intros [= <-].
    eexists. split; [reflexivity | apply dash_runs_chars].
  - intros p q Hp Hq. unfold PHASE_ORDER in Hp, Hq.
    repeat (apply elem_of_cons in Hp as [-> | Hp]);
      try (by apply elem_of_nil in Hp);
      repeat (apply elem_of_cons in Hq as [-> | Hq]);
      try (by apply elem_of_nil in Hq);
      intros H; try reflexivity; vm_compute in H; discriminate H.
  - intros phase Hp. unfold phaseId.
    destruct (proj1 (toStr_printable _) (printable_or_empty _ Hp)) as [s ->].
    by eexists.
Qed.

End Phases.

(** ** Search *)

Lemma prefix_app (q s t : string) :
  String.prefix q s = true → String.prefix q (s +:+ t) = true.
Proof.
  revert s. induction q as [| c q IH]; intros [| d s]; try done.
  { intros _. rewrite app_empty. by destruct t. }
  rewrite app_String. cbn [String.prefix].
  destruct (ascii_dec c d); [| done]. apply IH.
Qed.

Lemma includes_app (s t q : string) :
  includes s q = true → includes (s +:+ t) q = true.
Proof.
  induction s as [| c s IH]; cbn [includes].
  - rewrite orb_false_r. intros H. rewrite app_empty.
    destruct q; [by destruct t | done].
  - rewrite app_String. cbn [includes]. intros [H | H]%orb_prop.
    + apply (prefix_app _ _ t) in H. rewrite app_String in H. by rewrite H.
    + by rewrite (IH H), orb_true_r.
Qed.

Lemma string_app_assoc (s t u : string) : (s +:+ t) +:+ u = s +:+ (t +:+ u).
Proof. induction s as [| c s IH]; [done |]. by rewrite !app_String, IH. Qed.

Lemma concat_app_prefix (sep : string) (l1 l2 : list string) :
  l1 ≠ [] → ∃ t, String.concat sep (l1 ++ l2) = String.concat sep l1 +:+ t.
Proof.
  induction l1 as [| x l1 IH]; [done |]. intros _.
  destruct l1 as [| y l1].
  - destruct l2 as [| z l2]; cbn.
    + exists "". by rewrite app_empty_r.
    + by eexists.
  - destruct (IH ltac:(done)) as [t Ht].
    exists t. cbn [app String.concat] in Ht |- *. rewrite Ht.
    by rewrite !string_app_assoc.
Qed.

(** The characters of a string that occurs in another are characters of
    that other string. *)
Lemma prefix_chars (q s : string) (c : ascii) :
  String.prefix q s = true → c ∈ list_ascii_of_string q → c ∈ list_ascii_of_string s.
Proof.
  revert s. induction q as [| d q IH]; intros [| e s]; cbn; try done.
  - by intros _ ?%elem_of_nil.
  - destruct (ascii_dec d e) as [-> | ]; [| done].
    intros Hp [-> | Hc]%elem_of_cons; [by left |]. right. by apply IH.
Qed.

Lemma includes_chars (s q : string) (c : ascii) :
  includes s q = true → c ∈ list_ascii_of_string q → c ∈ list_ascii_of_string s.
Proof.
  induction s as [| d s IH]; cbn [includes].
  - rewrite orb_false_r. apply prefix_chars.
  - intros [H | H]%orb_prop Hc; [by eapply prefix_chars |].
    cbn. right. by apply IH.
Qed.

Lemma string_map_chars (f : ascii → ascii) (s : string) :
  list_ascii_of_string (string_map f s) = f <$> list_ascii_of_string s.
Proof. induction s as [| c s IH]; [done |]. cbn. by rewrite IH. Qed.

Lemma lower_char_idemp (c : ascii) : lower_char (lower_char c) = lower_char c.
Proof.
  apply (bool_decide_eq_true_1 _).
  apply (ascii_forall lower_char_check). vm_compute. reflexivity.
Qed.

Lemma string_map_fixed (f : ascii → ascii) (s : string) :
  (∀ c, c ∈ list_ascii_of_string s → f c = c) → string_map f s = s.
Proof.
  induction s as [| c s IH]; [done |]. intros H. cbn.
  rewrite H by (cbn; by left). f_equal. apply IH. intros d Hd. apply H. cbn. by right.
Qed.

Section Search.
Context {host : Host}.

Lemma mapR_app {A B} (f : A → result B) (l1 l2 : list A) :
  mapR f (l1 ++ l2) = (p1 ← mapR f l1; p2 ← mapR f l2; Ok (p1 ++ p2)).
Proof.
  induction l1 as [| x l1 IH]; cbn [app mapR mbind result_bind].
  - by destruct (mapR f l2).
  - destruct (f x) as [y |]; [| done]. cbn [mbind result_bind]. rewrite IH.
    destruct (mapR f l1) as [p1 |]; [| done]. cbn [mbind result_bind].
    by destruct (mapR f l2).
Qed.

Lemma mapR_length {A B} (f : A → result B) (l : list A) (ys : list B) :
  mapR f l = Ok ys → length ys = length l.
Proof.
  revert ys. induction l as [| x l IH]; intros ys; cbn [mapR].
  { by intros [= <-]. }
  destruct (f x); [| done]. cbn [mbind result_bind].
  destruct (mapR f l) as [ys' |]; [| done]. cbn [mbind result_bind].
  intros [= <-]. cbn. by rewrite (IH ys' eq_refl).
Qed.

(** Joining a list continued by another gives the join of the first,
    continued. *)
Lemma js_join_app (sep : string) (l1 l2 : list value) (s1 s : string) :
  l1 ≠ [] →
  js_join sep l1 = Ok s1 →
  js_join sep (l1 ++ l2) = Ok s →
  ∃ t, s = s1 +:+ t.
Proof.
  intros Hne. unfold js_join. rewrite mapR_app.
  destruct (mapR _ l1) as [p1 |] eqn:H1; [| done]. cbn [mbind result_bind].
  intros [= <-]. destruct (mapR _ l2) as [p2 |]; [| done]. cbn [mbind result_bind].
  intros [= <-]. apply concat_app_prefix.
  apply mapR_length in H1. destruct p1; [by destruct l1 | done].
Qed.

(** The text searched without a subtask, and what a subtask adds. *)
Lemma matchesQuery_hay (q : string) (issue sub : value) (b : bool) :
  q ≠ "" →
  matchesQuery q issue sub = Ok b →
  ∃ hay text,
    hay ≠ []
    ∧ (∀ sub', matchesQuery q issue sub'
               = (more ← (if truthy sub'
                          then fields_or_empty sub' ["key"; "summary"; "status"; "type"]
                          else Ok []);
                  text ← js_join " " (hay ++ more);
                  Ok (includes (toLowerCase text) q)))
    ∧ (more ← (if truthy sub
               then fields_or_empty sub ["key"; "summary"; "status"; "type"]
               else Ok []);
       js_join " " (hay ++ more)) = Ok text
    ∧ b = includes (toLowerCase text) q.
Proof.
  intros Hq. unfold matchesQuery. rewrite (bool_decide_eq_false_2 (q = "")) by done.
  destruct (fields_or_empty issue ["key"; "summary"; "phase"]) as [hay |] eqn:Hh;
    [| done].
  cbn [mbind result_bind].
  destruct (get issue "linked_issues") as [linked |]; [| done].
  cbn [mbind result_bind].
  assert (Hne : hay ≠ []).
  { apply mapR_length in Hh. by destruct hay. }
  set (hay2 := match linked with
               | VArr lis =>
                   more ← mapR (λ li, fields_or_empty li
                                        ["key"; "summary"; "relationship"; "direction"]) lis;
                   Ok (hay ++ concat more)
               | _ => Ok hay
               end).
  assert (Hhay2 : ∀ h, hay2 = Ok h → h ≠ []).
  { unfold hay2. destruct linked; try (by intros h [= <-]).
    destruct (mapR _ l); [| done]. intros h [= <-]. by destruct hay. }
  destruct hay2 as [h |]; [| done]. specialize (Hhay2 h eq_refl).
  cbn [mbind result_bind].
  assert (Hform : ∀ sub',
            (hay ← (if truthy sub'
                    then more ← fields_or_empty sub' ["key"; "summary"; "status"; "type"];
                         Ok (h ++ more)
                    else Ok h);
             text ← js_join " " hay; Ok (includes (toLowerCase text) q))
            = (more ← (if truthy sub'
                       then fields_or_empty sub' ["key"; "summary"; "status"; "type"]
                       else Ok []);
               text ← js_join " " (h ++ more);
               Ok (includes (toLowerCase text) q))).
  { intros sub'. destruct (truthy sub'); cbn [mbind result_bind].
    - by destruct (fields_or_empty sub' _).
    - by rewrite app_nil_r. }
  rewrite Hform.
  destruct (if truthy sub then _ else _) as [more |] eqn:Hm; [| done].
  cbn [mbind result_bind].
  destruct (js_join " " (h ++ more)) as [text |] eqn:Ht; [| done].
  cbn [mbind result_bind]. intros [= <-].
  exists h, text. split; [done |]. split; [exact Hform |]. by split.
Qed.

(** X12. An issue that matches a query by its own fields matches it
    together with any of its subtasks: when the search with a subtask
    returns, it returns true, the subtask can only add text to search in;
    and it returns for every subtask whose searched fields have a string
    form. *)
Theorem matchesQuery_with_subtask (q : string) (issue sub : value) :
  matchesQuery q issue VUndefined = Ok true →
  (∀ b, matchesQuery q issue sub = Ok b → b = true)
  ∧ ((truthy sub = true → printable_fields sub ["key"; "summary"; "status"; "type"]) →
     matchesQuery q issue sub = Ok true).
Proof.
  intros H0.
  assert (Hret : ∀ b, matchesQuery q issue sub = Ok b → b = true).
  { destruct (bool_decide_reflect (q = "")) as [-> | Hq].
    { unfold matchesQuery. cbn. by intros b [= <-]. }
    destruct (matchesQuery_hay q issue VUndefined true Hq H0)
      as (hay & text & Hne & Hform & Ht & Hinc).
    cbn [truthy mbind result_bind] in Ht. rewrite app_nil_r in Ht.
    intros b. rewrite Hform.
    destruct (if truthy sub then _ else _) as [more |]; [| done].
    cbn [mbind result_bind].
    destruct (js_join " " (hay ++ more)) as [text' |] eqn:Ht'; [| done].
    cbn [mbind result_bind]. intros [= <-].
    destruct (js_join_app _ _ _ _ _ Hne Ht Ht') as [t ->].
    unfold toLowerCase. rewrite string_map_app. by apply includes_app. }
  split; [exact Hret |]. intros Hsub.
  destruct (bool_decide_reflect (q = "")) as [-> | Hq]; [done |].
  destruct (matchesQuery_hay q issue VUndefined true Hq H0)
    as (hay & text & Hne & Hform & Ht & Hinc).
  cbn [truthy mbind result_bind] in Ht. rewrite app_nil_r in Ht.
  assert (∃ b, matchesQuery q issue sub = Ok b) as [b Hb].
  { rewrite Hform. destruct (truthy sub) eqn:Hts.
    - rewrite (fields_or_empty_Ok sub) by (by destruct sub). cbn [mbind result_bind].
      unfold js_join in Ht |- *. rewrite mapR_app.
      destruct (mapR _ hay) as [p1 |]; [| done]. cbn [mbind result_bind].
      destruct (mapR_total (λ x, if nullish x then Ok "" else toStr x)
                  ((λ k, js_or (prop sub k) (VStr ""))
                     <$> ["key"; "summary"; "status"; "type"])) as [p2 ->];
        [| by eexists].
      eapply Forall_impl; [exact (fields_printable _ _ (Hsub eq_refl)) |].
      intros v Hv. cbn beta. destruct (nullish v); [done |].
      by destruct (proj1 (toStr_printable v) Hv) as [s ->].
    - cbn [mbind result_bind]. rewrite app_nil_r, Ht. by eexists. }
  by rewrite Hb, (Hret b Hb).
Qed.

(** X13. A query that is not in lower case matches nothing: the text
    searched is lower-cased, the query is not. *)
Theorem matchesQuery_lower_case (q : string) (issue sub : value) :
  matchesQuery q issue sub = Ok true → toLowerCase q = q.
Proof.
  unfold matchesQuery.
  destruct (bool_decide_reflect (q = "")) as [-> | _]; [done |].
  bind_case hay Hh. bind_case linked Hl. bind_case hay2 Hh2. bind_case hay3 Hh3.
  bind_case text Ht.
  intros [= Hinc]. apply string_map_fixed. intros c Hc.
  eapply includes_chars in Hc; [| exact Hinc].
  unfold toLowerCase in Hc. rewrite string_map_chars in Hc.
  apply list_elem_of_fmap in Hc as (d & -> & _). apply lower_char_idemp.
Qed.

End Search.

(** ** Status configuration and counts *)

Lemma toLowerCase_idemp (s : string) : toLowerCase (toLowerCase s) = toLowerCase s.
Proof.
  induction s as [| c s IH]; [done |].
  cbn. rewrite lower_char_idemp. f_equal. exact IH.
Qed.

(** The decimal notation of a number starts with a digit. *)
Lemma pretty_N_go_digit (x : N) (s : string) :
  (0 < x)%N → ∃ c t, pretty_N_go x s = String c t ∧ is_digit c = true.
Proof.
  revert s. induction x as [x IH] using (well_founded_induction N.lt_wf_0).
  intros s Hx. rewrite pretty_N_go_step by done.
  destruct (N.eq_dec (x `div` 10)%N 0%N) as [H0 | H0].
  - rewrite H0, pretty_N_go_0. eexists _, _. split; [reflexivity |].
    generalize (x `mod` 10)%N. intros [| p]; [done |].
    unfold pretty_N_char. by repeat (destruct p as [p | p |]; try done).
  - apply IH; [apply N.div_lt; lia | by apply N.neq_0_lt_0].
Qed.

Lemma pretty_nat_digit (n : nat) :
  ∃ c t, pretty n = String c t ∧ is_digit c = true.
Proof.
  unfold pretty, pretty_nat, pretty, pretty_N.
  destruct (decide (N.of_nat n = 0%N)); [by eexists _, _ |].
  apply pretty_N_go_digit. lia.
Qed.

(** An array or a string has no own property of a name that does not
    start with a digit. *)
Lemma indexed_props_lookup {A} (f : A → value) (l : list A) (k : string) :
  (∀ c t, k = String c t → is_digit c = false) →
  (list_to_map (imap (λ i x, (pretty i, f x)) l) : gmap string value) !! k = None.
Proof.
  intros Hk. apply not_elem_of_list_to_map_1.
  intros ((k' & v) & -> & (i & y & [= -> ->] & _)%elem_of_lookup_imap)%list_elem_of_fmap.
  cbn in Hk. destruct (pretty_nat_digit i) as (c & t & Hp & Hc).
  specialize (Hk c t Hp). congruence.
Qed.

Lemma own_props_lookup (v : value) (k : string) :
  (∀ c t, k = String c t → is_digit c = false) →
  own_props v !! k = match v with VObj m => m !! k | _ => None end.
Proof.
  intros Hk. destruct v as [| | b | n | s | l | m]; try done.
  - by apply (indexed_props_lookup (λ c, VStr (String c ""))).
  - by apply (indexed_props_lookup id).
Qed.

Lemma merged_pick (c : value) (k : string) (dflt : list string) :
  truthy c = true →
  (∀ a t, k = String a t → is_digit a = false) →
  own_props DEFAULT_STATUS_CONFIG !! k = Some (VArr (VStr <$> dflt)) →
  match get_opt (VObj (own_props c ∪ own_props DEFAULT_STATUS_CONFIG)) k with
  | VArr l => l
  | _ => VStr <$> dflt
  end
  = match get_opt c k with VArr l => l | _ => VStr <$> dflt end.
Proof.
  intros Ht Hk Hd.
  assert (Hn : nullish c = false) by (by destruct c).
  unfold get_opt. rewrite Hn. cbn [nullish prop].
  rewrite lookup_union, (own_props_lookup c k Hk), Hd.
  destruct c as [| | b | n | s | l | m]; cbn [prop]; try done.
  by destruct (m !! k) as [x |].
Qed.

Section StatusProps.
Context {host : Host}.

(** X14. Merging a loaded configuration over the defaults changes nothing
    for the classifier: the status sets of the merged configuration are
    those of the loaded value alone, and the defaults when nothing was
    loaded. *)
Theorem loadStatusConfig_normalize (cfg : result value) :
  normalizeStatusConfig (loadStatusConfig cfg DEFAULT_STATUS_CONFIG)
  = normalizeStatusConfig (match cfg with Ok c => c | Throw _ => VUndefined end).
Proof.
  destruct cfg as [c | e]; cbn [loadStatusConfig]; [| by vm_compute].
  destruct (truthy c) eqn:Ht.
  - unfold normalizeStatusConfig.
    rewrite (merged_pick c "doneStatuses" DEFAULT_doneStatuses Ht)
      by (done || by intros ? ? [= <- _]).
    rewrite (merged_pick c "notStartedStatuses" DEFAULT_notStartedStatuses Ht)
      by (done || by intros ? ? [= <- _]).
    reflexivity.
  - unfold normalizeStatusConfig.
    assert (Hu : ∀ k, get_opt c k = VUndefined).
    { intros k. unfold get_opt. by destruct c. }
    rewrite !Hu. reflexivity.
Qed.

Lemma mapR_lowered_fixed (l : list value) (ds : list string) :
  mapR lowered l = Ok ds → toLowerCase <$> ds = ds.
Proof.
  revert ds. induction l as [| x l IH]; intros ds; cbn [mapR].
  { by intros [= <-]. }
  destruct (lowered x) as [y |] eqn:Hy; cbn [mbind result_bind]; [| done].
  destruct (mapR lowered l) as [ds' |]; cbn [mbind result_bind]; [| done].
  intros [= <-]. unfold lowered in Hy.
  destruct (toStr x) as [t |]; cbn [mbind result_bind] in Hy; [| done].
  injection Hy as <-. cbn. by rewrite toLowerCase_idemp, (IH ds' eq_refl).
Qed.

(** X15. Normalising is idempotent: the configuration object
    [normalizeStatusConfig] returns, normalised again, is itself. *)
Theorem normalizeStatusConfig_idempotent (cfg : value) (n : status_config) :
  normalizeStatusConfig cfg = Ok n →
  normalizeStatusConfig (mkStatusConfig (doneStatuses n) (notStartedStatuses n)) = Ok n.
Proof.
  rewrite normalize_mkStatusConfig. unfold normalizeStatusConfig. cbv zeta.
  bind_case ds Hd. bind_case ns Hn.
  intros [= <-]. cbn [doneStatuses notStartedStatuses].
  by rewrite (mapR_lowered_fixed _ _ Hd), (mapR_lowered_fixed _ _ Hn).
Qed.

(** X16. The class of a subtask row is the class of its status chip with
    [row-] in front, except for an empty status, where the chip is neutral
    and the row has no class; and [rowStatusClass] throws exactly when
    [statusClass] does. *)
Theorem rowStatusClass_statusClass (status statusConfig : value) :
  rowStatusClass status statusConfig
  = (badge ← statusClass status statusConfig;
     Ok (if truthy status then "row-" +:+ badge else "")).
Proof.
  unfold rowStatusClass, statusClass.
  destruct (truthy status); cbn [negb mbind result_bind]; [| done].
  destruct (call_toLowerCase status) as [s |]; cbn [mbind result_bind]; [| done].
  destruct (normalizeStatusConfig statusConfig) as [cfg |]; cbn [mbind result_bind];
    [| done].
  destruct (bool_decide _); [done |]. by destruct (bool_decide _).
Qed.

End StatusProps.

Section CountProps.
Local Open Scope Z_scope.

(** The set an option of [countByStatus] gives: its strings, lower-cased. *)
Lemma lowered_set_strings (v : value) (l : list string) :
  lowered_set v = Ok l → l = toLowerCase <$> option_strings v.
Proof.
  unfold lowered_set, js_or.
  destruct (truthy v) eqn:Ht.
  - destruct v as [| | | | | arr |]; try done. cbn [as_array mbind result_bind].
    clear Ht. revert l. induction arr as [| x arr IH]; intros l; cbn [mapR].
    { by intros [= <-]. }
    destruct x as [| | | | s | |]; try done. cbn [call_toLowerCase mbind result_bind].
    destruct (mapR call_toLowerCase arr) as [l' |]; [| done].
    cbn [mbind result_bind]. intros [= <-]. cbn. by rewrite (IH l' eq_refl).
  - cbn [as_array mapR mbind result_bind]. intros [= <-].
    by destruct v as [| | | | | arr |].
Qed.

Lemma count_loop_exact (doneSet notStartedSet : list string) (items : list value)
    (d0 n0 d n : Z) :
  count_loop doneSet notStartedSet items (d0, n0) = Ok (d, n) →
  d = d0 + Z.of_nat (length (filter (done_under doneSet) items))
  ∧ n = n0 + Z.of_nat (length (filter (λ st, ¬ done_under doneSet st
                                             ∧ (toLowerCase (status_text st) ∈ notStartedSet
                                                ∨ not_started_name st)) items)).
Proof.
  revert d0 n0. induction items as [| item items IH]; intros d0 n0.
  { cbn. intros [= <- <-]. lia. }
  cbn [count_loop]. bind_case status Hs. apply item_status_text in Hs.
  destruct (bool_decide_reflect (status = "done")) as [Hd | Hd]; cbn [orb].
  { intros [-> ->]%IH.
    rewrite filter_cons_True by (left; congruence).
    rewrite filter_cons_False by (intros [Hno _]; apply Hno; left; congruence).
    cbn [length]. lia. }
  destruct (bool_decide_reflect (status ∈ doneSet)) as [Hin | Hin].
  { intros [-> ->]%IH.
    rewrite filter_cons_True by (right; congruence).
    rewrite filter_cons_False by (intros [Hno _]; apply Hno; right; congruence).
    cbn [length]. lia. }
  assert (Hnd : ¬ done_under doneSet item).
  { unfold done_under. rewrite <- Hs. tauto. }
  destruct (bool_decide_reflect (status ∈ notStartedSet)) as [Hn | Hn]; cbn [orb].
  { intros [-> ->]%IH.
    rewrite filter_cons_False by done.
    rewrite filter_cons_True by (split; [done | left; congruence]).
    cbn [length]. lia. }
  destruct (bool_decide_reflect (status ∈ ["not started"; "to do"; "open"; "backlog"]))
    as [Hb | Hb].
  { intros [-> ->]%IH.
    rewrite filter_cons_False by done.
    rewrite filter_cons_True by (split; [done | right; unfold not_started_name; congruence]).
    cbn [length]. lia. }
  intros [-> ->]%IH.
  rewrite !filter_cons_False; [lia | | done].
  intros [_ [? | ?]]; [| unfold not_started_name in *]; congruence.
Qed.

Lemma countByStatus_inv (items : list value) (opts : value) (c : counts) :
  countByStatus items opts = Ok c →
  ∃ doneSet notStartedSet,
    lowered_set (get_opt opts "doneStatuses") = Ok doneSet
    ∧ lowered_set (get_opt opts "notStartedStatuses") = Ok notStartedSet
    ∧ count_loop doneSet notStartedSet items (0, 0) = Ok (done c, notStarted c)
    ∧ total c = Z.of_nat (length items)
    ∧ inProgress c = Z.max 0 (total c - done c - notStarted c).
Proof.
  unfold countByStatus.
  bind_case doneSet Hd. bind_case notStartedSet Hn. bind_case acc Hacc.
  destruct acc as [d n]. intros [= <-]. cbn [done notStarted inProgress total].
  by exists doneSet, notStartedSet.
Qed.

(** X17. [countByStatus] counts exactly: [done] is the number of items
    whose lower-cased status is "done" or is among the lower-cased strings
    of the [doneStatuses] option; [notStarted] the number of the other items
    whose lower-cased status is among the lower-cased strings of the
    [notStartedStatuses] option or is one of the four built-in names; and
    [inProgress] the rest. *)
Theorem countByStatus_exact (items : list value) (opts : value) (c : counts) :
  countByStatus items opts = Ok c →
  let doneSet := toLowerCase <$> option_strings (get_opt opts "doneStatuses") in
  let notStartedSet := toLowerCase <$> option_strings (get_opt opts "notStartedStatuses") in
  done c = Z.of_nat (length (filter (done_under doneSet) items))
  ∧ notStarted c
    = Z.of_nat (length (filter (λ st, ¬ done_under doneSet st
                                      ∧ (toLowerCase (status_text st) ∈ notStartedSet
                                         ∨ not_started_name st)) items))
  ∧ inProgress c = Z.of_nat (length items) - done c - notStarted c
  ∧ total c = Z.of_nat (length items).
Proof.
  intros (doneSet & notStartedSet & Hd & Hn & Hacc & Htot & Hip)%countByStatus_inv.
  apply lowered_set_strings in Hd as ->. apply lowered_set_strings in Hn as ->.
  pose proof (count_loop_bounds _ _ _ _ _ _ _ Hacc) as (? & ? & ?).
  apply count_loop_exact in Hacc as [Hdone Hns].
  cbv zeta. repeat split; try done; lia.
Qed.

End CountProps.

(** ** The issue card *)

Lemma filterR_partition {A} (f : A → result bool) (l ys zs : list A) :
  filterR f l = Ok ys →
  filterR (λ x, a ← f x; Ok (negb a)) l = Ok zs →
  zs ++ ys ≡ₚ l.
Proof.
  revert ys zs. induction l as [| x l IH]; intros ys zs.
  { cbn. by intros [= <-] [= <-]. }
  cbn [filterR]. destruct (f x) as [b |]; [| done]. cbn [mbind result_bind].
  destruct (filterR f l) as [ys' |]; [| done].
  destruct (filterR _ l) as [zs' |]; [| done]. cbn [mbind result_bind].
  intros [= <-] [= <-]. specialize (IH ys' zs' eq_refl eq_refl).
  destruct b; cbn [negb].
  - by rewrite <- Permutation_middle, IH.
  - cbn. by rewrite IH.
Qed.

Lemma filter_length_all {A} (P : A → Prop) `{∀ x, Decision (P x)} (l : list A) :
  length (filter P l) = length l ↔ Forall P l.
Proof.
  split.
  - intros Hlen. apply Forall_forall. intros x Hx.
    destruct (decide (P x)) as [| Hn]; [done |].
    pose proof (length_filter_lt P l x Hx Hn). lia.
  - induction 1 as [| x l Hx _ IH]; [done |].
    rewrite filter_cons_True by done. cbn. by rewrite IH.
Qed.

Section CardProps.
Context {host : Host}.

Lemma IssueCard_inv (issue : value) (c : card) :
  IssueCard issue = Ok c →
  nullish issue = false
  ∧ issuePhase c = js_or (prop issue "phase") (VStr "")
  ∧ ∃ subs,
      js_or (prop issue "subtasks") (VArr []) = VArr subs
      ∧ filterR (in_phase (issuePhase c)) subs = Ok (phaseTasks c)
      ∧ filterR (λ st, a ← isApproval st; Ok (negb a)) (phaseTasks c) = Ok (taskOnly c)
      ∧ countByStatus (taskOnly c) VUndefined = Ok (taskCounts c)
      ∧ filterR isApproval (phaseTasks c) = Ok (approvalTasks c)
      ∧ countByStatus (approvalTasks c)
          (VObj {[ "doneStatuses" := VArr (VStr <$> approvalDoneStatuses) ]})
        = Ok (approvalCounts c)
      ∧ pending_loop (toLowerCase <$> approvalDoneStatuses) (approvalTasks c)
        = Ok (nextApproval c).
Proof.
  unfold IssueCard, get.
  destruct (nullish issue); [done |]. cbn [mbind result_bind].
  bind_case subs Hsubs. apply as_array_Ok in Hsubs.
  bind_case pt Hpt. bind_case tasks Htasks. bind_case tc Htc.
  bind_case at_ Hat. bind_case ac Hac. bind_case na Hna.
  intros [= <-]. cbn. split; [done |]. split; [done |]. by exists subs.
Qed.

(** The loop of [firstPendingApproval] returns null only after the last
    item: an item it returns has a status. *)
Lemma pending_loop_null (doneSet : list string) (approvals : list value) :
  pending_loop doneSet approvals = Ok VNull → Forall (done_under doneSet) approvals.
Proof.
  induction approvals as [| item approvals IH]; cbn [pending_loop]; [done |].
  destruct (item_status item) as [s |] eqn:Hs; cbn [mbind result_bind]; [| done].
  destruct (bool_decide_reflect (s = "done")) as [Hd | Hd]; cbn [negb andb].
  { intros H. constructor; [| by apply IH]. left.
    by rewrite <- (item_status_text _ _ Hs). }
  destruct (bool_decide_reflect (s ∈ doneSet)) as [Hin | Hin]; cbn [negb].
  { intros H. constructor; [| by apply IH]. right.
    by rewrite <- (item_status_text _ _ Hs). }
  intros [= ->]. discriminate Hs.
Qed.

Lemma countByStatus_total (items : list value) (opts : value) (c : counts) :
  countByStatus items opts = Ok c → total c = Z.of_nat (length items).
Proof. by intros (? & ? & _ & _ & _ & ? & _)%countByStatus_inv. Qed.

(** X18. The card shows no next approval exactly when its approvals line
    reads n/n: [nextApproval] is null if and only if the approval counts
    have [done] equal to [total]. *)
Theorem IssueCard_next_none (issue : value) (c : card) :
  IssueCard issue = Ok c →
  nextApproval c = VNull ↔ done (approvalCounts c) = total (approvalCounts c).
Proof.
  intros (_ & _ & subs & _ & _ & _ & _ & _ & Hac & Hna)%IssueCard_inv.
  apply countByStatus_inv in Hac as (ds & ns & Hds & _ & Hloop & -> & _).
  apply count_loop_exact in Hloop as [-> _]. rewrite Z.add_0_l.
  assert (ds = toLowerCase <$> approvalDoneStatuses) as ->
    by (vm_compute in Hds; injection Hds as <-; reflexivity).
  rewrite Nat2Z.inj_iff, filter_length_all.
  split.
  - intros Hnull. rewrite Hnull in Hna. by apply pending_loop_null in Hna.
  - intros Hall.
    apply pending_loop_Ok in Hna as [[-> _] | (pre & post & Hpre & _ & Hnd)]; [done |].
    rewrite Hpre in Hall.
    apply Forall_app in Hall as [_ Hall]. by apply Forall_cons in Hall as [Hd _].
Qed.

(** X19. The card splits the subtasks of the issue's phase in two: every
    one of them is either among the tasks or among the approvals, so that
    the totals of the two lines add up to their number; no task is of an
    approval type and every approval is. *)
Theorem IssueCard_partition (issue : value) (c : card) :
  IssueCard issue = Ok c →
  taskOnly c ++ approvalTasks c ≡ₚ phaseTasks c
  ∧ (total (taskCounts c) + total (approvalCounts c)
     = Z.of_nat (length (phaseTasks c)))%Z
  ∧ Forall (λ st, isApproval st = Ok false) (taskOnly c)
  ∧ Forall (λ st, isApproval st = Ok true) (approvalTasks c).
Proof.
  intros (_ & _ & subs & _ & _ & Htasks & Htc & Hat & Hac & _)%IssueCard_inv.
  pose proof (filterR_partition _ _ _ _ Hat Htasks) as Hperm.
  split; [done |]. split.
  - rewrite (countByStatus_total _ _ _ Htc), (countByStatus_total _ _ _ Hac).
    rewrite <- Hperm, length_app. lia.
  - split; apply Forall_forall; intros st Hst.
    + destruct (filterR_elem _ _ _ _ Htasks Hst) as [Hk _].
      destruct (isApproval st) as [[|] |]; done.
    + by destruct (filterR_elem _ _ _ _ Hat Hst) as [Hk _].
Qed.

(** X20. A subtask of the issue's own phase is never drawn as a row of a
    completed phase. *)
Theorem phase_task_not_completed (issue st statusConfig : value) (c : card) (r : row) :
  IssueCard issue = Ok c →
  st ∈ phaseTasks c →
  subtask_row issue st statusConfig = Ok r →
  isCompletedPhase r = false.
Proof.
  intros (Hn & Hph & subs & _ & Hpt & _)%IssueCard_inv Hst.
  destruct (filterR_elem _ _ _ _ Hpt Hst) as [Hin _].
  unfold in_phase, get in Hin. unfold subtask_row, get. rewrite Hn.
  bind_case a Ha. revert Hin.
  destruct (nullish st); [done |]. cbn [mbind result_bind].
  intros Hin.
  set (sm := prop st "summary") in *.
  destruct (phaseFromSummary sm) as [stPhase |]; cbn [mbind result_bind] in Hin |- *;
    [| done].
  injection Hin as Hin.
  bind_case rs Hrs. bind_case chip Hchip.
  intros [= <-]. cbn [isCompletedPhase].
  rewrite Hph in Hin. unfold js_or in Hin.
  destruct stPhase as [| a' | b]; cbn [phase_ref_is] in Hin.
  - by destruct (truthy (prop issue "phase")), (prop issue "phase").
  - destruct (truthy (prop issue "phase")) eqn:Ht.
    + destruct (prop issue "phase") as [| | ? | ? | p | ? | ?]; try done.
      apply bool_decide_eq_true in Hin as ->. cbn [phaseIndex_ref].
      rewrite Z.ltb_irrefl. apply andb_false_r.
    + assert (phaseIndex (prop issue "phase") = (-1)%Z) as ->
        by (unfold phaseIndex; by rewrite Ht).
      change (-1 <? -1)%Z with false. by rewrite andb_false_r.
  - done.
Qed.

(** X27. Of the linked issues of an issue the card surfaces exactly
    those whose relationship is, up to letter case, "is developed by" or "is
    governed by", in their order; an issue whose [linked_issues] is no array
    surfaces none. *)
Theorem linkedRelations_surfaced (issue : value) (rels : list value) :
  linkedRelations issue = Ok rels →
  rels = filter surfaced (match prop issue "linked_issues" with VArr l => l | _ => [] end).
Proof.
  unfold linkedRelations, get.
  destruct (nullish issue); [done |]. cbn [mbind result_bind].
  intros Hrels.
  apply (filterR_spec _ (λ li, bool_decide (surfaced li))) in Hrels.
  { rewrite Hrels. apply list_filter_iff. intros li. by rewrite bool_decide_eq_true. }
  intros li b. unfold relation_shown, lowered, get.
  destruct (nullish li); [done |]. cbn [mbind result_bind].
  destruct (toStr (js_or (prop li "relationship") (VStr ""))) as [s |] eqn:Hs;
    cbn [mbind result_bind]; [| done].
  intros [= <-]. symmetry.
  destruct (bool_decide_reflect (toLowerCase s = "is developed by")) as [Hr | Hr];
    [| destruct (bool_decide_reflect (toLowerCase s = "is governed by")) as [Hr' | Hr']];
    cbn [orb].
  - apply bool_decide_eq_true. exists s. split; [done |]. rewrite Hr. by left.
  - apply bool_decide_eq_true. exists s. split; [done |]. rewrite Hr'. right. by left.
  - apply bool_decide_eq_false. intros (s' & Hs' & Hin).
    rewrite Hs in Hs'. injection Hs' as <-.
    by apply elem_of_cons in Hin as [? | [? | ?%elem_of_nil]%elem_of_cons].
Qed.

End CardProps.

(** ** The refresh cycle: the update notice *)

Section Toast.
Context {host : Host}.



End Toast.

(** ** Validation messages *)

(** X26. The error list of the validator: a single message when the root
    is not an object (or array), and otherwise one message for each of the
    three fields that fails its check, in the order of the checks; and the
    document is accepted exactly when the list is empty. *)
Theorem validateYamlShape_errors (D : value) :
  errors (validateYamlShape D)
  = (if bool_decide (is_object D) then
       (if nullish (prop D "schema_version") then ["Missing schema_version."] else [])
       ++ (if bool_decide (is_object (prop D "counts")) then []
           else ["Missing counts object."])
       ++ (if bool_decide (is_object (prop D "phases")) then []
           else ["Missing phases object."])
     else ["YAML root must be an object."])
  ∧ (ok (validateYamlShape D) = true ↔ errors (validateYamlShape D) = []).
Proof.
  split.
  - destruct (bool_decide_reflect (is_object D)) as [[[m ->] | [l ->]] | Hno].
    + apply validate_errors.
    + done.
    + unfold validateYamlShape.
      destruct (negb (truthy D) || negb (js_type_eqb (typeof D) TObject)) eqn:Hc;
        [done |]. by apply object_check in Hc.
  - unfold validateYamlShape.
    destruct (negb (truthy D) || negb (js_type_eqb (typeof D) TObject)); [done |].
    cbn [ok errors]. rewrite bool_decide_eq_true. apply length_zero_iff_nil.
Qed.

(** ** The query *)

Lemma upper_ascii_facts (c : ascii) :
  is_space (upper_ascii c) = is_space c
  ∧ lower_char (upper_ascii c) = lower_char c
  ∧ ((nat_of_ascii c <? 128)%nat = true → upper_units c = [N_of_ascii (upper_ascii c)]).
Proof.
  pose proof (ascii_forall upper_ascii_check ltac:(vm_compute; reflexivity) c) as H.
  apply andb_prop in H as [H H3]. apply andb_prop in H as [H1 H2].
  apply bool_decide_eq_true in H1, H2. split; [done |]. split; [done |].
  intros Hc. rewrite Hc in H3. by apply bool_decide_eq_true in H3.
Qed.

Lemma string_map_empty (f : ascii → ascii) (s : string) : string_map f s = "" ↔ s = "".
Proof. by destruct s. Qed.

Lemma trimStart_map (f : ascii → ascii) (s : string) :
  (∀ c, is_space (f c) = is_space c) →
  trimStart (string_map f s) = string_map f (trimStart s).
Proof.
  intros Hf. induction s as [| c s IH]; [done |].
  cbn [string_map trimStart]. rewrite Hf. by destruct (is_space c).
Qed.

Lemma trimEnd_map (f : ascii → ascii) (s : string) :
  (∀ c, is_space (f c) = is_space c) →
  trimEnd (string_map f s) = string_map f (trimEnd s).
Proof.
  intros Hf. induction s as [| c s IH]; [done |].
  cbn [string_map trimEnd]. cbv zeta. rewrite IH, Hf.
  rewrite (bool_decide_ext _ _ (string_map_empty f (trimEnd s))).
  by destruct (is_space c && bool_decide (trimEnd s = "")).
Qed.

Lemma trim_upper_case (s : string) : trim (upper_case s) = upper_case (trim s).
Proof.
  unfold trim, upper_case.
  rewrite trimStart_map, trimEnd_map by (intros c; apply upper_ascii_facts). done.
Qed.

Lemma toLowerCase_upper_case (s : string) : toLowerCase (upper_case s) = toLowerCase s.
Proof.
  induction s as [| c s IH]; [done |]. cbn.
  rewrite (proj1 (proj2 (upper_ascii_facts c))). f_equal. exact IH.
Qed.

(** On a string of ASCII characters [toUpperCase] is [upper_case]. *)
Lemma toUpperCase_ascii (s : string) :
  is_ascii s = true → toUpperCase s = code_units (upper_case s).
Proof.
  unfold is_ascii, toUpperCase, code_units, upper_case.
  induction s as [| c s IH]; [done |].
  cbn [list_ascii_of_string forallb string_map fmap list_fmap concat].
  intros [Hc Hs]%andb_prop.
  rewrite (proj2 (proj2 (upper_ascii_facts c)) Hc). cbn [app]. f_equal. by apply IH.
Qed.

Section Query.
Context {host : Host}.

(** X23. The search is insensitive to the letter case of the query: a
    query of ASCII characters, put in upper case (as [toUpperCase] does),
    gives the same filtered view and the same match count as the query
    itself. *)
Theorem query_case_insensitive (data : value) (searchQuery : string)
    (isaFilter trackFilter : option string) :
  is_ascii searchQuery = true →
  toUpperCase searchQuery = code_units (upper_case searchQuery)
  ∧ filteredData data (upper_case searchQuery) isaFilter trackFilter
    = filteredData data searchQuery isaFilter trackFilter
  ∧ matchCount data (upper_case searchQuery) = matchCount data searchQuery.
Proof.
  intros Ha. split; [by apply toUpperCase_ascii |].
  unfold filteredData, matchCount.
  rewrite trim_upper_case, toLowerCase_upper_case.
  split; [done |].
  by rewrite (bool_decide_ext _ _ (string_map_empty upper_ascii (trim searchQuery))).
Qed.

End Query.

(** ** The phase header and the cards of a section *)

Lemma get_opt_or_empty (v : value) (k : string) :
  get_opt v k = prop (js_or v (VObj ∅)) k.
Proof.
  unfold get_opt, js_or. destruct v as [| | b | n | s | l | m]; try done.
  - by destruct b.
  - by destruct (truthy (VNum n)).
  - by destruct (truthy (VStr s)).
Qed.

Lemma allIssues_phase_issues (data : value) (phase : string) :
  allIssues data phase = phase_issues data phase.
Proof.
  unfold allIssues, phase_issues. rewrite get_opt_or_empty. do 3 f_equal.
  unfold get_opt. by destruct data.
Qed.

Lemma filterR_ext {A} (f g : A → result bool) (l : list A) :
  (∀ x, f x = g x) → filterR f l = filterR g l.
Proof.
  intros Hfg. induction l as [| x l IH]; [done |]. cbn [filterR]. by rewrite Hfg, IH.
Qed.

Section SectionProps.
Context {host : Host}.

(** The callback of the ISA count is the callback of the filter when the
    ISA filter alone is active: both upper-case the trimmed value, and both
    throw for a value without a string form. *)
Lemma isa_counted_kept (f : string) (i : value) :
  f ≠ "" → isa_counted f i = issue_kept "" (Some f) None i.
Proof.
  intros Hf. unfold issue_kept. cbn [bool_decide decide_rel mbind result_bind negb].
  rewrite bool_decide_eq_true_2 by done. cbn [mbind result_bind negb].
  unfold issueMatchesFilters, filter_on.
  rewrite (bool_decide_eq_false_2 (f = "")) by done. cbn [negb andb].
  assert (Hrel : isa_counted f i
                 = (u ← issueIsaValue i; Ok (bool_decide (u = code_units f)))).
  { assert (Hne : code_units f ≠ []) by (by destruct f).
    unfold isa_counted, issueIsaValue, get_opt.
    destruct (truthy i) eqn:Hi; cbn [andb].
    - assert (nullish i = false) as -> by (by destruct i).
      destruct (truthy (prop i "isa_or_non_isa")) eqn:Ha.
      + set (v := prop (prop i "isa_or_non_isa") "value").
        destruct (truthy v) eqn:Hv.
        * assert (js_or v (VStr "") = v) as -> by (unfold js_or; by rewrite Hv).
          assert (js_coalesce v VNull = v) as ->
            by (unfold js_coalesce; by destruct v).
          rewrite Hv. by destruct (toStr v).
        * assert (js_or v (VStr "") = VStr "") as -> by (unfold js_or; by rewrite Hv).
          assert (truthy (js_coalesce v VNull) = false) as ->
            by (unfold js_coalesce; by destruct v).
          cbn [toStr mbind result_bind]. by rewrite !bool_decide_eq_false_2.
      + rewrite Ha. cbn [mbind result_bind]. by rewrite bool_decide_eq_false_2.
    - assert (Hu : (if nullish i then VUndefined else prop i "isa_or_non_isa")
                   = VUndefined).
      { destruct i as [| | [|] | [[|] | [|] | | [|] ? ?] | s | l | m]; try done. }
      rewrite Hu. cbn [truthy mbind result_bind]. by rewrite bool_decide_eq_false_2. }
  rewrite Hrel. destruct (issueIsaValue i) as [u |]; cbn [mbind result_bind]; [| done].
  cbn [fmap option_fmap option_map].
  destruct (bool_decide_reflect (u = code_units f)) as [-> | Hne].
  - by rewrite bool_decide_eq_true_2.
  - rewrite bool_decide_eq_false_2; [done | congruence].
Qed.

Lemma track_counted_spec (f : string) (i : value) :
  track_counted f i = bool_decide (issueTrackValue i = f).
Proof.
  unfold track_counted, issueTrackValue. cbv zeta.
  assert (H : match get_opt (get_opt i "is_fast_track") "value" with
              | VStr s => toLowerCase (trim s)
              | _ => ""
              end
              = match (if truthy (get_opt i "is_fast_track")
                       then js_coalesce (prop (get_opt i "is_fast_track") "value") VNull
                       else get_opt i "is_fast_track") with
                | VStr s => toLowerCase (trim s)
                | _ => ""
                end).
  { destruct (truthy (get_opt i "is_fast_track")) eqn:Ha.
    - unfold get_opt at 1. assert (nullish (get_opt i "is_fast_track") = false) as ->
        by (by destruct (get_opt i "is_fast_track")).
      unfold js_coalesce. by destruct (prop _ "value").
    - destruct (get_opt i "is_fast_track") as [| | b | n | s | l | m]; try done.
      cbn in Ha. apply negb_false_iff, bool_decide_eq_true in Ha. by subst. }
  by rewrite H.
Qed.

Lemma track_counted_kept (f : string) (i : value) :
  f ≠ "" → issue_kept "" None (Some f) i = Ok (track_counted f i).
Proof.
  intros Hf. unfold issue_kept. cbn [bool_decide decide_rel mbind result_bind negb].
  rewrite bool_decide_eq_true_2 by done. cbn [mbind result_bind negb].
  unfold issueMatchesFilters, filter_on. cbn [mbind result_bind andb].
  rewrite (bool_decide_eq_false_2 (f = "")) by done. cbn [negb andb].
  rewrite track_counted_spec.
  destruct (bool_decide_reflect (issueTrackValue i = f)) as [-> | Hne].
  - by rewrite bool_decide_eq_true_2.
  - rewrite bool_decide_eq_false_2; [done | congruence].
Qed.

(** X24. The counts in a phase header agree with the filter: with a
    filter set and no query, the ISA count (the track count) of a phase is
    the number of issues the filtered view shows for that phase when that
    filter alone is active. *)
Theorem header_counts (data : value) (phase f : string) :
  f ≠ "" → phase ∈ PHASE_ORDER → truthy data = true →
  (∀ r, filteredData data "" (Some f) None = Ok r →
        ∃ kept, prop (prop r "phases") phase = VArr kept
                ∧ isaCount data phase (Some f) = Ok (Z.of_nat (length kept)))
  ∧ (∀ r, filteredData data "" None (Some f) = Ok r →
          ∃ kept, prop (prop r "phases") phase = VArr kept
                  ∧ trackCount data phase (Some f) = Ok (Z.of_nat (length kept))).
Proof.
  intros Hf Hphase Ht. split; intros r Hr.
  - destruct (filteredData_phases _ _ _ _ _ _ Ht Hr Hphase)
      as (issues & kept & Hi & Hk & Hp).
    exists kept. split; [done |]. unfold isaCount.
    rewrite (bool_decide_eq_false_2 (f = "")) by done.
    rewrite allIssues_phase_issues, Hi. cbn [as_array mbind result_bind].
    change (toLowerCase (trim "")) with "" in Hk.
    rewrite (filterR_ext _ _ issues (λ i, isa_counted_kept f i Hf)), Hk. done.
  - destruct (filteredData_phases _ _ _ _ _ _ Ht Hr Hphase)
      as (issues & kept & Hi & Hk & Hp).
    exists kept. split; [done |]. unfold trackCount.
    rewrite (bool_decide_eq_false_2 (f = "")) by done.
    rewrite allIssues_phase_issues, Hi. cbn [as_array mbind result_bind].
    change (toLowerCase (trim "")) with "" in Hk.
    apply (filterR_spec _ (track_counted f)) in Hk.
    + by rewrite Hk.
    + intros x b. rewrite track_counted_kept by done. by intros [= <-].
Qed.

(** X25. With a query, every card the section shows is marked as a match:
    for an issue that the filter kept, the props of the card, when they are
    computed, have [isMatch] true; and they are computed for every issue
    whose searched texts have a string form. *)
Theorem shown_cards_match (data : value) (searchQuery : string)
    (isaFilter trackFilter : option string) (r : value) (phase : string)
    (kept : list value) (issue : value) :
  truthy data = true →
  filteredData data searchQuery isaFilter trackFilter = Ok r →
  phase ∈ PHASE_ORDER →
  prop (prop r "phases") phase = VArr kept →
  issue ∈ kept →
  toLowerCase (trim searchQuery) ≠ "" →
  (∀ openSubtasks isMatch,
     card_props (toLowerCase (trim searchQuery)) issue = Ok (openSubtasks, isMatch) →
     isMatch = true)
  ∧ (issue_ok issue →
     ∃ openSubtasks,
       card_props (toLowerCase (trim searchQuery)) issue = Ok (openSubtasks, true)).
Proof.
  intros Ht Hr Hphase Hp Hin Hq.
  destruct (filteredData_phases _ _ _ _ _ _ Ht Hr Hphase)
    as (issues & kept' & Hi & Hk & Hp').
  rewrite Hp in Hp'. injection Hp' as <-.
  destruct (filterR_elem _ _ _ _ Hk Hin) as [Hkept _].
  set (q := toLowerCase (trim searchQuery)) in *.
  assert (Hret : ∀ openSubtasks isMatch,
            card_props q issue = Ok (openSubtasks, isMatch) → isMatch = true).
  { intros openSubtasks isMatch. unfold issue_kept in Hkept. unfold card_props.
    rewrite (bool_decide_eq_false_2 (q = "")) in Hkept |- * by done.
    destruct (matchesQuery q issue VUndefined) as [m |];
      cbn [mbind result_bind] in Hkept |- *; [| done].
    destruct (subs ← get issue "subtasks";
              subs ← as_array "some" (js_or subs (VArr []));
              someR (λ st, matchesQuery q issue st) subs) as [sb |] eqn:Hsb.
    - revert Hsb. destruct (get issue "subtasks") as [subs |];
        cbn [mbind result_bind]; [| done].
      destruct (as_array "some" (js_or subs (VArr []))) as [arr |];
        cbn [mbind result_bind]; [| done].
      intros ->. cbn [mbind result_bind]. intros [= <- <-].
      destruct m; [done |]. cbn [orb]. by destruct sb.
    - revert Hsb. destruct (get issue "subtasks") as [subs |];
        cbn [mbind result_bind]; [| done].
      destruct (as_array "some" (js_or subs (VArr []))) as [arr |];
        cbn [mbind result_bind]; [| done].
      by intros ->. }
  split; [exact Hret |]. intros Hok.
  assert (∃ p, card_props q issue = Ok p) as [[openSubtasks isMatch] Hcard].
  { unfold card_props. rewrite (bool_decide_eq_false_2 (q = "")) by done.
    destruct (matchesQuery_total q issue VUndefined Hok) as [m ->]; [done |].
    cbn [mbind result_bind].
    destruct (some_subtask_total q issue Hok) as [sb Hsb]. revert Hsb.
    destruct (get issue "subtasks") as [subs |]; cbn [mbind result_bind]; [| done].
    destruct (as_array "some" (js_or subs (VArr []))) as [arr |];
      cbn [mbind result_bind]; [| done].
    intros ->. by eexists. }
  exists openSubtasks. by rewrite Hcard, (Hret _ _ Hcard).
Qed.

End SectionProps.

(** ** The match count *)

Section MatchCountProps.
Context {host : Host}.
Local Open Scope Z_scope.

(** The subtask loop adds one for each matching subtask: at least one if
    [some] finds a match, and nothing otherwise. *)
Lemma count_subtasks_some (q : string) (issue : value) (subs : list value) (c n : Z) :
  count_subtasks q issue subs c = Ok n →
  c ≤ n
  ∧ ∀ b, someR (λ st, matchesQuery q issue st) subs = Ok b →
         if b then c < n else n = c.
Proof.
  revert c. induction subs as [| st subs IH]; intros c.
  { cbn. intros [= <-]. split; [lia |]. by intros b [= <-]. }
  cbn [count_subtasks someR]. bind_case m Hm.
  intros [Hle Hsome]%IH. destruct m.
  - split; [lia |]. intros b [= <-]. lia.
  - split; [done |]. intros b Hb. by apply Hsome.
Qed.

Lemma iterate_array (v : value) (l : list value) :
  as_array "some" v = Ok l → iterate v = Ok l.
Proof. by intros ->%as_array_Ok. Qed.

(** The issue loop against the filter callback, over one phase list. *)
Lemma count_issues_kept (q : string) (isaFilter trackFilter : option string)
    (issues kept : list value) (c n : Z) :
  q ≠ "" →
  count_issues q issues c = Ok n →
  filterR (issue_kept q isaFilter trackFilter) issues = Ok kept →
  c + Z.of_nat (length kept) ≤ n
  ∧ (isaFilter = None → trackFilter = None → (n = c ↔ kept = [])).
Proof.
  intros Hq. revert c kept. induction issues as [| issue issues IH]; intros c kept.
  { cbn. intros [= <-] [= <-]. cbn. split; [lia | done]. }
  cbn [count_issues]. bind_case m Hm. cbv zeta. bind_case subs Hsubs.
  bind_case subsL Hiter. bind_case c2 Hc2. intros Hrest.
  intros (b & kept' & Hb & Hkept' & ->)%filterR_cons_Ok.
  destruct (IH _ _ Hrest Hkept') as [Hle Hiff].
  destruct (count_subtasks_some _ _ _ _ _ Hc2) as [Hle2 Hsome].
  unfold issue_kept in Hb.
  rewrite (bool_decide_eq_false_2 (q = "")), Hm in Hb by done.
  cbn [mbind result_bind] in Hb.
  assert (Hnone : isaFilter = None → trackFilter = None →
                  issueMatchesFilters issue isaFilter trackFilter = Ok true).
  { by intros -> ->. }
  destruct m.
  - cbn [mbind result_bind negb] in Hb.
    split.
    + destruct b; cbn [length]; lia.
    + intros Hi0 Ht0. rewrite (Hnone Hi0 Ht0) in Hb. injection Hb as <-.
      split; [lia | done].
  - rewrite Hsubs in Hb. cbn [mbind result_bind] in Hb. revert Hb.
    bind_case sb Hsb. revert Hsb. bind_case subsA Harr. apply iterate_array in Harr.
    rewrite Hiter in Harr. injection Harr as <-.
    intros Hsb. specialize (Hsome sb Hsb).
    destruct sb; cbn [negb].
    + intros Hb. split.
      * destruct b; cbn [length]; lia.
      * intros Hi0 Ht0. rewrite (Hnone Hi0 Ht0) in Hb. injection Hb as <-.
        split; [lia | done].
    + intros [= <-]. subst c2. split; [done |]. exact Hiff.
Qed.

Lemma shown_nonneg (r : value) (order : list string) : 0 ≤ shown r order.
Proof.
  induction order as [| p order IH]; [done |].
  unfold shown. cbn [foldr]. fold (shown r order).
  destruct (prop (prop r "phases") p); lia.
Qed.

Lemma count_phases_shown (q : string) (isaFilter trackFilter : option string)
    (data r : value) (order : list string) (c n : Z) :
  q ≠ "" →
  (∀ phase, phase ∈ order →
     ∃ issues kept,
       phase_issues data phase = VArr issues
       ∧ filterR (issue_kept q isaFilter trackFilter) issues = Ok kept
       ∧ prop (prop r "phases") phase = VArr kept) →
  count_phases q data order c = Ok n →
  c + shown r order ≤ n
  ∧ (isaFilter = None → trackFilter = None → (n = c ↔ shown r order = 0)).
Proof.
  intros Hq. revert c. induction order as [| p order IH]; intros c Hall.
  { cbn. intros [= <-]. split; [lia | done]. }
  destruct (Hall p ltac:(by left)) as (issues & kept & Hi & Hk & Hp).
  unfold shown. cbn [count_phases foldr]. fold (shown r order). rewrite Hp.
  unfold phase_issues in Hi. rewrite <- get_opt_or_empty in Hi. rewrite Hi.
  cbn [iterate mbind result_bind]. bind_case c1 Hc1. intros Hrest.
  destruct (count_issues_kept _ isaFilter trackFilter _ _ _ _ Hq Hc1 Hk) as [Hle1 Hiff1].
  destruct (IH c1 ltac:(intros ph ?; apply Hall; by right) Hrest) as [Hle Hiff].
  pose proof (shown_nonneg r order).
  split; [lia |]. intros Hi0 Ht0.
  specialize (Hiff1 Hi0 Ht0). specialize (Hiff Hi0 Ht0).
  split.
  - intros ->. assert (c1 = c) as -> by lia.
    by rewrite (proj1 Hiff1 eq_refl), (proj1 Hiff eq_refl).
  - intros H0. assert (kept = []) as -> by (destruct kept; [done | cbn in H0; lia]).
    assert (shown r order = 0) as Hs by (cbn in H0; lia).
    rewrite <- (proj2 Hiff1 eq_refl). by apply Hiff.
Qed.

(** X22. The match count bounds what the filtered view shows.  For a
    query that is not blank, when both are computed: the view shows at most
    as many issues as the count says; and without categorical filters the
    count is 0 exactly when the view is empty, so that a count of 1 means
    one card. *)
Theorem matchCount_displayed (data : value) (searchQuery : string)
    (isaFilter trackFilter : option string) (n : Z) (r : value) :
  trim searchQuery ≠ "" →
  matchCount data searchQuery = Ok n →
  filteredData data searchQuery isaFilter trackFilter = Ok r →
  0 ≤ displayed r ≤ n
  ∧ (isaFilter = None → trackFilter = None → (n = 0 ↔ displayed r = 0)).
Proof.
  intros Hq Hn Hr. unfold matchCount in Hn.
  rewrite (bool_decide_eq_false_2 (trim searchQuery = "")), orb_false_r in Hn by done.
  destruct (truthy data) eqn:Ht; cbn [negb] in Hn.
  - assert (Hq' : toLowerCase (trim searchQuery) ≠ "").
    { unfold toLowerCase. by rewrite string_map_empty. }
    destruct (count_phases_shown _ isaFilter trackFilter data r PHASE_ORDER 0 n Hq')
      as [Hle Hiff]; [| done |].
    { intros phase Hphase. by apply filteredData_phases. }
    pose proof (shown_nonneg r PHASE_ORDER).
    unfold displayed. split; [lia | done].
  - injection Hn as <-. unfold filteredData in Hr. rewrite Ht in Hr.
    cbn in Hr. injection Hr as <-. done.
Qed.

End MatchCountProps.

(** ** Blanks around the query *)

Lemma trimStart_app_spaces (ws s : string) :
  forallb is_space (list_ascii_of_string ws) = true →
  trimStart (ws +:+ s) = trimStart s.
Proof.
  induction ws as [| c ws IH]; [done |].
  cbn [list_ascii_of_string forallb]. intros [Hc Hws]%andb_prop.
  rewrite app_String. cbn [trimStart]. rewrite Hc. by apply IH.
Qed.

Lemma trimEnd_spaces (ws : string) :
  forallb is_space (list_ascii_of_string ws) = true → trimEnd ws = "".
Proof.
  induction ws as [| c ws IH]; [done |].
  cbn [list_ascii_of_string forallb]. intros [Hc Hws]%andb_prop.
  cbn [trimEnd]. cbv zeta. by rewrite (IH Hws), Hc.
Qed.

Lemma trimEnd_app_spaces (s ws : string) :
  forallb is_space (list_ascii_of_string ws) = true →
  trimEnd (s +:+ ws) = trimEnd s.
Proof.
  intros Hws. induction s as [| c s IH].
  - rewrite app_empty. by apply trimEnd_spaces.
  - rewrite app_String. cbn [trimEnd]. by rewrite IH.
Qed.

Lemma trim_app_spaces (ws1 s ws2 : string) :
  forallb is_space (list_ascii_of_string ws1) = true →
  forallb is_space (list_ascii_of_string ws2) = true →
  trim (ws1 +:+ s +:+ ws2) = trim s.
Proof.
  intros H1 H2. unfold trim. rewrite trimStart_app_spaces by done.
  induction s as [| c s IH].
  - rewrite app_empty, <- (app_empty_r ws2), trimStart_app_spaces by done. done.
  - rewrite app_String. cbn [trimStart]. destruct (is_space c); [exact IH |].
    by rewrite <- app_String, trimEnd_app_spaces.
Qed.

Section Blanks.
Context {host : Host}.

(** X30. White space before and after the query is ignored: the query
    with blanks around it gives the same filtered view and the same match
    count as the query itself. *)
Theorem query_blanks_ignored (data : value) (ws1 searchQuery ws2 : string)
    (isaFilter trackFilter : option string) :
  forallb is_space (list_ascii_of_string ws1) = true →
  forallb is_space (list_ascii_of_string ws2) = true →
  filteredData data (ws1 +:+ searchQuery +:+ ws2) isaFilter trackFilter
  = filteredData data searchQuery isaFilter trackFilter
  ∧ matchCount data (ws1 +:+ searchQuery +:+ ws2) = matchCount data searchQuery.
Proof.
  intros H1 H2. unfold filteredData, matchCount.
  by rewrite trim_app_spaces.
Qed.

End Blanks.

(** ** The statements on the sample data *)

Lemma hexToRgb_rgbToHex_witness :
  hexToRgb (@rgbToHex demo_radix16 (Z2SF 31) (Z2SF 90) (Z2SF 168))
  = {| rgb_r := 31; rgb_g := 90; rgb_b := 168 |}.
Proof. apply (@hexToRgb_rgbToHex demo_radix16); lia. Defined.

Lemma rgbToHex_hexToRgb_witness :
  is_colour "#1F5AA8" = true
  ∧ @rgbToHex demo_radix16 (Z2SF (rgb_r (hexToRgb "#1F5AA8")))
      (Z2SF (rgb_g (hexToRgb "#1F5AA8"))) (Z2SF (rgb_b (hexToRgb "#1F5AA8")))
    = toLowerCase "#1F5AA8".
Proof.
  split; [reflexivity |].
  exact (@rgbToHex_hexToRgb demo_radix16 "#1F5AA8" eq_refl).
Defined.

Lemma lighten_not_darker_witness :
  is_colour (@lighten demo_radix16 "#1f5aa8" None) = true
  ∧ (rgb_r (hexToRgb "#1f5aa8")
     ≤ rgb_r (hexToRgb (@lighten demo_radix16 "#1f5aa8" None)) ≤ 255)%Z
  ∧ (rgb_g (hexToRgb "#1f5aa8")
     ≤ rgb_g (hexToRgb (@lighten demo_radix16 "#1f5aa8" None)) ≤ 255)%Z
  ∧ (rgb_b (hexToRgb "#1f5aa8")
     ≤ rgb_b (hexToRgb (@lighten demo_radix16 "#1f5aa8" None)) ≤ 255)%Z.
Proof. exact (@lighten_not_darker demo_radix16 "#1f5aa8" None (or_introl eq_refl)). Defined.

Lemma highlightText_pieces_witness :
  @toStr demo_host (js_or (VStr "UART extension") (VStr "")) = Ok "UART extension"
  ∧ match @highlightText demo_host (VStr "UART extension") "uart" with
    | Ok (Plain v) =>
        v = js_or (VStr "UART extension") (VStr "")
        ∧ ("uart" = ""
           ∨ includes (toLowerCase "UART extension") (toLowerCase "uart") = false)
    | Ok (Marked before matched after) =>
        "uart" ≠ ""
        ∧ before +:+ matched +:+ after = "UART extension"
        ∧ includes (toLowerCase "UART extension") (toLowerCase "uart") = true
        ∧ (is_ascii "UART extension" = true → toLowerCase matched = toLowerCase "uart")
    | Throw _ => False
    end.
Proof.
  split; [reflexivity |].
  exact (@highlightText_pieces demo_host (VStr "UART extension") "uart" "UART extension"
           eq_refl).
Defined.

Lemma buildMailto_body_witness :
  match @buildMailto demo_host demo_uart (VStr "Development") demo_counts [demo_task]
          (VStr "ISA") (VStr "Regular") VNull with
  | Ok link =>
      ∃ text key summary,
        @buildSummaryText demo_host demo_uart (VStr "Development") demo_counts
          [demo_task] (VStr "ISA") (VStr "Regular") VNull = Ok text
        ∧ @toStr demo_host (js_or (prop demo_uart "key") (VStr "")) = Ok key
        ∧ @toStr demo_host (js_or (prop demo_uart "summary") (VStr "")) = Ok summary
        ∧ link = "mailto:?subject="
                 +:+ encodeURIComponent
                       (trim ("RISC-V Spec Update: " +:+ key +:+ " " +:+ summary))
                 +:+ "&body=" +:+ encodeURIComponent text
  | Throw _ => False
  end.
Proof.
  apply when_Ok; [vm_compute; reflexivity |]. intros link Hlink.
  exact (proj1 (@buildMailto_body demo_host demo_uart (VStr "Development") demo_counts
                  [demo_task] (VStr "ISA") (VStr "Regular") VNull) link Hlink).
Defined.

Lemma buildMailto_wellformed_witness :
  match @buildMailto demo_host demo_uart (VStr "Development") demo_counts [demo_task]
          (VStr "ISA") (VStr "Regular") VNull with
  | Ok link =>
      ∃ subject body,
        link = "mailto:?subject=" +:+ subject +:+ "&body=" +:+ body
        ∧ all_uri_safe subject = true ∧ all_uri_safe body = true
        ∧ uri_safe "&" = false ∧ uri_safe "=" = false ∧ uri_safe "?" = false
        ∧ uri_safe "#" = false ∧ uri_safe " " = false ∧ uri_safe "010" = false
  | Throw _ => False
  end.
Proof.
  apply when_Ok; [vm_compute; reflexivity |]. intros link Hlink.
  exact (@buildMailto_wellformed demo_host demo_uart (VStr "Development") demo_counts
           [demo_task] (VStr "ISA") (VStr "Regular") VNull link Hlink).
Defined.

(** The white space before the bracket is a no-break space and a tab. *)
Lemma phaseFromSummary_bracket_witness :
  @phaseFromSummary demo_host
    (VStr (String "160" (String "009" "") +:+ "[" +:+ " DEVELOPMENT " +:+ "]"
           +:+ " write the draft"))
  = Ok (PhName "Development").
Proof.
  apply (@phaseFromSummary_bracket demo_host (String "160" (String "009" ""))
           " DEVELOPMENT " " write the draft" "Development").
  - by_compute.
  - reflexivity.
  - by_compute.
  - reflexivity.
Defined.

Lemma matchesQuery_with_subtask_witness :
  @matchesQuery demo_host "uart" demo_uart VUndefined = Ok true
  ∧ @matchesQuery demo_host "uart" demo_uart demo_task = Ok true.
Proof.
  assert (H : @matchesQuery demo_host "uart" demo_uart VUndefined = Ok true)
    by (vm_compute; reflexivity).
  split; [exact H |].
  apply (proj2 (@matchesQuery_with_subtask demo_host "uart" demo_uart demo_task H)).
  intros _. repeat (constructor; [reflexivity |]). constructor.
Defined.

Lemma matchesQuery_lower_case_witness :
  @matchesQuery demo_host "uart" demo_uart demo_task = Ok true
  ∧ toLowerCase "uart" = "uart".
Proof.
  split; [vm_compute; reflexivity |].
  apply (@matchesQuery_lower_case demo_host "uart" demo_uart demo_task).
  vm_compute. reflexivity.
Defined.

Lemma normalizeStatusConfig_idempotent_witness :
  @normalizeStatusConfig demo_host (mkStatusConfig ["Done"; "Approved"] ["To Do"])
  = Ok {| doneStatuses := ["done"; "approved"]; notStartedStatuses := ["to do"] |}
  ∧ @normalizeStatusConfig demo_host (mkStatusConfig ["done"; "approved"] ["to do"])
    = Ok {| doneStatuses := ["done"; "approved"]; notStartedStatuses := ["to do"] |}.
Proof.
  split; [reflexivity |].
  exact (@normalizeStatusConfig_idempotent demo_host
           (mkStatusConfig ["Done"; "Approved"] ["To Do"])
           {| doneStatuses := ["done"; "approved"]; notStartedStatuses := ["to do"] |}
           eq_refl).
Defined.

Lemma countByStatus_exact_witness :
  match countByStatus [demo_arc; demo_bod; demo_task] demo_opts with
  | Ok c =>
      let doneSet := toLowerCase <$> option_strings (get_opt demo_opts "doneStatuses") in
      let notStartedSet :=
        toLowerCase <$> option_strings (get_opt demo_opts "notStartedStatuses") in
      done c = Z.of_nat (length (filter (done_under doneSet)
                                   [demo_arc; demo_bod; demo_task]))
      ∧ notStarted c
        = Z.of_nat (length (filter (λ st, ¬ done_under doneSet st
                                          ∧ (toLowerCase (status_text st) ∈ notStartedSet
                                             ∨ not_started_name st))
                              [demo_arc; demo_bod; demo_task]))
      ∧ inProgress c
        = (Z.of_nat (length [demo_arc; demo_bod; demo_task]) - done c - notStarted c)%Z
      ∧ total c = Z.of_nat (length [demo_arc; demo_bod; demo_task])
  | Throw _ => False
  end.
Proof.
  apply when_Ok; [vm_compute; reflexivity |]. intros c Hc.
  exact (countByStatus_exact [demo_arc; demo_bod; demo_task] demo_opts c Hc).
Defined.

Lemma IssueCard_next_none_witness :
  match @IssueCard demo_host demo_uart with
  | Ok c => nextApproval c = VNull ↔ done (approvalCounts c) = total (approvalCounts c)
  | Throw _ => False
  end.
Proof.
  apply when_Ok; [vm_compute; reflexivity |]. intros c Hc.
  exact (@IssueCard_next_none demo_host demo_uart c Hc).
Defined.

Lemma IssueCard_partition_witness :
  match @IssueCard demo_host demo_uart with
  | Ok c =>
      taskOnly c ++ approvalTasks c ≡ₚ phaseTasks c
      ∧ (total (taskCounts c) + total (approvalCounts c)
         = Z.of_nat (length (phaseTasks c)))%Z
      ∧ Forall (λ st, isApproval st = Ok false) (taskOnly c)
      ∧ Forall (λ st, isApproval st = Ok true) (approvalTasks c)
  | Throw _ => False
  end.
Proof.
  apply when_Ok; [vm_compute; reflexivity |]. intros c Hc.
  exact (@IssueCard_partition demo_host demo_uart c Hc).
Defined.

Lemma phase_task_not_completed_witness :
  match @IssueCard demo_host demo_uart with
  | Ok c =>
      match @subtask_row demo_host demo_uart demo_task DEFAULT_STATUS_CONFIG with
      | Ok r => demo_task ∈ phaseTasks c ∧ isCompletedPhase r = false
      | Throw _ => False
      end
  | Throw _ => False
  end.
Proof.
  apply when_Ok; [vm_compute; reflexivity |]. intros c Hc.
  apply when_Ok; [vm_compute; reflexivity |]. intros r Hr.
  assert (Hpt : phaseTasks c = [demo_arc; demo_bod; demo_task]).
  { rewrite (Ok_proj _ _ phaseTasks [] Hc). vm_compute. reflexivity. }
  assert (Hin : demo_task ∈ phaseTasks c).
  { rewrite Hpt. right. right. left. }
  split; [exact Hin |].
  exact (@phase_task_not_completed demo_host demo_uart demo_task DEFAULT_STATUS_CONFIG
           c r Hc Hin Hr).
Defined.


(** The scenario of the update notice: a second refresh with the same
    [generated_at] raises nothing; a refresh with another one raises the
    notice, which its timer clears. *)
Example toast_scenario :
  toastMsg (@run demo_host [Refresh (demo_net, 0%Z); Refresh (demo_net, 300000%Z)]) = ""
  ∧ toastMsg (@run demo_host [Refresh (demo_net, 0%Z); Refresh (update_net, 300000%Z)])
    = "YAML updated"
  ∧ toastMsg (@run demo_host [Refresh (demo_net, 0%Z); Refresh (update_net, 300000%Z);
                              ToastTimeout]) = ""
  ∧ toastMsg (@run demo_host [Refresh (demo_net, 0%Z); Refresh (update_net, 300000%Z);
                              ToastTimeout; Refresh (update_net, 600000%Z)]) = "".
Proof. by vm_compute. Qed.

Lemma matchCount_displayed_witness :
  trim "uart" ≠ ""
  ∧ match @matchCount demo_host demo_doc "uart" with
    | Ok n =>
        match @filteredData demo_host demo_doc "uart" None None with
        | Ok r =>
            (0 ≤ displayed r ≤ n)%Z ∧ (n = 0%Z ↔ displayed r = 0%Z)
        | Throw _ => False
        end
    | Throw _ => False
    end.
Proof.
  split; [done |].
  apply when_Ok; [vm_compute; reflexivity |]. intros n Hn.
  apply when_Ok; [vm_compute; reflexivity |]. intros r Hr.
  destruct (@matchCount_displayed demo_host demo_doc "uart" None None n r
              ltac:(done) Hn Hr) as [Hle Hiff].
  split; [exact Hle | exact (Hiff eq_refl eq_refl)].
Defined.

Lemma query_case_insensitive_witness :
  is_ascii "uart" = true
  ∧ toUpperCase "uart" = code_units (upper_case "uart")
  ∧ @filteredData demo_host demo_doc (upper_case "uart") None None
    = @filteredData demo_host demo_doc "uart" None None
  ∧ @matchCount demo_host demo_doc (upper_case "uart")
    = @matchCount demo_host demo_doc "uart".
Proof.
  split; [reflexivity |].
  exact (@query_case_insensitive demo_host demo_doc "uart" None None eq_refl).
Defined.

Lemma header_counts_witness :
  "ISA" ≠ "" ∧ "Development" ∈ PHASE_ORDER ∧ truthy demo_doc = true
  ∧ (∀ r, @filteredData demo_host demo_doc "" (Some "ISA") None = Ok r →
          ∃ kept, prop (prop r "phases") "Development" = VArr kept
                  ∧ @isaCount demo_host demo_doc "Development" (Some "ISA")
                    = Ok (Z.of_nat (length kept)))
  ∧ (∀ r, @filteredData demo_host demo_doc "" None (Some "ISA") = Ok r →
          ∃ kept, prop (prop r "phases") "Development" = VArr kept
                  ∧ trackCount demo_doc "Development" (Some "ISA")
                    = Ok (Z.of_nat (length kept))).
Proof.
  assert (H1 : "ISA" ≠ "") by done.
  assert (H2 : "Development" ∈ PHASE_ORDER) by by_compute.
  split; [exact H1 |]. split; [exact H2 |]. split; [reflexivity |].
  exact (@header_counts demo_host demo_doc "Development" "ISA" H1 H2 eq_refl).
Defined.

(** The well-formedness of a sample issue, settled by evaluation. *)
Ltac issue_ok_by_compute :=
  split; [reflexivity |];
  split; [repeat (constructor; [reflexivity |]); constructor |];
  split; [reflexivity |];
  split; [intros lis H; vm_compute in H; discriminate H |];
  first [ left; reflexivity
        | right; eexists; split; [vm_compute; reflexivity |];
          repeat (constructor;
                  [repeat (constructor; [reflexivity |]); constructor |]);
          constructor ].

Lemma demo_uart_ok : issue_ok demo_uart.
Proof. issue_ok_by_compute. Qed.

Lemma shown_cards_match_witness :
  match @filteredData demo_host demo_doc "UART " None None with
  | Ok r =>
      prop (prop r "phases") "Development" = VArr [demo_uart; demo_docs]
      ∧ ∃ openSubtasks,
          @card_props demo_host (toLowerCase (trim "UART ")) demo_uart
          = Ok (openSubtasks, true)
  | Throw _ => False
  end.
Proof.
  apply when_Ok; [vm_compute; reflexivity |]. intros r Hr.
  assert (Hp : prop (prop r "phases") "Development" = VArr [demo_uart; demo_docs]).
  { rewrite (Ok_proj _ _ (λ r, prop (prop r "phases") "Development") VNull Hr).
    vm_compute. reflexivity. }
  split; [exact Hp |].
  exact (proj2 (@shown_cards_match demo_host demo_doc "UART " None None r "Development"
                  [demo_uart; demo_docs] demo_uart eq_refl Hr ltac:(by_compute) Hp
                  (list_elem_of_here _ _) ltac:(done))
           demo_uart_ok).
Defined.

Lemma linkedRelations_surfaced_witness :
  match @linkedRelations demo_host demo_linked with
  | Ok rels =>
      rels = filter (@surfaced demo_host)
               (match prop demo_linked "linked_issues" with VArr l => l | _ => [] end)
  | Throw _ => False
  end.
Proof.
  apply when_Ok; [vm_compute; reflexivity |]. intros rels Hrels.
  exact (@linkedRelations_surfaced demo_host demo_linked rels Hrels).
Defined.

Lemma demo_doc_well_formed (phase : string) :
  phase ∈ PHASE_ORDER →
  ∃ issues, phase_issues demo_doc phase = VArr issues ∧ Forall issue_ok issues.
Proof.
  assert (Hok : ∀ issue, issue ∈ [demo_uart; demo_debug; demo_docs] → issue_ok issue).
  { intros issue Hi.
    repeat (apply elem_of_cons in Hi as [-> | Hi]; [issue_ok_by_compute |]).
    by apply elem_of_nil in Hi. }
  unfold PHASE_ORDER. intros Hphase.
  repeat (apply elem_of_cons in Hphase as [-> | Hphase];
          [first [exists []; split; [vm_compute; reflexivity | constructor]
                 | exists [demo_uart; demo_debug; demo_docs];
                   split; [vm_compute; reflexivity | by apply Forall_forall]] |]).
  by apply elem_of_nil in Hphase.
Qed.

Lemma filteredData_total_witness :
  (∀ phase, phase ∈ PHASE_ORDER →
     ∃ issues, phase_issues demo_doc phase = VArr issues ∧ Forall issue_ok issues)
  ∧ ∃ r, @filteredData demo_host demo_doc "uart" (Some "ISA") None = Ok r.
Proof.
  split; [exact demo_doc_well_formed |].
  exact (@filteredData_total demo_host demo_doc "uart" (Some "ISA") None
           demo_doc_well_formed).
Defined.

Lemma IssueCard_total_witness :
  nullish demo_uart = false ∧ ∃ c, @IssueCard demo_host demo_uart = Ok c.
Proof.
  split; [reflexivity |].
  apply (@IssueCard_total demo_host demo_uart eq_refl).
  exists [demo_arc; demo_bod; demo_task]. split; [vm_compute; reflexivity |].
  repeat (constructor;
          [split; [split; [reflexivity | right; eexists; vm_compute; reflexivity]
                  | reflexivity] |]).
  constructor.
Defined.

(** The blanks before the query are a no-break space and a space. *)
Lemma query_blanks_ignored_witness :
  forallb is_space (list_ascii_of_string (String "160" " ")) = true
  ∧ forallb is_space (list_ascii_of_string " ") = true
  ∧ @filteredData demo_host demo_doc (String "160" " " +:+ "uart" +:+ " ")
      (Some "ISA") None
    = @filteredData demo_host demo_doc "uart" (Some "ISA") None
  ∧ @matchCount demo_host demo_doc (String "160" " " +:+ "uart" +:+ " ")
    = @matchCount demo_host demo_doc "uart".
Proof.
  split; [reflexivity |]. split; [reflexivity |].
  exact (@query_blanks_ignored demo_host demo_doc (String "160" " ") "uart" " "
           (Some "ISA") None eq_refl eq_refl).
Defined.

(** ** Characters outside ASCII, and objects without a string form *)

(** A capital letter outside ASCII is lower-cased like any other: the
    status "ÉTAT" is in the done set ["état"]. *)
Example statusClass_latin1 :
  @statusClass demo_host (VStr (String "201" "TAT")) (mkStatusConfig [String "233" "tat"] [])
  = Ok "status-done".
Proof. reflexivity. Qed.

(** A no-break space is trimmed like a blank: an issue whose ISA value is
    a no-break space followed by "isa" passes the "ISA" filter. *)
Example issueMatchesFilters_nbsp :
  @issueMatchesFilters demo_host
    (obj [("isa_or_non_isa", obj [("value", VStr (String "160" "isa"))])])
    (Some "ISA") None
  = Ok true.
Proof. reflexivity. Qed.

(** The capital of the micro sign lies outside the range of the strings:
    the upper-cased text equals no filter. *)
Example toUpperCase_micro :
  toUpperCase (String "181" "s") = [924; 83]%N
  ∧ ∀ f : string, toUpperCase (String "181" "s") ≠ code_units f.
Proof.
  split; [reflexivity |]. intros [| c f]; [done |]. cbn. intros [= Hc _].
  pose proof (N_ascii_bounded c) as Hb. rewrite <- Hc in Hb. done.
Qed.

(** An issue whose key is a mapping with a [toString] key of its own has
    no text to search: the search throws, and so does the filter. *)
Example matchesQuery_no_string_form :
  @matchesQuery demo_host "uart"
    (obj [("key", obj [("toString", VNum (Z2SF 1))]); ("summary", VStr "UART")])
    VUndefined
  = Throw (TypeError "Cannot convert object to primitive value")
  ∧ @matchesQuery demo_host "uart"
      (obj [("key", obj [("valueOf", VNum (Z2SF 1))]); ("summary", VStr "UART")])
      VUndefined
    = Ok true.
Proof. split; reflexivity. Qed.
